(** * Moroccan ID card text extraction: [project/utils/text_parser.py]

  A shallow embedding of [MoroccanIDExtractor] (normalisation of OCR text,
  boilerplate removal, pattern-driven field extraction, date parsing) and
  of the fragments of the Python runtime it calls: [str] methods,
  [unicodedata.normalize('NFKD', _)], the [re] module on the pattern
  language the program uses, and [datetime.strptime]/[strftime] on the
  three layouts the program uses; and of [parse_extracted_data] of
  [project/app.py], the one function there that is not user interface. *)

From Stdlib Require Import String Ascii.
From Stdlib Require Import List NArith Bool Lia PeanoNat.
Import ListNotations.

Local Open Scope N_scope.

(** ** Text: sequences of Unicode code points *)

Definition cp := N.
Definition str := list cp.

Module Utf8.

(** Decoder for the UTF-8 encoded literals of this file. *)
Fixpoint decode (bs : list N) : str :=
  match bs with
  | [] => []
  | b0 :: r0 =>
      if b0 <? 0x80 then b0 :: decode r0
      else
        match r0 with
        | [] => []
        | b1 :: r1 =>
            if b0 <? 0xE0 then ((b0 - 0xC0) * 64 + (b1 - 0x80)) :: decode r1
            else
              match r1 with
              | [] => []
              | b2 :: r2 =>
                  if b0 <? 0xF0
                  then ((b0 - 0xE0) * 4096 + (b1 - 0x80) * 64 + (b2 - 0x80))
                         :: decode r2
                  else
                    match r2 with
                    | [] => []
                    | b3 :: r3 =>
                        ((b0 - 0xF0) * 262144 + (b1 - 0x80) * 4096
                         + (b2 - 0x80) * 64 + (b3 - 0x80)) :: decode r3
                    end
              end
        end
  end.

End Utf8.

(** A Python string literal, written in UTF-8. *)
Definition utf8 (s : string) : str :=
Utf8.decode (map N_of_ascii (list_ascii_of_string s)).

(** A one-character literal. *)
Definition chr (s : string) : cp := hd 0 (utf8 s).

Definition str_eqb (a b : str) : bool :=
if list_eq_dec N.eq_dec a b then true else false.

(** ** Exceptions *)

Inductive exn := ValueError | AttributeError.

Inductive outcome (A : Type) :=
| Return (a : A)
| Raise (e : exn).
Arguments Return {A} a.
Arguments Raise {A} e.

Definition bind {A B} (m : outcome A) (k : A -> outcome B) : outcome B :=
match m with
| Return a => k a
| Raise e => Raise e
end.

Notation "x <- m ;; k" := (bind m (fun x => k))
(at level 61, m at next level, right associativity).

(** ** What the Python runtime supplies

  The tables of the Unicode character database behind [unicodedata],
  [str] and [re], and the year conversion of the C library's [strftime].
  None of them is part of the repository; the program is modelled over
  any such platform, and [Reference.platform] below gives an excerpt to
  evaluate it on. *)

Class Platform := {
(** full compatibility decomposition of one code point,
    [unicodedata.normalize('NFKD', c)] *)
decomposition : cp -> str;
(** canonical combining class, [unicodedata.combining(c)] *)
combining : cp -> N;
(** [str.isspace]; also the class [\s] of [re] *)
isspace : cp -> bool;
(** value of a decimal digit (category Nd), [unicodedata.decimal(c)];
    the class [\d] of [re] and the digits [int] accepts *)
decimal : cp -> option N;
(** [str.isalnum]; with [_] the class [\w] of [re] *)
isalnum : cp -> bool;
(** simple lowercase mapping, what [re.IGNORECASE] compares *)
lower : cp -> cp;
(** [strftime('%Y')] of a year *)
strftime_Y : N -> str
}.

(** ** [str] methods *)

Section Str.
Context {P : Platform}.

Fixpoint lstrip (s : str) : str :=
  match s with
  | c :: s' => if isspace c then lstrip s' else s
  | [] => []
  end.

Definition rstrip (s : str) : str := rev (lstrip (rev s)).

(** [s.strip()] *)
Definition strip (s : str) : str := rstrip (lstrip s).

Fixpoint startswith (p s : str) : bool :=
  match p, s with
  | [], _ => true
  | a :: p', b :: s' => (a =? b) && startswith p' s'
  | _ :: _, [] => false
  end.

(** [replace_from skip old new text]: the scan of [str.replace] for a
    non-empty [old]; [skip] counts the code points of an occurrence
    already replaced. *)
Fixpoint replace_from (skip : nat) (old new text : str) : str :=
  match text with
  | [] => []
  | c :: rest =>
      match skip with
      | S k => replace_from k old new rest
      | O =>
          if startswith old text
          then new ++ replace_from (length old - 1) old new rest
          else c :: replace_from 0 old new rest
      end
  end.

(** [text.replace(old, new)]; an empty [old] matches before every code
    point and at the end. *)
Definition replace (old new text : str) : str :=
  match old with
  | [] => flat_map (fun c => new ++ [c]) text ++ new
  | _ :: _ => replace_from 0 old new text
  end.

(** Case mapping of ASCII letters; [title] is only applied to the ASCII
    keys of the pattern table. *)
Definition ascii_isupper (c : cp) : bool := (0x41 <=? c) && (c <=? 0x5A).
Definition ascii_islower (c : cp) : bool := (0x61 <=? c) && (c <=? 0x7A).
Definition ascii_upper (c : cp) : cp := if ascii_islower c then c - 32 else c.
Definition ascii_lower (c : cp) : cp := if ascii_isupper c then c + 32 else c.

Fixpoint title_from (previous_is_cased : bool) (s : str) : str :=
  match s with
  | [] => []
  | c :: s' =>
      (if previous_is_cased then ascii_lower c else ascii_upper c)
        :: title_from (ascii_isupper c || ascii_islower c) s'
  end.

(** [s.title()] on ASCII text *)
Definition title (s : str) : str := title_from false s.

(** [int(s)]: surrounding whitespace is ignored, every remaining code
    point must be a decimal digit *)
Fixpoint int_digits (acc : N) (s : str) : option N :=
  match s with
  | [] => Some acc
  | c :: s' =>
      match decimal c with
      | Some d => int_digits (10 * acc + d) s'
      | None => None
      end
  end.

Definition int (s : str) : outcome N :=
  match strip s with
  | [] => Raise ValueError
  | c :: s' =>
      match int_digits 0 (c :: s') with
      | Some n => Return n
      | None => Raise ValueError
      end
  end.

End Str.

(** ** [unicodedata.normalize('NFKD', _)] *)

Section Nfkd.
Context {P : Platform}.

(** Canonical ordering, as an insertion into the reversed output: a mark
    moves left past the marks of a greater combining class. *)
Fixpoint reorder_insert (c : cp) (racc : str) : str :=
  match racc with
  | [] => [c]
  | p :: r =>
      if (combining p =? 0) || (combining c =? 0)
         || (combining p <=? combining c)
      then c :: racc
      else p :: reorder_insert c r
  end.

Definition canonical_order (s : str) : str :=
  rev (fold_left (fun racc c => reorder_insert c racc) s []).

Definition nfkd (s : str) : str :=
  canonical_order (flat_map decomposition s).

End Nfkd.

(** ** The [re] module

    The pattern language is cut down to what the patterns of the program
    and of [strptime] use: literals, sets with ranges and the classes [\d]
    and [\s], the assertion [\b], sequencing, alternation, groups, and
    greedy repetition of a one-character item.  Matching is Python's:
    leftmost start, alternatives in order, repetitions longest first. *)

Module Re.

Inductive item :=
| Ch (c : cp)            (* a literal code point *)
| Rg (lo hi : cp)        (* a range [lo-hi] inside a set *)
| Digit                  (* \d *)
| Space.                 (* \s *)

(** A set [[...]]; a literal outside brackets is a one-element set. *)
Definition cset := list item.

Inductive regex :=
| Eps
| One (a : cset)
| Times (lo : nat) (hi : option nat) (a : cset)   (* a{lo,hi}, a*, a+ *)
| WordBoundary                                    (* \b *)
| Seq (r1 r2 : regex)
| Alt (r1 r2 : regex)
| Group (name : nat) (r : regex).

(** For a lowercased code point, the other lowercased code points of the
    same uppercase ([_EXTRA_CASES] of the [re] package). *)
Definition extra_cases_table : list (cp * list cp) :=
  [ (0x0069, [0x0131]); (0x0073, [0x017F]); (0x00B5, [0x03BC]);
    (0x0131, [0x0069]); (0x017F, [0x0073]); (0x0345, [0x03B9; 0x1FBE]);
    (0x0390, [0x1FD3]); (0x03B0, [0x1FE3]); (0x03B2, [0x03D0]);
    (0x03B5, [0x03F5]); (0x03B8, [0x03D1]); (0x03B9, [0x0345; 0x1FBE]);
    (0x03BA, [0x03F0]); (0x03BC, [0x00B5]); (0x03C0, [0x03D6]);
    (0x03C1, [0x03F1]); (0x03C2, [0x03C3]); (0x03C3, [0x03C2]);
    (0x03C6, [0x03D5]); (0x03D0, [0x03B2]); (0x03D1, [0x03B8]);
    (0x03D5, [0x03C6]); (0x03D6, [0x03C0]); (0x03F0, [0x03BA]);
    (0x03F1, [0x03C1]); (0x03F5, [0x03B5]); (0x0432, [0x1C80]);
    (0x0434, [0x1C81]); (0x043E, [0x1C82]); (0x0441, [0x1C83]);
    (0x0442, [0x1C84; 0x1C85]); (0x044A, [0x1C86]); (0x0463, [0x1C87]);
    (0x1C80, [0x0432]); (0x1C81, [0x0434]); (0x1C82, [0x043E]);
    (0x1C83, [0x0441]); (0x1C84, [0x0442; 0x1C85]);
    (0x1C85, [0x0442; 0x1C84]); (0x1C86, [0x044A]); (0x1C87, [0x0463]);
    (0x1C88, [0xA64B]); (0x1E61, [0x1E9B]); (0x1E9B, [0x1E61]);
    (0x1FBE, [0x0345; 0x03B9]); (0x1FD3, [0x0390]); (0x1FE3, [0x03B0]);
    (0xA64B, [0x1C88]); (0xFB05, [0xFB06]); (0xFB06, [0xFB05]) ].

Fixpoint assoc {A} (k : cp) (l : list (cp * A)) : option A :=
  match l with
  | [] => None
  | (k', v) :: l' => if k =? k' then Some v else assoc k l'
  end.

Definition extra_cases (lo : cp) : list cp :=
  match assoc lo extra_cases_table with
  | Some l => l
  | None => []
  end.

(** The code points [lo], ..., [hi]. *)
Definition code_range (lo hi : cp) : list cp :=
  map N.of_nat (seq (N.to_nat lo) (N.to_nat hi + 1 - N.to_nat lo)).

(** Captured groups, the latest binding first. *)
Definition captures := list (nat * str).

Fixpoint lookup (name : nat) (caps : captures) : option str :=
  match caps with
  | [] => None
  | (n, v) :: caps' => if Nat.eqb n name then Some v else lookup name caps'
  end.

(** The code points consumed between a subject [s] and its suffix [s']. *)
Definition consumed (s s' : str) : str :=
  firstn (length s - length s') s.

Section Engine.
Context {P : Platform}.

(** [ignorecase]: the flag [re.IGNORECASE]. *)
Variable ignorecase : bool.

(** With [re.IGNORECASE] a subject code point is lowercased and compared
    with the lowercased pattern code point and its extra cases. *)
Definition folded_eq (lc x : cp) : bool :=
  let lx := lower x in (lc =? lx) || existsb (N.eqb lc) (extra_cases lx).

Definition item_matches (it : item) (c : cp) : bool :=
  match it with
  | Ch x => if ignorecase then folded_eq (lower c) x else c =? x
  | Rg lo hi =>
      if ignorecase
      then let lc := lower c in existsb (folded_eq lc) (code_range lo hi)
      else (lo <=? c) && (c <=? hi)
  | Digit => match decimal c with Some _ => true | None => false end
  | Space => isspace c
  end.

Definition set_matches (a : cset) (c : cp) : bool :=
  existsb (fun it => item_matches it c) a.

(** [\w] *)
Definition is_word (c : cp) : bool := isalnum c || (c =? 0x5F).

Definition word_before (prev : option cp) : bool :=
  match prev with Some c => is_word c | None => false end.

Definition word_after (s : str) : bool :=
  match s with c :: _ => is_word c | [] => false end.

Definition may_repeat (hi : option nat) : bool :=
  match hi with Some O => false | _ => true end.

(** Greedy repetition of a set: every way to stop, the longest first.
    A position is the code point before it and the text after it. *)
Fixpoint repeat_greedy (a : cset) (lo : nat) (hi : option nat)
    (prev : option cp) (s : str) : list (option cp * str) :=
  let stop := match lo with O => [(prev, s)] | S _ => [] end in
  match s with
  | c :: s' =>
      if may_repeat hi && set_matches a c
      then repeat_greedy a (pred lo) (option_map pred hi) (Some c) s' ++ stop
      else stop
  | [] => stop
  end.

(** All the ways [r] matches at a position, in the order the backtracking
    matcher finds them; the first is the match [re] reports. *)
Fixpoint matches (r : regex) (caps : captures) (prev : option cp) (s : str)
    : list (captures * option cp * str) :=
  match r with
  | Eps => [(caps, prev, s)]
  | One a =>
      match s with
      | c :: s' => if set_matches a c then [(caps, Some c, s')] else []
      | [] => []
      end
  | Times lo hi a =>
      map (fun e => (caps, fst e, snd e)) (repeat_greedy a lo hi prev s)
  | WordBoundary =>
      if xorb (word_before prev) (word_after s) then [(caps, prev, s)] else []
  | Seq r1 r2 =>
      flat_map (fun e => matches r2 (fst (fst e)) (snd (fst e)) (snd e))
               (matches r1 caps prev s)
  | Alt r1 r2 => matches r1 caps prev s ++ matches r2 caps prev s
  | Group name r1 =>
      map (fun e => ((name, consumed s (snd e)) :: fst (fst e),
                     snd (fst e), snd e))
          (matches r1 caps prev s)
  end.

(** A match object: [m.start()], [m.group(0)], and the groups. *)
Record match_object := {
  m_start : nat;
  m_whole : str;
  m_groups : captures
}.

(** [m.group(name)]: [None] for a group that took no part in the match. *)
Definition group (m : match_object) (name : nat) : option str :=
  lookup name (m_groups m).

Definition match_at (r : regex) (pos : nat) (prev : option cp) (s : str)
    : option match_object :=
  match matches r [] prev s with
  | (caps, _, rest) :: _ =>
      Some {| m_start := pos; m_whole := consumed s rest; m_groups := caps |}
  | [] => None
  end.

Fixpoint search_from (r : regex) (pos : nat) (prev : option cp) (s : str)
    : option match_object :=
  match match_at r pos prev s with
  | Some m => Some m
  | None =>
      match s with
      | c :: s' => search_from r (S pos) (Some c) s'
      | [] => None
      end
  end.

(** [re.search(r, text)] *)
Definition search (r : regex) (text : str) : option match_object :=
  search_from r 0%nat None text.

(** [re.match(r, text)]: at the start only *)
Definition match_ (r : regex) (text : str) : option match_object :=
  match_at r 0%nat None text.

(** The scan of [re.sub]: [skip] counts the code points of a match already
    replaced.  An empty match puts [repl] before the code point it stands
    at (and at the end of the text). *)
Fixpoint sub_from (r : regex) (repl : str) (skip : nat) (prev : option cp)
    (s : str) : str :=
  match s with
  | [] =>
      match skip with
      | O => match matches r [] prev [] with _ :: _ => repl | [] => [] end
      | S _ => []
      end
  | c :: s' =>
      match skip with
      | S k => sub_from r repl k (Some c) s'
      | O =>
          match matches r [] prev s with
          | (_, _, rest) :: _ =>
              match (length s - length rest)%nat with
              | O => repl ++ c :: sub_from r repl 0 (Some c) s'
              | S k => repl ++ sub_from r repl k (Some c) s'
              end
          | [] => c :: sub_from r repl 0 (Some c) s'
          end
      end
  end.

(** [re.sub(r, repl, text)] for a replacement without group references *)
Definition sub (r : regex) (repl text : str) : str :=
  sub_from r repl 0 None text.

End Engine.

(** Pattern syntax. *)
Definition lit (s : string) : regex :=
  fold_right (fun c r => Seq (One [Ch c]) r) Eps (utf8 s).
Definition cat (l : list regex) : regex := fold_right Seq Eps l.
Definition alts (l : list regex) (last : regex) : regex :=
  fold_right Alt last l.
Definition star (a : cset) : regex := Times 0 None a.
Definition plus (a : cset) : regex := Times 1 None a.
Definition exactly (n : nat) (a : cset) : regex := Times n (Some n) a.

End Re.

(** ** [datetime.strptime] and [strftime] on the program's layouts *)

Module Datetime.
Import Re.

Record date := { year : N; month : N; day : N }.

(** The named groups of the regular expression [strptime] builds. *)
Definition g_d : nat := 1.
Definition g_m : nat := 2.
Definition g_Y : nat := 3.

Definition d0 : cp := 0x30.

(** The directives, as [_strptime.TimeRE] defines them:
    [%d] is [(?P<d>3[0-1]|[1-2]\d|0[1-9]|[1-9]| [1-9])],
    [%m] is [(?P<m>1[0-2]|0[1-9]|[1-9])], [%Y] is [(?P<Y>\d\d\d\d)]. *)
Definition directive (c : cp) : option regex :=
  if c =? chr "d" then
    Some (Group g_d (alts
      [ cat [One [Ch (d0 + 3)]; One [Rg d0 (d0 + 1)]];
        cat [One [Rg (d0 + 1) (d0 + 2)]; One [Digit]];
        cat [One [Ch d0]; One [Rg (d0 + 1) (d0 + 9)]];
        One [Rg (d0 + 1) (d0 + 9)] ]
      (cat [One [Ch 0x20]; One [Rg (d0 + 1) (d0 + 9)]])))
  else if c =? chr "m" then
    Some (Group g_m (alts
      [ cat [One [Ch (d0 + 1)]; One [Rg d0 (d0 + 2)]];
        cat [One [Ch d0]; One [Rg (d0 + 1) (d0 + 9)]] ]
      (One [Rg (d0 + 1) (d0 + 9)])))
  else if c =? chr "Y" then
    Some (Group g_Y (cat [One [Digit]; One [Digit]; One [Digit]; One [Digit]]))
  else None.

(** The regular expression of a format made of directives and of literal
    code points that need no escaping (here [/]). *)
Fixpoint format_regex (fmt : str) : option regex :=
  match fmt with
  | [] => Some Eps
  | c :: rest =>
      if c =? chr "%" then
        match rest with
        | d :: rest' =>
            match directive d, format_regex rest' with
            | Some r, Some r' => Some (Seq r r')
            | _, _ => None
            end
        | [] => None
        end
      else
        match format_regex rest with
        | Some r' => Some (Seq (One [Ch c]) r')
        | None => None
        end
  end.

Definition is_leap (y : N) : bool :=
  (y mod 4 =? 0) && (negb (y mod 100 =? 0) || (y mod 400 =? 0)).

Definition days_in_month (y m : N) : N :=
  if m =? 2 then (if is_leap y then 29 else 28)
  else if (m =? 4) || (m =? 6) || (m =? 9) || (m =? 11) then 30
  else 31.

(** The checks of the [datetime] constructor. *)
Definition valid_date (y m d : N) : bool :=
  (1 <=? y) && (y <=? 9999) && (1 <=? m) && (m <=? 12)
  && (1 <=? d) && (d <=? days_in_month y m).

Section Strptime.
Context {P : Platform}.

Definition field (found : match_object) (name : nat) (default : N)
    : outcome N :=
  match group found name with
  | Some s => int s
  | None => Return default
  end.

(** [datetime.strptime(data_string, format)]: [ValueError] when the text
    does not match the format, when text remains after the match, and when
    the fields are not a date. *)
Definition strptime (data_string format : str) : outcome date :=
  match format_regex format with
  | None => Raise ValueError
  | Some format_re =>
      match match_ true format_re data_string with
      | None => Raise ValueError
      | Some found =>
          if negb (length data_string =? length (m_whole found))%nat
          then Raise ValueError
          else
            y <- field found g_Y 1900 ;;
            m <- field found g_m 1 ;;
            d <- field found g_d 1 ;;
            if valid_date y m d
            then Return {| year := y; month := m; day := d |}
            else Raise ValueError
      end
  end.

Definition digit (n : N) : cp := d0 + n mod 10.

(** [%m], [%d]: two decimal digits *)
Definition two_digits (n : N) : str := [digit (n / 10); digit n].

(** [strftime('%Y-%m-%d')] *)
Definition strftime_iso (dt : date) : str :=
  strftime_Y (year dt) ++ utf8 "-" ++ two_digits (month dt)
    ++ utf8 "-" ++ two_digits (day dt).

End Strptime.

(** The year with century in four digits, [%Y] as the library reference
    gives it ("0001, 0002, ..., 9998, 9999"). *)
Definition four_digits (n : N) : str :=
  [digit (n / 1000); digit (n / 100); digit (n / 10); digit n].

End Datetime.

(** ** Dictionaries, in insertion order *)

Definition dict (V : Type) := list (str * V).

Fixpoint dict_get {V} (k : str) (d : dict V) : option V :=
  match d with
  | [] => None
  | (k', v) :: d' => if str_eqb k' k then Some v else dict_get k d'
  end.

(** [d[k] = v]: an existing key keeps its place, a new key goes last. *)
Fixpoint dict_set {V} (k : str) (v : V) (d : dict V) : dict V :=
  match d with
  | [] => [(k, v)]
  | (k', v') :: d' =>
      if str_eqb k' k then (k, v) :: d' else (k', v') :: dict_set k v d'
  end.

Definition dict_keys {V} (d : dict V) : list str := map fst d.

(** ** [class MoroccanIDExtractor] *)

Import Re.
Import Datetime.

(** A value of [self.patterns]: one pattern, or a dictionary from language
    to pattern. *)
Inductive pattern_entry :=
| Pattern (pattern : regex)
| ByLanguage (patterns : dict regex).

Definition A_Z : item := Rg (chr "A") (chr "Z").
Definition arabic_block : item := Rg 0x0600 0x06FF.

(** [\d{2}[./-]\d{2}[./-]\d{4}] *)
Definition date_token : regex :=
  cat [ exactly 2 [Digit]; One [Ch (chr "."); Ch (chr "/"); Ch (chr "-")];
        exactly 2 [Digit]; One [Ch (chr "."); Ch (chr "/"); Ch (chr "-")];
        exactly 4 [Digit] ].

(** [\b[A-Z]{1,2}\d{6}\b], the pattern of ['cin_number'] *)
Definition cin_number_pattern : regex :=
  cat [WordBoundary; Times 1 (Some 2%nat) [A_Z]; exactly 6 [Digit];
       WordBoundary].

(** [self.patterns], in the order of the dictionary literal *)
Definition patterns : dict pattern_entry :=
  [ (utf8 "cin_number", Pattern cin_number_pattern);
    (utf8 "name", ByLanguage
      [ (utf8 "fr",
           (* NOM\s*ET\s*PRENOM\s*[:]*\s*([A-Z\s\-]+) *)
           cat [ lit "NOM"; star [Space]; lit "ET"; star [Space];
                 lit "PRENOM"; star [Space]; star [Ch (chr ":")];
                 star [Space];
                 Group 1 (plus [A_Z; Space; Ch (chr "-")]) ]);
        (utf8 "ar",
           (* الاسم\s*الكامل\s*[:]*\s*([\u0600-\u06FF\s]+) *)
           cat [ lit "الاسم"; star [Space]; lit "الكامل"; star [Space];
                 star [Ch (chr ":")]; star [Space];
                 Group 1 (plus [arabic_block; Space]) ]) ]);
    (utf8 "birth_date", ByLanguage
      [ (utf8 "fr",
           (* N[eé]\s*le\s*(\d{2}[./-]\d{2}[./-]\d{4}) *)
           cat [ lit "N"; One [Ch (chr "e"); Ch (chr "é")]; star [Space];
                 lit "le"; star [Space]; Group 1 date_token ]);
        (utf8 "ar",
           (* تاريخ\s*الازدياد\s*[:]*\s*(\d{2}[./-]\d{2}[./-]\d{4}) *)
           cat [ lit "تاريخ"; star [Space]; lit "الازدياد"; star [Space];
                 star [Ch (chr ":")]; star [Space]; Group 1 date_token ]) ]);
    (utf8 "birth_place", ByLanguage
      [ (utf8 "fr",
           (* \b(?:\u00e0|a)\s*([A-Z\s\-]+) *)
           cat [ WordBoundary; Alt (One [Ch 0x00E0]) (lit "a"); star [Space];
                 Group 1 (plus [A_Z; Space; Ch (chr "-")]) ]);
        (utf8 "ar",
           (* مكان\s*الازدياد\s*[:]*\s*([\u0600-\u06FF\s]+) *)
           cat [ lit "مكان"; star [Space]; lit "الازدياد"; star [Space];
                 star [Ch (chr ":")]; star [Space];
                 Group 1 (plus [arabic_block; Space]) ]) ]);
    (utf8 "expiry_date", ByLanguage
      [ (utf8 "fr",
           (* Valable\s*jusqu\'au\s*(\d{2}[./-]\d{2}[./-]\d{4}) *)
           cat [ lit "Valable"; star [Space]; lit "jusqu'au"; star [Space];
                 Group 1 date_token ]);
        (utf8 "ar",
           (* صالحة\s*إلى\s*غاية\s*(\d{2}[./-]\d{2}[./-]\d{4}) *)
           cat [ lit "صالحة"; star [Space]; lit "إلى"; star [Space];
                 lit "غاية"; star [Space]; Group 1 date_token ]) ]) ].

(** [arabic_chars], in the order of the dictionary literal *)
Definition arabic_chars : dict str :=
  [ (utf8 "أ", utf8 "ا"); (utf8 "إ", utf8 "ا"); (utf8 "آ", utf8 "ا");
    (utf8 "ة", utf8 "ه"); (utf8 "ى", utf8 "ي"); (utf8 "٠", utf8 "0");
    (utf8 "١", utf8 "1"); (utf8 "٢", utf8 "2"); (utf8 "٣", utf8 "3");
    (utf8 "٤", utf8 "4"); (utf8 "٥", utf8 "5"); (utf8 "٦", utf8 "6");
    (utf8 "٧", utf8 "7"); (utf8 "٨", utf8 "8"); (utf8 "٩", utf8 "9") ].

(** [patterns_to_remove] *)
Definition patterns_to_remove : list regex :=
  [ (* (ROYAUME DU MAROC|CARTE NATIONALE D\'IDENTITE) *)
    Group 1 (Alt (lit "ROYAUME DU MAROC") (lit "CARTE NATIONALE D'IDENTITE"));
    (* (المملكة المغربية|البطاقة الوطنية للتعريف) *)
    Group 1 (Alt (lit "المملكة المغربية") (lit "البطاقة الوطنية للتعريف"));
    (* الحة\s*إلى\s*غَاية\s*\d{2}\.\d{4} *)
    cat [ lit "الحة"; star [Space]; lit "إلى"; star [Space];
          lit "غَاية"; star [Space]; exactly 2 [Digit]; lit ".";
          exactly 4 [Digit] ] ].

(** The declared keys of the result. *)
Definition declared_keys : list str :=
  [ utf8 "CIN Number"; utf8 "Full Name"; utf8 "Date of Birth";
    utf8 "Place of Birth"; utf8 "Expiry Date" ].

Section Extractor.
Context {P : Platform}.

Definition normalize_text (text : str) : str :=
  (* Remove accents *)
  let text := nfkd text in
  let text := filter (fun c => combining c =? 0) text in
  (* Remove multiple spaces and trim *)
  let text := strip (sub false (plus [Space]) (utf8 " ") text) in
  (* Standardize Arabic characters *)
  fold_left (fun text kv => replace (fst kv) (snd kv) text) arabic_chars text.

Definition formats : list str :=
  [utf8 "%d/%m/%Y"; utf8 "%Y/%m/%d"; utf8 "%m/%d/%Y"].

(** The loop over the formats: the first one [strptime] accepts. *)
Fixpoint try_formats (date_str : str) (fmts : list str)
    : outcome (option str) :=
  match fmts with
  | [] => Return None
  | fmt :: rest =>
      match strptime date_str fmt with
      | Return dt => Return (Some (strftime_iso dt))
      | Raise ValueError => try_formats date_str rest
      | Raise e => Raise e
      end
  end.

Definition parse_date (date_str : str) : outcome (option str) :=
  match date_str with
  | [] => Return None
  | _ :: _ =>
      (* Standardize separators *)
      let date_str :=
        replace (utf8 "-") (utf8 "/") (replace (utf8 ".") (utf8 "/") date_str) in
      match try_formats date_str formats with
      | Return r => Return r
      | Raise _ => Return None
      end
  end.

Definition clean_irrelevant_lines (text : str) : str :=
  strip (fold_left (fun text pattern => sub true pattern [] text)
                   patterns_to_remove text).

(** The inner loop of [extract]: the first language whose pattern is
    found in the text. *)
Fixpoint first_language (text : str) (langs : dict regex)
    : option match_object :=
  match langs with
  | [] => None
  | (_, pattern) :: rest =>
      match search true pattern text with
      | Some m => Some m
      | None => first_language text rest
      end
  end.

(** [key.replace('_', ' ').title()] *)
Definition result_key (key : str) : str :=
  title (replace (utf8 "_") (utf8 " ") key).

(** [value.strip()] of a group: a group that took no part in the match is
    [None], which has no [strip]. *)
Definition strip_group (value : option str) : outcome str :=
  match value with
  | Some s => Return (strip s)
  | None => Raise AttributeError
  end.

(** [self.parse_date(value)] of a group; [None] is falsy like the empty
    string. *)
Definition parse_date_group (value : option str) : outcome (option str) :=
  match value with
  | Some s => parse_date s
  | None => Return None
  end.

(** One turn of the loop over [self.patterns.items()]. *)
Definition extract_field (text : str) (extracted : dict (option str))
    (entry : str * pattern_entry) : outcome (dict (option str)) :=
  let key := fst entry in
  match snd entry with
  | ByLanguage langs =>
      match first_language text langs with
      | Some m =>
          if str_eqb key (utf8 "birth_date") || str_eqb key (utf8 "expiry_date")
          then
            v <- parse_date_group (group m 1) ;;
            Return (dict_set (result_key key) v extracted)
          else
            v <- strip_group (group m 1) ;;
            Return (dict_set (result_key key) (Some v) extracted)
      | None => Return extracted
      end
  | Pattern pattern =>
      match search true pattern text with
      | Some m => Return (dict_set (result_key key) (Some (strip (m_whole m)))
                                   extracted)
      | None => Return extracted
      end
  end.

Fixpoint extract_fields (text : str) (extracted : dict (option str))
    (entries : dict pattern_entry) : outcome (dict (option str)) :=
  match entries with
  | [] => Return extracted
  | entry :: rest =>
      extracted' <- extract_field text extracted entry ;;
      extract_fields text extracted' rest
  end.

Definition extract (text : str) : outcome (dict (option str)) :=
  (* Normalize and clean text *)
  let text := normalize_text text in
  let text := clean_irrelevant_lines text in
  (* Initialize results dictionary with only relevant fields *)
  let extracted :=
    [ (utf8 "CIN Number", None);
      (utf8 "Full Name", None);
      (utf8 "Date of Birth", None);
      (utf8 "Place of Birth", None);
      (utf8 "Expiry Date", None) ] in
  (* Extract fields using regex *)
  extract_fields text extracted patterns.

End Extractor.

(** ** A reference platform

    An excerpt of the Unicode character database (version 14.0, as
    [unicodedata] of CPython 3.11 reports it) and the documented [%Y].
    Decompositions, combining classes, [isalnum] and the lowercase mapping
    are given for Basic Latin, Latin-1 Supplement, Combining Diacritical
    Marks, Arabic, the white space code points and the code points
    U+0130, U+0131, U+017F, U+212A, U+212B; every other code point is
    reported as undecomposable, of class 0, not alphanumeric and caseless.
    The white space and decimal digit tables are complete. *)

Module Reference.

Definition decomposition_table : list (cp * str) :=
  [ (0x00A0, [0x0020]); (0x00A8, [0x0020; 0x0308]); (0x00AA, [0x0061]);
    (0x00AF, [0x0020; 0x0304]); (0x00B2, [0x0032]); (0x00B3, [0x0033]);
    (0x00B4, [0x0020; 0x0301]); (0x00B5, [0x03BC]); (0x00B8, [0x0020; 0x0327]);
    (0x00B9, [0x0031]); (0x00BA, [0x006F]); (0x00BC, [0x0031; 0x2044; 0x0034]);
    (0x00BD, [0x0031; 0x2044; 0x0032]); (0x00BE, [0x0033; 0x2044; 0x0034]); (0x00C0, [0x0041; 0x0300]);
    (0x00C1, [0x0041; 0x0301]); (0x00C2, [0x0041; 0x0302]); (0x00C3, [0x0041; 0x0303]);
    (0x00C4, [0x0041; 0x0308]); (0x00C5, [0x0041; 0x030A]); (0x00C7, [0x0043; 0x0327]);
    (0x00C8, [0x0045; 0x0300]); (0x00C9, [0x0045; 0x0301]); (0x00CA, [0x0045; 0x0302]);
    (0x00CB, [0x0045; 0x0308]); (0x00CC, [0x0049; 0x0300]); (0x00CD, [0x0049; 0x0301]);
    (0x00CE, [0x0049; 0x0302]); (0x00CF, [0x0049; 0x0308]); (0x00D1, [0x004E; 0x0303]);
    (0x00D2, [0x004F; 0x0300]); (0x00D3, [0x004F; 0x0301]); (0x00D4, [0x004F; 0x0302]);
    (0x00D5, [0x004F; 0x0303]); (0x00D6, [0x004F; 0x0308]); (0x00D9, [0x0055; 0x0300]);
    (0x00DA, [0x0055; 0x0301]); (0x00DB, [0x0055; 0x0302]); (0x00DC, [0x0055; 0x0308]);
    (0x00DD, [0x0059; 0x0301]); (0x00E0, [0x0061; 0x0300]); (0x00E1, [0x0061; 0x0301]);
    (0x00E2, [0x0061; 0x0302]); (0x00E3, [0x0061; 0x0303]); (0x00E4, [0x0061; 0x0308]);
    (0x00E5, [0x0061; 0x030A]); (0x00E7, [0x0063; 0x0327]); (0x00E8, [0x0065; 0x0300]);
    (0x00E9, [0x0065; 0x0301]); (0x00EA, [0x0065; 0x0302]); (0x00EB, [0x0065; 0x0308]);
    (0x00EC, [0x0069; 0x0300]); (0x00ED, [0x0069; 0x0301]); (0x00EE, [0x0069; 0x0302]);
    (0x00EF, [0x0069; 0x0308]); (0x00F1, [0x006E; 0x0303]); (0x00F2, [0x006F; 0x0300]);
    (0x00F3, [0x006F; 0x0301]); (0x00F4, [0x006F; 0x0302]); (0x00F5, [0x006F; 0x0303]);
    (0x00F6, [0x006F; 0x0308]); (0x00F9, [0x0075; 0x0300]); (0x00FA, [0x0075; 0x0301]);
    (0x00FB, [0x0075; 0x0302]); (0x00FC, [0x0075; 0x0308]); (0x00FD, [0x0079; 0x0301]);
    (0x00FF, [0x0079; 0x0308]); (0x0130, [0x0049; 0x0307]); (0x017F, [0x0073]);
    (0x0340, [0x0300]); (0x0341, [0x0301]); (0x0343, [0x0313]);
    (0x0344, [0x0308; 0x0301]); (0x0622, [0x0627; 0x0653]); (0x0623, [0x0627; 0x0654]);
    (0x0624, [0x0648; 0x0654]); (0x0625, [0x0627; 0x0655]); (0x0626, [0x064A; 0x0654]);
    (0x0675, [0x0627; 0x0674]); (0x0676, [0x0648; 0x0674]); (0x0677, [0x06C7; 0x0674]);
    (0x0678, [0x064A; 0x0674]); (0x06C0, [0x06D5; 0x0654]); (0x06C2, [0x06C1; 0x0654]);
    (0x06D3, [0x06D2; 0x0654]); (0x2000, [0x0020]); (0x2001, [0x0020]);
    (0x2002, [0x0020]); (0x2003, [0x0020]); (0x2004, [0x0020]);
    (0x2005, [0x0020]); (0x2006, [0x0020]); (0x2007, [0x0020]);
    (0x2008, [0x0020]); (0x2009, [0x0020]); (0x200A, [0x0020]);
    (0x202F, [0x0020]); (0x205F, [0x0020]); (0x212A, [0x004B]);
    (0x212B, [0x0041; 0x030A]); (0x3000, [0x0020]) ].

(** Runs of code points of one combining class: first, last, class. *)
Definition combining_table : list (cp * cp * N) :=
  [ (0x0300, 0x0314, 230); (0x0315, 0x0315, 232); (0x0316, 0x0319, 220); (0x031A, 0x031A, 232);
    (0x031B, 0x031B, 216); (0x031C, 0x0320, 220); (0x0321, 0x0322, 202); (0x0323, 0x0326, 220);
    (0x0327, 0x0328, 202); (0x0329, 0x0333, 220); (0x0334, 0x0338, 1); (0x0339, 0x033C, 220);
    (0x033D, 0x0344, 230); (0x0345, 0x0345, 240); (0x0346, 0x0346, 230); (0x0347, 0x0349, 220);
    (0x034A, 0x034C, 230); (0x034D, 0x034E, 220); (0x0350, 0x0352, 230); (0x0353, 0x0356, 220);
    (0x0357, 0x0357, 230); (0x0358, 0x0358, 232); (0x0359, 0x035A, 220); (0x035B, 0x035B, 230);
    (0x035C, 0x035C, 233); (0x035D, 0x035E, 234); (0x035F, 0x035F, 233); (0x0360, 0x0361, 234);
    (0x0362, 0x0362, 233); (0x0363, 0x036F, 230); (0x0610, 0x0617, 230); (0x0618, 0x0618, 30);
    (0x0619, 0x0619, 31); (0x061A, 0x061A, 32); (0x064B, 0x064B, 27); (0x064C, 0x064C, 28);
    (0x064D, 0x064D, 29); (0x064E, 0x064E, 30); (0x064F, 0x064F, 31); (0x0650, 0x0650, 32);
    (0x0651, 0x0651, 33); (0x0652, 0x0652, 34); (0x0653, 0x0654, 230); (0x0655, 0x0656, 220);
    (0x0657, 0x065B, 230); (0x065C, 0x065C, 220); (0x065D, 0x065E, 230); (0x065F, 0x065F, 220);
    (0x0670, 0x0670, 35); (0x06D6, 0x06DC, 230); (0x06DF, 0x06E2, 230); (0x06E3, 0x06E3, 220);
    (0x06E4, 0x06E4, 230); (0x06E7, 0x06E8, 230); (0x06EA, 0x06EA, 220); (0x06EB, 0x06EC, 230);
    (0x06ED, 0x06ED, 220) ].

Definition alnum_table : list (cp * cp) :=
  [ (0x0030, 0x0039); (0x0041, 0x005A); (0x0061, 0x007A); (0x00AA, 0x00AA);
    (0x00B2, 0x00B3); (0x00B5, 0x00B5); (0x00B9, 0x00BA); (0x00BC, 0x00BE);
    (0x00C0, 0x00D6); (0x00D8, 0x00F6); (0x00F8, 0x00FF); (0x0130, 0x0131);
    (0x017F, 0x017F); (0x0620, 0x064A); (0x0660, 0x0669); (0x066E, 0x066F);
    (0x0671, 0x06D3); (0x06D5, 0x06D5); (0x06E5, 0x06E6); (0x06EE, 0x06FC);
    (0x06FF, 0x06FF); (0x212A, 0x212B) ].

Definition space_table : list cp :=
  [ 0x0009; 0x000A; 0x000B; 0x000C; 0x000D; 0x001C; 0x001D; 0x001E;
    0x001F; 0x0020; 0x0085; 0x00A0; 0x1680; 0x2000; 0x2001; 0x2002;
    0x2003; 0x2004; 0x2005; 0x2006; 0x2007; 0x2008; 0x2009; 0x200A;
    0x2028; 0x2029; 0x202F; 0x205F; 0x3000 ].

(** The digit zero of every decimal digit run (category Nd). *)
Definition zero_table : list cp :=
  [ 0x30; 0x660; 0x6F0; 0x7C0; 0x966; 0x9E6; 0xA66; 0xAE6;
    0xB66; 0xBE6; 0xC66; 0xCE6; 0xD66; 0xDE6; 0xE50; 0xED0;
    0xF20; 0x1040; 0x1090; 0x17E0; 0x1810; 0x1946; 0x19D0; 0x1A80;
    0x1A90; 0x1B50; 0x1BB0; 0x1C40; 0x1C50; 0xA620; 0xA8D0; 0xA900;
    0xA9D0; 0xA9F0; 0xAA50; 0xABF0; 0xFF10; 0x104A0; 0x10D30; 0x11066;
    0x110F0; 0x11136; 0x111D0; 0x112F0; 0x11450; 0x114D0; 0x11650; 0x116C0;
    0x11730; 0x118E0; 0x11950; 0x11C50; 0x11D50; 0x11DA0; 0x16A60; 0x16AC0;
    0x16B50; 0x1D7CE; 0x1D7D8; 0x1D7E2; 0x1D7EC; 0x1D7F6; 0x1E140; 0x1E2F0;
    0x1E950; 0x1FBF0 ].

Definition ref_decomposition (c : cp) : str :=
  match Re.assoc c decomposition_table with
  | Some l => l
  | None => [c]
  end.

Fixpoint class_in (c : cp) (t : list (cp * cp * N)) : N :=
  match t with
  | [] => 0
  | (lo, hi, k) :: t' => if (lo <=? c) && (c <=? hi) then k else class_in c t'
  end.

Definition ref_combining (c : cp) : N := class_in c combining_table.

Definition ref_isspace (c : cp) : bool := existsb (N.eqb c) space_table.

Fixpoint digit_in (c : cp) (zeros : list cp) : option N :=
  match zeros with
  | [] => None
  | z :: zeros' =>
      if (z <=? c) && (c <=? z + 9) then Some (c - z) else digit_in c zeros'
  end.

Definition ref_decimal (c : cp) : option N := digit_in c zero_table.

(** Decimal digits are alphanumeric, in or out of the excerpt. *)
Definition ref_isalnum (c : cp) : bool :=
  existsb (fun r => (fst r <=? c) && (c <=? snd r)) alnum_table
  || match ref_decimal c with Some _ => true | None => false end.

Definition ref_lower (c : cp) : cp :=
  if (0x41 <=? c) && (c <=? 0x5A) then c + 32
  else if (0xC0 <=? c) && (c <=? 0xDE) && negb (c =? 0xD7) then c + 32
  else if c =? 0x0130 then 0x69
  else if c =? 0x212A then 0x6B
  else if c =? 0x212B then 0xE5
  else c.

#[export] Instance platform : Platform := {|
  decomposition := ref_decomposition;
  combining := ref_combining;
  isspace := ref_isspace;
  decimal := ref_decimal;
  isalnum := ref_isalnum;
  lower := ref_lower;
  strftime_Y := Datetime.four_digits
|}.

End Reference.

(** ** Notions used in the statements *)

Module ReFacts.
Import Re.

(** [binds name r]: every match of [r] sets the group [name]. *)
Fixpoint binds (name : nat) (r : regex) : bool :=
  match r with
  | Group n r1 => Nat.eqb n name || binds name r1
  | Seq r1 r2 => binds name r1 || binds name r2
  | Alt r1 r2 => binds name r1 && binds name r2
  | _ => false
  end.

(** [requires x r]: every match of [r] goes through the literal [x]. *)
Fixpoint requires (x : cp) (r : regex) : bool :=
  match r with
  | One [Ch y] => y =? x
  | Group _ r1 => requires x r1
  | Seq r1 r2 => requires x r1 || requires x r2
  | Alt r1 r2 => requires x r1 && requires x r2
  | _ => false
  end.

End ReFacts.

(** [field_found text entry]: some pattern of the entry is found. *)
Definition field_found {P : Platform} (text : str) (entry : pattern_entry)
    : bool :=
  match entry with
  | Pattern pattern =>
      match search true pattern text with Some _ => true | None => false end
  | ByLanguage langs =>
      match first_language text langs with Some _ => true | None => false end
  end.

(** The keys [extract] writes to that are not declared. *)
Definition extra_keys : list str :=
  [ utf8 "Cin Number"; utf8 "Name"; utf8 "Birth Date"; utf8 "Birth Place" ].

(** The keys [extract] writes to: [result_key] of the pattern keys. *)
Definition written_keys : list str := extra_keys ++ [utf8 "Expiry Date"].

(** What one turn of the loop does to the result. *)
Definition turn_spec {P : Platform} (text : str) (entry : str * pattern_entry)
    (d d' : dict (option str)) : Prop :=
  if field_found text (snd entry)
  then exists v, d' = dict_set (result_key (fst entry)) v d
  else d' = d.

(** The text the patterns of [extract] are searched in. *)
Definition cleaned {P : Platform} (text : str) : str :=
  clean_irrelevant_lines (normalize_text text).

Section NormalForm.
Context {P : Platform}.

(** The code points [normalize_text] keeps after decomposing. *)
Definition starter (c : cp) : bool := combining c =? 0.

(** Every run of white space becomes one U+0020; [in_run] is set inside a
    run. *)
Fixpoint squeeze (in_run : bool) (s : str) : str :=
  match s with
  | [] => []
  | c :: s' =>
      if isspace c
      then (if in_run then squeeze true s' else 0x20 :: squeeze true s')
      else c :: squeeze false s'
  end.

(** What the replacements of [arabic_chars], applied in turn, make of one
    code point. *)
Definition standardize (c : cp) : cp :=
  fold_left (fun c kv => if c =? hd 0 (fst kv) then hd 0 (snd kv) else c)
            arabic_chars c.

(** The text before the replacements: decomposed, without marks, its
    white space squeezed and trimmed. *)
Definition squeezed (s : str) : str :=
  strip (squeeze false (filter starter (flat_map decomposition s))).

(** No two white space code points in a row. *)
Definition spaced_once (s : str) : Prop :=
  forall a x y b,
    s = a ++ x :: y :: b -> isspace x = true -> isspace y = true -> False.

Fixpoint no_space_pair (s : str) : Prop :=
  match s with
  | x :: (y :: _) as s' =>
      (isspace x = true -> isspace y = true -> False) /\ no_space_pair s'
  | _ => True
  end.

(** No white space at either end. *)
Definition trimmed (s : str) : Prop :=
  (forall c t, s = c :: t -> isspace c = false)
  /\ (forall t c, s = t ++ [c] -> isspace c = false).

(** A letter or digit that decomposition, mark removal and white space
    handling leave alone. *)
Definition plain (c : cp) : Prop :=
  decomposition c = [c] /\ combining c = 0 /\ isspace c = false.

End NormalForm.

(** The facts about the Unicode character database that the properties
    of [normalize_text] rest on. *)
Record unicode_facts (P : Platform) : Prop := {
  (** a decomposition is full: its code points decompose no further *)
  decomposition_full :
    forall c d, In d (decomposition c) -> decomposition d = [d];
  (** U+0020 is its own decomposition and no mark *)
  space_stable : decomposition 0x20 = [0x20] /\ combining 0x20 = 0;
  (** the letters and digits that [arabic_chars] puts in, and teh marbuta,
      alef maksura and the Arabic-indic digits that it takes out *)
  letters_plain :
    Forall plain (utf8 "اهي0123456789" ++ utf8 "ةى٠١٢٣٤٥٦٧٨٩");
  (** the alefs with madda or hamza are an alef and a mark *)
  alef_madda : decomposition (chr "آ") = [chr "ا"; 0x0653];
  alef_hamza_above : decomposition (chr "أ") = [chr "ا"; 0x0654];
  alef_hamza_below : decomposition (chr "إ") = [chr "ا"; 0x0655];
  marks_combine :
    Forall (fun c => combining c <> 0) [0x0653; 0x0654; 0x0655]
}.

(** Teh marbuta has no case: it is its own lowercase, and nothing else
    lowercases to it. *)
Definition teh_marbuta_caseless (P : Platform) : Prop :=
  forall c, lower c = chr "ة" <-> c = chr "ة".

(** A token made of one or two letters followed by exactly six digits,
    for a given reading of "letter" and "digit". *)
Definition id_token (letter digit : cp -> bool) (t : str) : bool :=
  let n := (length t - 6)%nat in
  (1 <=? n)%nat && (n <=? 2)%nat
  && forallb letter (firstn n t) && forallb digit (skipn n t).

(** The shape of the ID-number rule, for any sets of letters and digits. *)
Definition id_rule_shape (a d : cset) : regex :=
  cat [WordBoundary; Times 1 (Some 2%nat) a; exactly 6 d; WordBoundary].

(** The reading of the specification: uppercase Latin letters. *)
Definition spec_id_token {P : Platform} (t : str) : bool :=
  id_token ascii_isupper (set_matches true [Digit]) t.

(** The ID-number rule, searched as [extract] searches it, finds the
    token as a whole in a text made of the token. *)
Definition id_rule_finds {P : Platform} (token : str) : bool :=
  match search true cin_number_pattern token with
  | Some m => str_eqb (m_whole m) token
  | None => false
  end.

(** [%Y] gives the year as the library reference documents it, in four
    digits.  (C libraries differ on the years below 1000.) *)
Definition year_as_documented (P : Platform) : Prop :=
  forall y, 1 <= y <= 9999 -> strftime_Y y = four_digits y.

(** A string [YYYY-MM-DD] naming a date of the calendar. *)
Definition iso_date_string (v : str) : Prop :=
  exists y m d,
    valid_date y m d = true
    /\ v = four_digits y ++ utf8 "-" ++ two_digits m ++ utf8 "-" ++ two_digits d.

(** [.] and [-] read as [/]. *)
Definition as_slash (c : cp) : cp :=
  if (c =? chr ".") || (c =? chr "-") then chr "/" else c.

(** The result of the first layout that [strptime] accepts. *)
Definition first_layout {P : Platform} (s : str) : option str :=
  match strptime s (utf8 "%d/%m/%Y") with
  | Return dt => Some (strftime_iso dt)
  | Raise _ =>
      match strptime s (utf8 "%Y/%m/%d") with
      | Return dt => Some (strftime_iso dt)
      | Raise _ =>
          match strptime s (utf8 "%m/%d/%Y") with
          | Return dt => Some (strftime_iso dt)
          | Raise _ => None
          end
      end
  end.

(** ** [app.py]: [EnhancedStreamlitOCR.parse_extracted_data] *)

Module App.

(** [parsed_data['names']] *)
Record names := {
  arabic : option str;
  latin : option str
}.

(** [parsed_data]: a dictionary with these keys only. *)
Record parsed := {
  names_of : names;
  cin_number : option str;
  date_of_birth : option str;
  place_of_birth : option str;
  expiry_date : option str
}.

Definition a_z : item := Rg (chr "a") (chr "z").

(** [patterns], in the order of the dictionary literal *)
Definition patterns : dict regex :=
  [ (utf8 "cin_number",
       (* \b[A-Z]{1,2}\d{6}\b *)
       cat [WordBoundary; Times 1 (Some 2%nat) [A_Z]; exactly 6 [Digit];
            WordBoundary]);
    (utf8 "date_of_birth",
       (* \d{2}/\d{2}/\d{4} *)
       cat [exactly 2 [Digit]; lit "/"; exactly 2 [Digit]; lit "/";
            exactly 4 [Digit]]);
    (utf8 "latin_name",
       (* [A-Z][a-z]+ [A-Z][a-z]+ *)
       cat [One [A_Z]; plus [a_z]; lit " "; One [A_Z]; plus [a_z]]);
    (utf8 "arabic_name",
       (* [\u0600-\u06FF\s]+ *)
       plus [arabic_block; Space]) ].

(** The chain [if key == ... elif ...] of assignments. *)
Definition assign (key : str) (value : str) (d : parsed) : parsed :=
  if str_eqb key (utf8 "latin_name") then
    {| names_of := {| arabic := arabic (names_of d); latin := Some value |};
       cin_number := cin_number d; date_of_birth := date_of_birth d;
       place_of_birth := place_of_birth d; expiry_date := expiry_date d |}
  else if str_eqb key (utf8 "arabic_name") then
    {| names_of := {| arabic := Some value; latin := latin (names_of d) |};
       cin_number := cin_number d; date_of_birth := date_of_birth d;
       place_of_birth := place_of_birth d; expiry_date := expiry_date d |}
  else if str_eqb key (utf8 "cin_number") then
    {| names_of := names_of d;
       cin_number := Some value; date_of_birth := date_of_birth d;
       place_of_birth := place_of_birth d; expiry_date := expiry_date d |}
  else if str_eqb key (utf8 "date_of_birth") then
    {| names_of := names_of d;
       cin_number := cin_number d; date_of_birth := Some value;
       place_of_birth := place_of_birth d; expiry_date := expiry_date d |}
  else d.

Section Parse.
Context {P : Platform}.

Definition parse_extracted_data (text : str) : parsed :=
  let parsed_data :=
    {| names_of := {| arabic := None; latin := None |};
       cin_number := None; date_of_birth := None;
       place_of_birth := None; expiry_date := None |} in
  (* Extract information using regex *)
  fold_left
    (fun parsed_data kp =>
       match search false (snd kp) text with
       | Some m => assign (fst kp) (m_whole m) parsed_data
       | None => parsed_data
       end)
    patterns parsed_data.

End Parse.

End App.

(** ** More notions *)

(** [v] is a piece of [text]. *)
Definition piece_of (v text : str) : Prop := exists a b, text = a ++ v ++ b.

(** [a] is [b] with code points left out. *)
Inductive thinned : str -> str -> Prop :=
| thinned_nil : thinned [] []
| thinned_keep c a b : thinned a b -> thinned (c :: a) (c :: b)
| thinned_drop c a b : thinned a b -> thinned a (c :: b).

(** The test [key == 'birth_date' or key == 'expiry_date'] of [extract]. *)
Definition is_date_key (key : str) : bool :=
  str_eqb key (utf8 "birth_date") || str_eqb key (utf8 "expiry_date").

(** Where a value stored by [extract] for an entry comes from: a match
    of a pattern of the entry in the cleaned text. *)
Definition stored_from {P : Platform} (text : str)
    (entry : str * pattern_entry) (w : str) : Prop :=
  match snd entry with
  | Pattern pattern =>
      exists m, search true pattern text = Some m /\ w = strip (m_whole m)
  | ByLanguage langs =>
      exists m s,
        first_language text langs = Some m /\ group m 1 = Some s
        /\ (if is_date_key (fst entry)
            then parse_date s = Return (Some w)
            else w = strip s)
  end.

(** The result [extract] starts from. *)
Definition all_absent : dict (option str) :=
  [ (utf8 "CIN Number", None); (utf8 "Full Name", None);
    (utf8 "Date of Birth", None); (utf8 "Place of Birth", None);
    (utf8 "Expiry Date", None) ].

(** The pattern of a language in an entry of [patterns]. *)
Definition pattern_of (key lang : string) : regex :=
  match dict_get (utf8 key) patterns with
  | Some (ByLanguage langs) =>
      match dict_get (utf8 lang) langs with Some r => r | None => Eps end
  | Some (Pattern r) => r
  | None => Eps
  end.

Fixpoint take_while (f : cp -> bool) (s : str) : str :=
  match s with
  | c :: s' => if f c then c :: take_while f s' else []
  | [] => []
  end.

Fixpoint drop_while (f : cp -> bool) (s : str) : str :=
  match s with
  | c :: s' => if f c then drop_while f s' else s
  | [] => []
  end.

(** The first run of code points that satisfy [f], as long as it goes. *)
Fixpoint first_run (f : cp -> bool) (s : str) : option str :=
  match s with
  | [] => None
  | c :: s' => if f c then Some (c :: take_while f s') else first_run f s'
  end.

(** The regular expression of a directive of [strptime]. *)
Definition directive_re (c : string) : regex :=
  match directive (chr c) with Some r => r | None => Eps end.

Definition slash : cp := chr "/".

(** [.], [/] or [-] *)
Definition is_separator (c : cp) : Prop :=
  c = chr "." \/ c = chr "/" \/ c = chr "-".

(** The date as [YYYY-MM-DD]. *)
Definition iso_date (y m d : N) : str :=
  four_digits y ++ utf8 "-" ++ two_digits m ++ utf8 "-" ++ two_digits d.

(** Three numeric fields of two, two and four digits, or four, two and
    two, with separators. *)
Definition token_2_2_4 (a b y : N) (sep1 sep2 : cp) : str :=
  two_digits a ++ sep1 :: two_digits b ++ sep2 :: four_digits y.

Definition token_4_2_2 (y a b : N) (sep1 sep2 : cp) : str :=
  four_digits y ++ sep1 :: two_digits a ++ sep2 :: two_digits b.

(** The pattern of a key in [App.patterns]. *)
Definition app_pattern (key : string) : regex :=
  match dict_get (utf8 key) App.patterns with Some r => r | None => Eps end.

(** No white space code point is a letter of [A-Z], case ignored, or a
    decimal digit. *)
Definition spaces_apart (P : Platform) : Prop :=
  forall c, isspace c = true -> set_matches true [A_Z; Digit] c = false.

(** The numbers that the directives [%d] and [%m] of [strptime] read in
    two digits. *)
Definition day_in_range (a : N) : bool := (1 <=? a) && (a <=? 31).
Definition month_in_range (b : N) : bool := (1 <=? b) && (b <=? 12).

(** The ways a directive for a number of one or two digits matches at the
    two digits of [a]: both digits when the number is in range, and the
    first digit alone when it is not [0]. *)
Definition field_ways (name : nat) (in_range : bool) (a : N)
    (caps : captures) (rest : str) : list (captures * option cp * str) :=
  (if in_range
   then [((name, two_digits a) :: caps, Some (digit a), rest)]
   else [])
  ++ (if 10 <=? a
      then [((name, [digit (a / 10)]) :: caps,
             Some (digit (a / 10)), digit a :: rest)]
      else []).

(** A code point of the Arabic block, U+0600 to U+06FF. *)
Definition in_arabic_block (c : cp) : bool := (0x0600 <=? c) && (c <=? 0x06FF).

(** The sets that the groups [name] of a pattern repeat; [None] for a
    group of another form. *)
Fixpoint group_sets (name : nat) (r : regex) : list (option cset) :=
  match r with
  | Seq r1 r2 | Alt r1 r2 => group_sets name r1 ++ group_sets name r2
  | Group n r1 =>
      (if Nat.eqb n name
       then [match r1 with Times _ _ a => Some a | _ => None end]
       else [])
      ++ group_sets name r1
  | _ => []
  end.

(** Every run of code points of the set has the property [Q]. *)
Definition runs_in {P : Platform} (ic : bool) (Q : str -> Prop)
    (o : option cset) : Prop :=
  match o with
  | Some a => forall p, Forall (fun c => set_matches ic a c = true) p -> Q p
  | None => False
  end.

(** A text made of code points of a set, case ignored. *)
Definition made_of {P : Platform} (a : cset) (v : str) : Prop :=
  Forall (fun c => set_matches true a c = true) v.

(** The code point before a position: the last one of the text before
    it, [prev] when there is none. *)
Definition last_of (prev : option cp) (p : str) : option cp :=
  fold_left (fun _ c => Some c) p prev.

Definition char_before (pre : str) : option cp := last_of None pre.

(** The letters and digits of the ID-number rule are word code points, as
    letters and decimal digits are. *)
Definition id_code_points_are_word (P : Platform) : Prop :=
  forall c, set_matches true [A_Z; Digit] c = true -> is_word c = true.

(** A token of the shape of an ID number between [pre] and [post], with no
    word code point next to it on either side. *)
Definition word_bounded_id {P : Platform} (pre token post : str) : Prop :=
  id_token (set_matches true [A_Z]) (set_matches true [Digit]) token = true
  /\ word_before (char_before pre) = false
  /\ word_after post = false.

(** [strftime('%Y')] where the C library prints the year as a plain
    number, for the years 1 to 9999 of [datetime]:
    [datetime(999, 1, 1).strftime('%Y')] is ['999'] there. *)
Definition unpadded_year (y : N) : str :=
  match drop_while (fun c => c =? d0) (four_digits y) with
  | [] => [d0]
  | s => s
  end.

(** The reference platform with that [%Y]. *)
Module Glibc.

Definition platform : Platform := {|
  decomposition := Reference.ref_decomposition;
  combining := Reference.ref_combining;
  isspace := Reference.ref_isspace;
  decimal := Reference.ref_decimal;
  isalnum := Reference.ref_isalnum;
  lower := Reference.ref_lower;
  strftime_Y := unpadded_year
|}.

End Glibc.

(** A code point of the blocks Combining Diacritical Marks, U+0300 to
    U+036F, and Combining Diacritical Marks for Symbols, U+20D0 to
    U+20FF. *)
Definition in_diacritical_marks_block (c : cp) : bool :=
  ((0x0300 <=? c) && (c <=? 0x036F)) || ((0x20D0 <=? c) && (c <=? 0x20FF)).

(** * Properties *)

(** ** The matcher *)

Module ReLemmas.
Import Re ReFacts.

Section Engine.
Context {P : Platform}.
Variable ignorecase : bool.

Lemma repeat_greedy_suffix a s :
  forall lo hi prev e,
    In e (repeat_greedy ignorecase a lo hi prev s) ->
    exists p, s = p ++ snd e.
Proof.
  induction s as [|c s IH]; intros lo hi prev e; simpl.
  - destruct lo; simpl; [intros [<-|[]]; exists []; reflexivity | intros []].
  - assert (Hstop : In e (match lo with O => [(prev, c :: s)] | S _ => [] end)
                    -> exists p, c :: s = p ++ snd e).
    { destruct lo; simpl; [intros [<-|[]]; exists []; reflexivity | intros []]. }
    destruct (may_repeat hi && set_matches ignorecase a c); auto.
    rewrite in_app_iff. intros [H|H]; auto.
    apply IH in H. destruct H as [p ->]. exists (c :: p). reflexivity.
Qed.

Lemma matches_suffix r :
  forall caps prev s e,
    In e (matches ignorecase r caps prev s) -> exists p, s = p ++ snd e.
Proof.
  induction r as [|a|lo hi a| |r1 IH1 r2 IH2|r1 IH1 r2 IH2|n r1 IH1];
    intros caps prev s e; simpl.
  - intros [<-|[]]. exists []; reflexivity.
  - destruct s as [|c s]; [intros []|].
    destruct (set_matches ignorecase a c); [|intros []].
    intros [<-|[]]. exists [c]; reflexivity.
  - rewrite in_map_iff. intros [[p' s'] [<- H]].
    apply repeat_greedy_suffix in H. exact H.
  - destruct (xorb _ _); [|intros []].
    intros [<-|[]]. exists []; reflexivity.
  - rewrite in_flat_map. intros [e1 [H1 H2]].
    apply IH1 in H1. apply IH2 in H2.
    destruct H1 as [p1 ->], H2 as [p2 ->].
    exists (p1 ++ p2). rewrite app_assoc. reflexivity.
  - rewrite in_app_iff. intros [H|H]; eauto.
  - rewrite in_map_iff. intros [e1 [<- H]]. simpl. eauto.
Qed.

Lemma matches_binds name r :
  forall caps prev s e,
    In e (matches ignorecase r caps prev s) ->
    (lookup name caps <> None -> lookup name (fst (fst e)) <> None)
    /\ (binds name r = true -> lookup name (fst (fst e)) <> None).
Proof.
  induction r as [|a|lo hi a| |r1 IH1 r2 IH2|r1 IH1 r2 IH2|n r1 IH1];
    intros caps prev s e; simpl.
  - intros [<-|[]]. simpl. split; [auto | discriminate].
  - destruct s as [|c s]; [intros []|].
    destruct (set_matches ignorecase a c); [|intros []].
    intros [<-|[]]. simpl. split; [auto | discriminate].
  - rewrite in_map_iff. intros [e1 [<- _]]. simpl.
    split; [auto | discriminate].
  - destruct (xorb _ _); [|intros []].
    intros [<-|[]]. simpl. split; [auto | discriminate].
  - rewrite in_flat_map. intros [e1 [H1 H2]].
    apply IH1 in H1. apply IH2 in H2.
    destruct H1 as [K1 B1], H2 as [K2 B2]. split; [auto|].
    intros B. apply orb_true_iff in B. destruct B; auto.
  - rewrite in_app_iff. intros H. split.
    + destruct H as [H|H]; [apply IH1 in H | apply IH2 in H]; tauto.
    + intros B. apply andb_true_iff in B. destruct B as [B1 B2].
      destruct H as [H|H]; [apply IH1 in H | apply IH2 in H]; tauto.
  - rewrite in_map_iff. intros [e1 [<- H]]. simpl.
    apply IH1 in H. destruct H as [K B].
    destruct (Nat.eqb n name) eqn:E; simpl.
    + split; discriminate.
    + split; auto.
Qed.

Lemma match_at_binds name r pos prev s m :
  match_at ignorecase r pos prev s = Some m ->
  binds name r = true -> group m name <> None.
Proof.
  unfold match_at, group.
  destruct (matches ignorecase r [] prev s) as [|[[caps p] rest] l] eqn:E;
    [discriminate|].
  intros [= <-] B. simpl.
  assert (H : In (caps, p, rest) (matches ignorecase r [] prev s))
    by (rewrite E; left; reflexivity).
  apply (matches_binds name) in H. simpl in H. tauto.
Qed.

Lemma search_from_binds name r s :
  forall pos prev m,
    search_from ignorecase r pos prev s = Some m ->
    binds name r = true -> group m name <> None.
Proof.
  induction s as [|c s IH]; intros pos prev m; simpl.
  - destruct (match_at ignorecase r pos prev []) eqn:E; [|discriminate].
    intros [= <-]. eapply match_at_binds; eauto.
  - destruct (match_at ignorecase r pos prev (c :: s)) eqn:E.
    + intros [= <-]. eapply match_at_binds; eauto.
    + apply IH.
Qed.

Lemma search_binds name r text m :
  search ignorecase r text = Some m ->
  binds name r = true -> group m name <> None.
Proof. apply search_from_binds. Qed.

End Engine.
End ReLemmas.

(** ** Dictionaries *)

Lemma str_eqb_eq a b : str_eqb a b = true <-> a = b.
Proof.
  unfold str_eqb. destruct (list_eq_dec N.eq_dec a b); split; auto.
  discriminate.
Qed.

Lemma str_eqb_neq a b : a <> b -> str_eqb a b = false.
Proof.
  intros H. destruct (str_eqb a b) eqn:E; auto.
  apply str_eqb_eq in E. contradiction.
Qed.

Lemma dict_get_set_same {V} k (v : V) d : dict_get k (dict_set k v d) = Some v.
Proof.
  induction d as [|[k' v'] d IH]; simpl.
  - rewrite (proj2 (str_eqb_eq k k)); reflexivity.
  - destruct (str_eqb k' k) eqn:E; simpl.
    + rewrite (proj2 (str_eqb_eq k k)); reflexivity.
    + rewrite E. exact IH.
Qed.

Lemma dict_get_set_other {V} k k' (v : V) d :
  k' <> k -> dict_get k' (dict_set k v d) = dict_get k' d.
Proof.
  intros Hne. induction d as [|[k0 v0] d IH]; simpl.
  - rewrite str_eqb_neq; auto.
  - destruct (str_eqb k0 k) eqn:E; simpl.
    + apply str_eqb_eq in E. subst k0.
      rewrite !str_eqb_neq; auto.
    + rewrite IH. reflexivity.
Qed.

Lemma dict_keys_set {V} k (v : V) d :
  incl (dict_keys (dict_set k v d)) (dict_keys d ++ [k]).
Proof.
  unfold dict_keys. induction d as [|[k0 v0] d IH]; simpl.
  - apply incl_refl.
  - destruct (str_eqb k0 k) eqn:E; simpl.
    + apply str_eqb_eq in E. subst k0.
      intros x [<-|Hx]; [left; reflexivity | right; apply in_or_app; auto].
    + intros x [<-|Hx]; [left; reflexivity | right; apply IH; exact Hx].
Qed.

Lemma dict_get_set_some {V} k k' (v : V) d :
  dict_get k' d <> None -> dict_get k' (dict_set k v d) <> None.
Proof.
  intros H. destruct (list_eq_dec N.eq_dec k' k) as [->|Hne].
  - rewrite dict_get_set_same. discriminate.
  - rewrite dict_get_set_other; assumption.
Qed.

(** ** [extract] returns, and what it writes *)

Section ExtractShape.
Context {P : Platform}.

Lemma parse_date_returns date_str : exists r, parse_date date_str = Return r.
Proof.
  unfold parse_date. destruct date_str as [|c s]; [eauto|].
  destruct (try_formats _ formats); eauto.
Qed.

Lemma first_language_binds text langs :
  Forall (fun lr => ReFacts.binds 1 (snd lr) = true) langs ->
  forall m, first_language text langs = Some m -> group m 1 <> None.
Proof.
  induction 1 as [|[lang r] langs Hr _ IH]; simpl; [discriminate|].
  intros m. destruct (search true r text) eqn:E.
  - intros [= <-]. eapply ReLemmas.search_binds; eauto.
  - apply IH.
Qed.

Lemma extract_field_returns text d entry :
  In entry patterns ->
  exists d', extract_field text d entry = Return d' /\ turn_spec text entry d d'.
Proof.
  assert (Hlang : forall key langs,
    Forall (fun lr => ReFacts.binds 1 (snd lr) = true) langs ->
    exists d', extract_field text d (key, ByLanguage langs) = Return d'
               /\ turn_spec text (key, ByLanguage langs) d d').
  { intros key langs Hb. unfold extract_field, turn_spec, field_found. simpl.
    destruct (first_language text langs) as [m|] eqn:E; [|eauto].
    destruct (str_eqb key (utf8 "birth_date") || str_eqb key (utf8 "expiry_date")).
    - destruct (group m 1) as [s|]; simpl.
      + destruct (parse_date_returns s) as [r ->]. simpl. eauto.
      + eauto.
    - pose proof (first_language_binds text langs Hb m E) as Hg.
      destruct (group m 1) as [s|]; [|contradiction]. simpl. eauto. }
  assert (Hpat : forall key r,
    exists d', extract_field text d (key, Pattern r) = Return d'
               /\ turn_spec text (key, Pattern r) d d').
  { intros key r. unfold extract_field, turn_spec, field_found. simpl.
    destruct (search true r text); eauto. }
  unfold patterns. simpl.
  intros [<-|[<-|[<-|[<-|[<-|[]]]]]];
    first [ apply Hpat
          | apply Hlang; repeat constructor ].
Qed.

Lemma extract_fields_returns text entries :
  incl entries patterns ->
  forall d, exists d',
    extract_fields text d entries = Return d'
    /\ (forall k,
          ~ In k (map (fun e => result_key (fst e))
                      (filter (fun e => field_found text (snd e)) entries)) ->
          dict_get k d' = dict_get k d)
    /\ incl (dict_keys d')
            (dict_keys d ++ map (fun e => result_key (fst e)) entries)
    /\ (forall k, dict_get k d <> None -> dict_get k d' <> None).
Proof.
  induction entries as [|entry entries IH]; intros Hin d; simpl.
  - exists d. split; [reflexivity|]. split; [reflexivity|].
    rewrite app_nil_r. split; [apply incl_refl | auto].
  - destruct (extract_field_returns text d entry) as [d1 [E1 T1]];
      [apply Hin; left; reflexivity|].
    rewrite E1. simpl.
    destruct (IH (fun x Hx => Hin x (or_intror Hx)) d1)
      as [d' [E' [G' [K' S']]]].
    exists d'. split; [exact E'|]. unfold turn_spec in T1.
    destruct (field_found text (snd entry)) eqn:F.
    + destruct T1 as [v ->]. split; [|split].
      * intros k Hk. simpl in Hk. rewrite G' by tauto.
        apply dict_get_set_other. intros ->. tauto.
      * intros k Hk. apply K' in Hk. apply in_app_or in Hk.
        destruct Hk as [Hk|Hk].
        -- apply dict_keys_set in Hk. apply in_app_or in Hk.
           destruct Hk as [Hk|[<-|[]]].
           ++ apply in_or_app; left; exact Hk.
           ++ apply in_or_app; right; left; reflexivity.
        -- apply in_or_app; right; right; exact Hk.
      * intros k Hk. apply S'. apply dict_get_set_some. exact Hk.
    + subst d1. split; [exact G'|]. split; [|exact S'].
      intros k Hk. apply K' in Hk. apply in_app_or in Hk.
      destruct Hk as [Hk|Hk]; apply in_or_app; [left|right; right]; exact Hk.
Qed.

Lemma written_keys_eq :
  map (fun e => result_key (fst e)) patterns = written_keys.
Proof. reflexivity. Qed.

End ExtractShape.

(** ** The shape of the result *)

Section ResultShape.
Context {P : Platform}.

Lemma extract_shape text :
  exists extracted,
    extract text = Return extracted
    /\ (forall k,
          In k declared_keys ->
          ~ In k (map (fun e => result_key (fst e))
                      (filter (fun e => field_found (cleaned text) (snd e))
                              patterns)) ->
          dict_get k extracted = Some None)
    /\ incl (dict_keys extracted) (declared_keys ++ extra_keys)
    /\ Forall (fun k => dict_get k extracted <> None) declared_keys.
Proof.
  unfold extract.
  destruct (extract_fields_returns (cleaned text) patterns (incl_refl _)
              (map (fun k => (k, None)) declared_keys))
    as [d' [E [G [K S]]]].
  exists d'. split; [exact E|]. split; [|split].
  - intros k Hd Hk. rewrite (G k Hk). revert Hd. clear.
    vm_compute. intuition (subst; reflexivity).
  - rewrite written_keys_eq in K.
    intros k Hk. apply K in Hk. revert Hk. clear.
    vm_compute. tauto.
  - apply Forall_forall. intros k Hk. apply S. revert Hk. clear.
    vm_compute. intuition (subst; discriminate).
Qed.

Lemma not_written k :
  ~ In k written_keys ->
  forall text,
    ~ In k (map (fun e => result_key (fst e))
                (filter (fun e => field_found (cleaned text) (snd e)) patterns)).
Proof.
  intros Hk text Hin. apply Hk. rewrite <- written_keys_eq.
  apply in_map_iff in Hin. destruct Hin as [e [<- He]].
  apply filter_In in He.
  apply (in_map (fun e => result_key (fst e))). tauto.
Qed.

(** A declared key other than ['Expiry Date'] is never written. *)
Lemma declared_not_written k :
  In k declared_keys -> k <> utf8 "Expiry Date" -> ~ In k written_keys.
Proof.
  vm_compute. intuition (subst; try discriminate; congruence).
Qed.

(** ['Expiry Date'] is written by the entry [expiry_date] only. *)
Lemma expiry_written_by e :
  In e patterns -> result_key (fst e) = utf8 "Expiry Date" ->
  e = nth 4 patterns (utf8 "", Pattern Eps).
Proof.
  unfold patterns. simpl.
  intros [<-|[<-|[<-|[<-|[<-|[]]]]]]; intros Hk;
    try (vm_compute in Hk; discriminate).
  reflexivity.
Qed.

End ResultShape.

(** C2: for every input [extract] returns (it raises nothing), and the
    result holds each of the five declared keys, bound to a string or to
    [None]; a declared field none of whose patterns is found in the cleaned
    text is bound to [None]. *)
Theorem extract_returns_every_declared_key (P : Platform) (text : str) :
  exists extracted,
    extract text = Return extracted
    /\ Forall (fun k => exists v : option str, dict_get k extracted = Some v)
              declared_keys
    /\ (forall field declared,
          In (field, declared) (combine patterns declared_keys) ->
          field_found (cleaned text) (snd field) = false ->
          dict_get declared extracted = Some None).
Proof.
  destruct (extract_shape text) as [d [E [G [K S]]]].
  exists d. split; [exact E|]. split.
  - rewrite Forall_forall in *. intros k Hk. specialize (S k Hk).
    destruct (dict_get k d) as [v|]; [eauto | contradiction].
  - intros field declared Hin Hnf.
    pose proof (in_combine_r _ _ _ _ Hin) as Hd.
    apply G; [exact Hd|].
    destruct (list_eq_dec N.eq_dec declared (utf8 "Expiry Date")) as [->|Hne].
    + intros Hk. apply in_map_iff in Hk. destruct Hk as [e [Hk He]].
      apply filter_In in He. destruct He as [He Hf].
      apply expiry_written_by in He; [|exact Hk]. subst e.
      unfold patterns in Hin. simpl in Hin.
      destruct Hin as [Hin|[Hin|[Hin|[Hin|[Hin|[]]]]]];
        pose proof (f_equal snd Hin) as Hx; simpl in Hx;
        try (vm_compute in Hx; discriminate);
        pose proof (f_equal fst Hin) as Hy; simpl in Hy; subst field.
      unfold patterns in Hf. simpl nth in Hf.
      rewrite Hnf in Hf. discriminate.
    + apply not_written. apply declared_not_written; assumption.
Qed.

(** ** Single-character [replace] *)

Lemma replace_single o n text :
  replace [o] [n] text = map (fun c => if c =? o then n else c) text.
Proof.
  unfold replace. induction text as [|c text IH]; simpl; [reflexivity|].
  rewrite andb_true_r, IH, N.eqb_sym.
  destruct (c =? o); reflexivity.
Qed.

(** ** [parse_date] *)

Section ParseDate.
Context {P : Platform}.

Lemma int_raises s e : int s = Raise e -> e = ValueError.
Proof.
  unfold int. destruct (strip s); [intros [= <-]; reflexivity|].
  destruct (int_digits 0 _); [discriminate | intros [= <-]; reflexivity].
Qed.

Lemma field_raises found name default e :
  field found name default = Raise e -> e = ValueError.
Proof.
  unfold field. destruct (group found name); [apply int_raises | discriminate].
Qed.

Lemma strptime_raises s fmt e : strptime s fmt = Raise e -> e = ValueError.
Proof.
  unfold strptime.
  destruct (format_regex fmt); [|intros [= <-]; reflexivity].
  destruct (match_ true _ s) as [found|]; [|intros [= <-]; reflexivity].
  destruct (negb _); [intros [= <-]; reflexivity|].
  destruct (field found g_Y 1900) eqn:EY; simpl;
    [|intros [= <-]; eapply field_raises; eauto].
  destruct (field found g_m 1) eqn:EM; simpl;
    [|intros [= <-]; eapply field_raises; eauto].
  destruct (field found g_d 1) eqn:ED; simpl;
    [|intros [= <-]; eapply field_raises; eauto].
  destruct (valid_date _ _ _); [discriminate | intros [= <-]; reflexivity].
Qed.

Lemma strptime_valid s fmt dt :
  strptime s fmt = Return dt ->
  valid_date (year dt) (month dt) (day dt) = true.
Proof.
  unfold strptime.
  destruct (format_regex fmt); [|discriminate].
  destruct (match_ true _ s) as [found|]; [|discriminate].
  destruct (negb _); [discriminate|].
  destruct (field found g_Y 1900); simpl; [|discriminate].
  destruct (field found g_m 1); simpl; [|discriminate].
  destruct (field found g_d 1); simpl; [|discriminate].
  destruct (valid_date _ _ _) eqn:V; [|discriminate].
  intros [= <-]. exact V.
Qed.

Lemma try_formats_first_layout s :
  try_formats s formats = Return (first_layout s).
Proof.
  unfold formats, first_layout. cbn [try_formats].
  destruct (strptime s (utf8 "%d/%m/%Y")) as [dt|e] eqn:E1; [reflexivity|].
  apply strptime_raises in E1. subst e.
  destruct (strptime s (utf8 "%Y/%m/%d")) as [dt|e] eqn:E2; [reflexivity|].
  apply strptime_raises in E2. subst e.
  destruct (strptime s (utf8 "%m/%d/%Y")) as [dt|e] eqn:E3; [reflexivity|].
  apply strptime_raises in E3. subst e. reflexivity.
Qed.

Lemma parse_date_eq date_str :
  parse_date date_str
  = Return (match date_str with
            | [] => None
            | _ :: _ => first_layout (map as_slash date_str)
            end).
Proof.
  unfold parse_date. destruct date_str as [|c s]; [reflexivity|].
  change (utf8 ".") with [chr "."]. change (utf8 "-") with [chr "-"].
  change (utf8 "/") with [chr "/"].
  rewrite !replace_single, map_map, try_formats_first_layout.
  f_equal. f_equal. apply map_ext. intros a. unfold as_slash.
  destruct (a =? chr ".") eqn:E1; simpl.
  - destruct (chr "/" =? chr "-") eqn:E; [vm_compute in E; discriminate|].
    reflexivity.
  - reflexivity.
Qed.

Lemma strftime_iso_shape dt :
  year_as_documented P ->
  valid_date (year dt) (month dt) (day dt) = true ->
  iso_date_string (strftime_iso dt).
Proof.
  intros HY V. exists (year dt), (month dt), (day dt). split; [exact V|].
  unfold strftime_iso. rewrite HY; [reflexivity|].
  unfold valid_date in V. rewrite !andb_true_iff, !N.leb_le in V. lia.
Qed.

Lemma first_layout_shape s v :
  year_as_documented P -> first_layout s = Some v -> iso_date_string v.
Proof.
  intros HY. unfold first_layout.
  destruct (strptime s (utf8 "%d/%m/%Y")) as [dt|e] eqn:E1.
  { intros [= <-]. eapply strftime_iso_shape, strptime_valid; eauto. }
  destruct (strptime s (utf8 "%Y/%m/%d")) as [dt|e2] eqn:E2.
  { intros [= <-]. eapply strftime_iso_shape, strptime_valid; eauto. }
  destruct (strptime s (utf8 "%m/%d/%Y")) as [dt|e3] eqn:E3; [|discriminate].
  intros [= <-]. eapply strftime_iso_shape, strptime_valid; eauto.
Qed.


End ParseDate.




Lemma reference_year_as_documented : year_as_documented Reference.platform.
Proof. intros y _. reflexivity. Qed.



(** ** The scenarios, on the reference platform *)

(** C1: on the French record the result binds ['Full Name'] and
    ['Date of Birth'] to [None]: the name and the birth date are stored
    under ['Name'] and ['Birth Date'], and the name found, case being
    ignored, runs on over the label that follows it.  Only the expiry date
    is as the scenario gives it. *)
Theorem french_record_result :
  @extract Reference.platform
    (utf8 "NOM ET PRENOM: AHMED ALAMI Né le 12.05.1990 Valable jusqu'au 12.05.2030")
  = Return
      [ (utf8 "CIN Number", None);
        (utf8 "Full Name", None);
        (utf8 "Date of Birth", None);
        (utf8 "Place of Birth", None);
        (utf8 "Expiry Date", Some (utf8 "2030-05-12"));
        (utf8 "Name", Some (utf8 "AHMED ALAMI Ne le"));
        (utf8 "Birth Date", Some (utf8 "1990-05-12"));
        (utf8 "Birth Place", Some (utf8 "HMED ALAMI Ne le")) ].
Proof. vm_compute. reflexivity. Qed.

(** C4: on the card header followed by a number, the header is removed
    and the number is found, but it is stored under ['Cin Number'];
    ['CIN Number'] stays [None]. *)
Theorem header_and_number_result :
  @cleaned Reference.platform
    (utf8 "ROYAUME DU MAROC CARTE NATIONALE D'IDENTITE AB123456")
  = utf8 "AB123456"
  /\ @extract Reference.platform
       (utf8 "ROYAUME DU MAROC CARTE NATIONALE D'IDENTITE AB123456")
     = Return
         [ (utf8 "CIN Number", None);
           (utf8 "Full Name", None);
           (utf8 "Date of Birth", None);
           (utf8 "Place of Birth", None);
           (utf8 "Expiry Date", None);
           (utf8 "Cin Number", Some (utf8 "AB123456"));
           (utf8 "Birth Place", Some (utf8 "B")) ].
Proof. split; vm_compute; reflexivity. Qed.

(** C3: whatever the input, ['CIN Number'], ['Full Name'],
    ['Date of Birth'] and ['Place of Birth'] are bound to [None] in the
    result of [extract], whose keys are among the five declared ones and
    ['Cin Number'], ['Name'], ['Birth Date'], ['Birth Place']: the keys
    written to are the title-cased pattern keys.  Some input gives all
    nine keys, and some input gives ['Expiry Date'] a value. *)
Theorem declared_keys_stay_absent :
  (forall (P : Platform) (text : str),
      exists extracted,
        extract text = Return extracted
        /\ Forall (fun k => dict_get k extracted = Some None)
                  [ utf8 "CIN Number"; utf8 "Full Name"; utf8 "Date of Birth";
                    utf8 "Place of Birth" ]
        /\ incl (dict_keys extracted) (declared_keys ++ extra_keys))
  /\ map (fun e => result_key (fst e)) patterns
     = [ utf8 "Cin Number"; utf8 "Name"; utf8 "Birth Date"; utf8 "Birth Place";
         utf8 "Expiry Date" ]
  /\ (exists extracted,
        @extract Reference.platform
          (utf8 "AB123456 NOM ET PRENOM: AHMED Né le 12.05.1990")
        = Return extracted
        /\ dict_keys extracted = declared_keys ++ extra_keys)
  /\ (exists extracted,
        @extract Reference.platform
          (utf8 "Valable jusqu'au 12.05.2030") = Return extracted
        /\ dict_get (utf8 "Expiry Date") extracted
           = Some (Some (utf8 "2030-05-12"))).
Proof.
  split; [|split; [reflexivity|split]].
  - intros P text.
    destruct (extract_shape text) as [d [E [G [K S]]]].
    exists d. split; [exact E|]. split; [|exact K].
    apply Forall_forall. intros k Hk. apply G.
    + revert Hk. vm_compute. tauto.
    + apply not_written. apply declared_not_written.
      * revert Hk. vm_compute. tauto.
      * revert Hk. vm_compute. intuition (subst; discriminate).
  - eexists. split; [vm_compute; reflexivity|]. vm_compute. reflexivity.
  - eexists. split; [vm_compute; reflexivity|]. vm_compute. reflexivity.
Qed.

(** ** [normalize_text], stage by stage *)

Section Stages.
Context {P : Platform}.

(** *** Canonical ordering moves marks only *)

Lemma reorder_insert_starters c racc :
  filter starter (rev (reorder_insert c racc))
  = filter starter (rev racc ++ [c]).
Proof.
  induction racc as [|p r IH]; simpl; [reflexivity|].
  destruct ((combining p =? 0) || (combining c =? 0)
            || (combining p <=? combining c)) eqn:E; [reflexivity|].
  apply orb_false_iff in E. destruct E as [E _].
  apply orb_false_iff in E. destruct E as [Ep Ec].
  simpl. rewrite !filter_app, IH, filter_app. simpl.
  unfold starter. rewrite Ep, Ec. rewrite !app_nil_r. reflexivity.
Qed.

Lemma reorder_starters s :
  forall racc,
    filter starter (rev (fold_left (fun racc c => reorder_insert c racc) s racc))
    = filter starter (rev racc ++ s).
Proof.
  induction s as [|a s IH]; intros racc; simpl.
  - rewrite app_nil_r. reflexivity.
  - rewrite IH, !filter_app, reorder_insert_starters, filter_app. simpl.
    destruct (starter a); simpl; rewrite <- app_assoc; reflexivity.
Qed.

Lemma canonical_order_starters s :
  filter starter (canonical_order s) = filter starter s.
Proof. unfold canonical_order. rewrite reorder_starters. reflexivity. Qed.

Lemma reorder_insert_starter c racc :
  combining c = 0 -> reorder_insert c racc = c :: racc.
Proof.
  intros Hc. destruct racc as [|p r]; simpl; [reflexivity|].
  rewrite Hc. simpl. rewrite orb_true_r. reflexivity.
Qed.

Lemma canonical_order_fixed s :
  Forall (fun c => combining c = 0) s -> canonical_order s = s.
Proof.
  intros H. unfold canonical_order.
  assert (G : forall racc,
    fold_left (fun racc c => reorder_insert c racc) s racc = rev s ++ racc).
  { induction H as [|c s Hc _ IH]; intros racc; simpl; [reflexivity|].
    rewrite reorder_insert_starter by exact Hc.
    rewrite IH, <- app_assoc. reflexivity. }
  rewrite G, app_nil_r. apply rev_involutive.
Qed.

Lemma flat_map_fixed s :
  Forall (fun c => decomposition c = [c]) s -> flat_map decomposition s = s.
Proof.
  induction 1 as [|c s Hc _ IH]; simpl; [reflexivity|].
  rewrite Hc, IH. reflexivity.
Qed.

Lemma filter_fixed {A} (f : A -> bool) s :
  Forall (fun c => f c = true) s -> filter f s = s.
Proof.
  induction 1 as [|c s Hc _ IH]; simpl; [reflexivity|].
  rewrite Hc, IH. reflexivity.
Qed.

(** *** [strip] *)

Lemma lstrip_suffix s : exists p, s = p ++ lstrip s.
Proof.
  induction s as [|c s [p IH]]; simpl.
  - exists []. reflexivity.
  - destruct (isspace c).
    + exists (c :: p). simpl. rewrite <- IH. reflexivity.
    + exists []. reflexivity.
Qed.

Lemma lstrip_head s c t : lstrip s = c :: t -> isspace c = false.
Proof.
  induction s as [|a s IH]; simpl; [discriminate|].
  destruct (isspace a) eqn:E; [exact IH|].
  intros [= <- _]. exact E.
Qed.

Lemma lstrip_fixed s :
  (forall c t, s = c :: t -> isspace c = false) -> lstrip s = s.
Proof.
  destruct s as [|c s]; simpl; [reflexivity|].
  intros H. rewrite (H c s eq_refl). reflexivity.
Qed.

Lemma lstrip_length s : (length (lstrip s) <= length s)%nat.
Proof.
  destruct (lstrip_suffix s) as [p E]. rewrite E at 2.
  rewrite length_app. lia.
Qed.

Lemma rstrip_prefix s : exists q, s = rstrip s ++ q.
Proof.
  unfold rstrip. destruct (lstrip_suffix (rev s)) as [p E].
  exists (rev p). rewrite <- rev_app_distr, <- E. symmetry. apply rev_involutive.
Qed.

Lemma rstrip_last s t c : rstrip s = t ++ [c] -> isspace c = false.
Proof.
  unfold rstrip. intros E.
  apply (f_equal (@rev cp)) in E. rewrite rev_involutive, rev_app_distr in E.
  simpl in E. eapply lstrip_head. exact E.
Qed.

Lemma strip_segment s : exists p q, s = p ++ strip s ++ q.
Proof.
  unfold strip. destruct (lstrip_suffix s) as [p Ep].
  destruct (rstrip_prefix (lstrip s)) as [q Eq].
  exists p, q. rewrite <- Eq. exact Ep.
Qed.

Lemma strip_trimmed s : trimmed (strip s).
Proof.
  split.
  - intros c t E. unfold strip in E.
    destruct (rstrip_prefix (lstrip s)) as [q Eq]. rewrite E in Eq.
    simpl in Eq. eapply lstrip_head. exact Eq.
  - intros t c E. unfold strip in E. eapply rstrip_last. exact E.
Qed.

Lemma strip_fixed s : trimmed s -> strip s = s.
Proof.
  intros [Hh Hl]. unfold strip. rewrite (lstrip_fixed s Hh).
  unfold rstrip. rewrite lstrip_fixed; [apply rev_involutive|].
  intros c t E. apply (Hl (rev t) c).
  rewrite <- (rev_involutive s), E. reflexivity.
Qed.

(** *** [re.sub(r'\s+', ' ', text)] squeezes runs of white space *)

Lemma squeeze_true_lstrip s : squeeze true s = squeeze false (lstrip s).
Proof.
  induction s as [|c s IH]; simpl; [reflexivity|].
  destruct (isspace c) eqn:E; [exact IH|].
  simpl. rewrite E. reflexivity.
Qed.

Lemma greedy_space_head s :
  forall prev, exists p l,
    Re.repeat_greedy false [Re.Space] 0 None prev s = (p, lstrip s) :: l.
Proof.
  induction s as [|c s IH]; intros prev; simpl.
  - eauto.
  - rewrite orb_false_r. destruct (isspace c); [|eauto].
    destruct (IH (Some c)) as [p [l ->]]. simpl. eauto.
Qed.

Lemma space_run_matches prev c s :
  Re.matches false (Re.plus [Re.Space]) [] prev (c :: s)
  = if isspace c
    then map (fun e => ([], fst e, snd e))
             (Re.repeat_greedy false [Re.Space] 0 None (Some c) s)
    else [].
Proof.
  unfold Re.plus. simpl. rewrite orb_false_r.
  destruct (isspace c); [|reflexivity].
  rewrite app_nil_r. reflexivity.
Qed.

Lemma sub_space_runs s :
  (forall prev,
     Re.sub_from false (Re.plus [Re.Space]) [0x20] 0 prev s = squeeze false s)
  /\ (forall prev,
        Re.sub_from false (Re.plus [Re.Space]) [0x20]
                    (length s - length (lstrip s)) prev s
        = squeeze true s).
Proof.
  induction s as [|c s [IHA IHB]].
  - split; intros prev; reflexivity.
  - assert (A : forall prev,
      Re.sub_from false (Re.plus [Re.Space]) [0x20] 0 prev (c :: s)
      = squeeze false (c :: s)).
    { intros prev. cbn [Re.sub_from]. rewrite space_run_matches.
      cbn [squeeze]. destruct (isspace c) eqn:E.
      - destruct (greedy_space_head s (Some c)) as [p [l ->]].
        cbn [map fst snd].
        pose proof (lstrip_length s) as L.
        change (length (c :: s)) with (S (length s)).
        rewrite (Nat.sub_succ_l _ _ L), IHB. reflexivity.
      - rewrite IHA. reflexivity. }
    split; [exact A|].
    intros prev. cbn [lstrip squeeze]. destruct (isspace c) eqn:E.
    + pose proof (lstrip_length s) as L.
      change (length (c :: s)) with (S (length s)).
      rewrite (Nat.sub_succ_l _ _ L). cbn [Re.sub_from]. apply IHB.
    + rewrite Nat.sub_diag. rewrite A. cbn [squeeze]. rewrite E. reflexivity.
Qed.

Lemma sub_space_squeeze s :
  Re.sub false (Re.plus [Re.Space]) (utf8 " ") s = squeeze false s.
Proof. apply (proj1 (sub_space_runs s)). Qed.

End Stages.

Section Squeeze.
Context {P : Platform}.

Lemma squeeze_pairs s :
  forall in_run,
    no_space_pair (squeeze in_run s)
    /\ (in_run = true ->
        forall c t, squeeze in_run s = c :: t -> isspace c = false).
Proof.
  induction s as [|a s IH]; intros in_run; simpl.
  - split; [exact I | discriminate].
  - destruct (isspace a) eqn:E.
    + destruct (IH true) as [IH1 IH2]. destruct in_run.
      * split; [exact IH1 | intros _; apply IH2; reflexivity].
      * split; [|discriminate].
        simpl. destruct (squeeze true s) as [|y t] eqn:Es; [exact I|].
        split; [|exact IH1].
        intros _ Hy. rewrite (IH2 eq_refl y t eq_refl) in Hy. discriminate.
    + destruct (IH false) as [IH1 _]. split.
      * simpl. destruct (squeeze false s) as [|y t]; [exact I|].
        split; [|exact IH1]. intros Ha. rewrite E in Ha. discriminate.
      * intros _ c t [= <- _]. exact E.
Qed.

Lemma no_space_pair_spaced_once s : no_space_pair s -> spaced_once s.
Proof.
  intros H a. revert s H. induction a as [|z a IH]; intros s H x y b E.
  - subst s. simpl in H. tauto.
  - subst s. refine (IH (a ++ x :: y :: b) _ x y b eq_refl).
    simpl in H. destruct (a ++ x :: y :: b); [exact I | tauto].
Qed.

Lemma squeeze_spaced_once s : spaced_once (squeeze false s).
Proof. apply no_space_pair_spaced_once, squeeze_pairs. Qed.

(** What [squeeze] leaves: U+0020, and code points of the text that are
    no white space. *)
Lemma squeeze_elements s :
  forall in_run c,
    In c (squeeze in_run s) -> c = 0x20 \/ (In c s /\ isspace c = false).
Proof.
  induction s as [|a s IH]; intros in_run c; simpl; [tauto|].
  destruct (isspace a) eqn:E.
  - destruct in_run; simpl.
    + intros H. apply IH in H. tauto.
    + intros [<-|H]; [tauto|]. apply IH in H. tauto.
  - simpl. intros [<-|H]; [tauto|]. apply IH in H. tauto.
Qed.

Lemma squeeze_fixed s :
  forall in_run,
    Forall (fun c => isspace c = true -> c = 0x20) s ->
    spaced_once s ->
    (in_run = true -> forall c t, s = c :: t -> isspace c = false) ->
    squeeze in_run s = s.
Proof.
  induction s as [|a s IH]; intros in_run Hs Hp Hh; simpl; [reflexivity|].
  inversion_clear Hs as [|? ? Ha Hs'].
  assert (Hp' : spaced_once s).
  { intros p x y q E. apply (Hp (a :: p) x y q). rewrite E. reflexivity. }
  destruct (isspace a) eqn:E.
  - destruct in_run.
    + rewrite (Hh eq_refl a s eq_refl) in E. discriminate.
    + rewrite <- (Ha eq_refl) at 1. f_equal. apply IH; auto.
      intros _ c t ->.
      destruct (isspace c) eqn:Ec; [|reflexivity].
      exfalso. apply (Hp [] a c t eq_refl E Ec).
  - f_equal. apply IH; auto. discriminate.
Qed.

(** A code point that is no white space separates what comes before it
    from what comes after it. *)
Lemma squeeze_split e s2 :
  isspace e = false ->
  forall s1 in_run,
    squeeze in_run (s1 ++ e :: s2)
    = squeeze in_run s1 ++ e :: squeeze false s2.
Proof.
  intros He. induction s1 as [|a s1 IH]; intros in_run; simpl.
  - rewrite He. reflexivity.
  - destruct (isspace a).
    + destruct in_run; rewrite IH; reflexivity.
    + rewrite IH. reflexivity.
Qed.

Lemma lstrip_split e s2 :
  isspace e = false ->
  forall s1, exists s1', lstrip (s1 ++ e :: s2) = s1' ++ e :: s2.
Proof.
  intros He. induction s1 as [|a s1 [s1' IH]]; simpl.
  - rewrite He. exists []. reflexivity.
  - destruct (isspace a); [eauto|].
    exists (a :: s1). reflexivity.
Qed.

Lemma strip_split e s1 s2 :
  isspace e = false ->
  exists s1' s2', strip (s1 ++ e :: s2) = s1' ++ e :: s2'.
Proof.
  intros He. unfold strip, rstrip.
  destruct (lstrip_split e s2 He s1) as [s1' ->].
  rewrite rev_app_distr. simpl. rewrite <- app_assoc. simpl.
  destruct (lstrip_split e (rev s1') He (rev s2)) as [s2' ->].
  exists s1', (rev s2').
  rewrite rev_app_distr. simpl. rewrite rev_involutive, <- app_assoc.
  reflexivity.
Qed.

End Squeeze.

(** *** The replacements of [arabic_chars] act on single code points *)

Lemma arabic_chars_eq :
  arabic_chars
  = map (fun kv => ([fst kv], [snd kv]))
        [ (0x0623, 0x0627); (0x0625, 0x0627); (0x0622, 0x0627);
          (0x0629, 0x0647); (0x0649, 0x064A);
          (0x0660, 0x30); (0x0661, 0x31); (0x0662, 0x32); (0x0663, 0x33);
          (0x0664, 0x34); (0x0665, 0x35); (0x0666, 0x36); (0x0667, 0x37);
          (0x0668, 0x38); (0x0669, 0x39) ].
Proof. reflexivity. Qed.

Lemma fold_replace_map (t : list (cp * cp)) :
  forall text,
    fold_left (fun text kv => replace (fst kv) (snd kv) text)
              (map (fun kv => ([fst kv], [snd kv])) t) text
    = map (fun c =>
             fold_left (fun c kv => if c =? hd 0 (fst kv) then hd 0 (snd kv)
                                    else c)
                       (map (fun kv => ([fst kv], [snd kv])) t) c)
          text.
Proof.
  induction t as [|[o n] t IH]; intros text; cbn [map fold_left fst snd hd].
  - symmetry. apply map_id.
  - rewrite IH, replace_single, map_map. reflexivity.
Qed.

Lemma replacements_standardize text :
  fold_left (fun text kv => replace (fst kv) (snd kv) text) arabic_chars text
  = map standardize text.
Proof.
  unfold standardize. rewrite arabic_chars_eq. apply fold_replace_map.
Qed.

Lemma fold_standardize_miss (t : list (cp * cp)) c :
  ~ In c (map fst t) ->
  fold_left (fun c kv => if c =? hd 0 (fst kv) then hd 0 (snd kv) else c)
            (map (fun kv => ([fst kv], [snd kv])) t) c
  = c.
Proof.
  induction t as [|[o n] t IH]; cbn [map fold_left fst snd hd]; [reflexivity|].
  intros H. destruct (N.eqb_spec c o) as [->|Hne].
  - exfalso. apply H. left. reflexivity.
  - apply IH. intros Hin. apply H. right. exact Hin.
Qed.

(** [standardize], case by case. *)
Lemma standardize_cases c :
  (In c (utf8 "أإآ") /\ standardize c = chr "ا")
  \/ (c = chr "ة" /\ standardize c = chr "ه")
  \/ (c = chr "ى" /\ standardize c = chr "ي")
  \/ (0x0660 <= c <= 0x0669 /\ standardize c = c - 0x0660 + 0x30)
  \/ (~ In [c] (map fst arabic_chars) /\ standardize c = c).
Proof.
  destruct (in_dec N.eq_dec c
              [ 0x0623; 0x0625; 0x0622; 0x0629; 0x0649; 0x0660; 0x0661;
                0x0662; 0x0663; 0x0664; 0x0665; 0x0666; 0x0667; 0x0668;
                0x0669 ]) as [Hin|Hout].
  - simpl in Hin.
    repeat (destruct Hin as [<-|Hin];
            [vm_compute; clear; intuition (try discriminate)|]).
    destruct Hin.
  - right. right. right. right. split.
    + intros Hin. apply Hout. revert Hin. rewrite arabic_chars_eq.
      simpl. clear.
      intros H.
      repeat (destruct H as [H|H]; [injection H as H; auto 20|]).
      destruct H.
    + unfold standardize. rewrite arabic_chars_eq.
      apply fold_standardize_miss. exact Hout.
Qed.

(** *** The normal form *)

Section NormalFormLemmas.
Context {P : Platform}.

Lemma normalize_text_eq s :
  normalize_text s
  = map standardize
        (strip (squeeze false (filter starter (flat_map decomposition s)))).
Proof.
  unfold normalize_text, nfkd.
  rewrite replacements_standardize, sub_space_squeeze.
  change (filter (fun c => combining c =? 0)) with (filter starter).
  rewrite canonical_order_starters. reflexivity.
Qed.

Lemma standardize_space : standardize 0x20 = 0x20.
Proof. reflexivity. Qed.

Lemma standardize_idempotent c : standardize (standardize c) = standardize c.
Proof.
  destruct (standardize_cases c)
    as [[_ E]|[[_ E]|[[_ E]|[[Hr E]|[_ E]]]]];
    try (rewrite E; reflexivity).
  - assert (H : In c [0x660; 0x661; 0x662; 0x663; 0x664; 0x665; 0x666;
                      0x667; 0x668; 0x669]).
    { assert (Ec : c = 0x660 + (c - 0x660)) by lia. rewrite Ec.
      destruct (c - 0x660) as [|p] eqn:D; [simpl; tauto|].
      assert (Hp : (p <= 9)%positive) by lia.
      do 4 (destruct p; try lia; try (simpl; tauto)). }
    clear E Hr. simpl in H.
    repeat (destruct H as [<-|H]; [reflexivity|]). destruct H.
  - rewrite E. exact E.
Qed.

Section WithFacts.
Hypothesis facts : unicode_facts P.

Lemma plain_listed c :
  In c (utf8 "اهي0123456789" ++ utf8 "ةى٠١٢٣٤٥٦٧٨٩") -> plain c.
Proof.
  pose proof (letters_plain P facts) as H. rewrite Forall_forall in H.
  apply H.
Qed.

Lemma digit_range c :
  0x0660 <= c <= 0x0669 ->
  In c (utf8 "٠١٢٣٤٥٦٧٨٩")
  /\ In (c - 0x0660 + 0x30) (utf8 "0123456789").
Proof.
  intros Hr.
  assert (H : In c [0x660; 0x661; 0x662; 0x663; 0x664; 0x665; 0x666;
                    0x667; 0x668; 0x669]).
  { assert (E : c = 0x660 + (c - 0x660)) by lia. rewrite E.
    destruct (c - 0x660) as [|p] eqn:D; [simpl; tauto|].
    assert (Hp : (p <= 9)%positive) by lia.
    do 4 (destruct p; try lia; try (simpl; tauto)). }
  simpl in H.
  repeat (destruct H as [<-|H]; [split; vm_compute; tauto|]). destruct H.
Qed.

(** [standardize] leaves a code point alone or puts a plain one in. *)
Lemma standardize_plain c : standardize c = c \/ plain (standardize c).
Proof.
  destruct (standardize_cases c)
    as [[_ ->]|[[_ ->]|[[_ ->]|[[Hr ->]|[_ ->]]]]]; auto;
    right; apply plain_listed.
  1-3: vm_compute; tauto.
  apply in_or_app. left.
  apply digit_range in Hr. destruct Hr as [_ Hr].
  revert Hr. generalize (c - 0x660 + 0x30). intros n. vm_compute. tauto.
Qed.

Lemma standardize_isspace c :
  c = 0x20 \/ isspace c = false ->
  isspace (standardize c) = true -> isspace c = true /\ standardize c = 0x20.
Proof.
  intros [->|Hc] Hs.
  - rewrite standardize_space in *. auto.
  - destruct (standardize_plain c) as [E|[_ [_ E]]]; congruence.
Qed.

Lemma squeezed_elements s c :
  In c (squeezed s) ->
  c = 0x20
  \/ (decomposition c = [c] /\ combining c = 0 /\ isspace c = false).
Proof.
  unfold squeezed. intros H.
  destruct (strip_segment
              (squeeze false (filter starter (flat_map decomposition s))))
    as [p [q E]].
  assert (H' : In c (squeeze false (filter starter (flat_map decomposition s)))).
  { rewrite E. apply in_or_app. right. apply in_or_app. left. exact H. }
  apply squeeze_elements in H'. destruct H' as [->|[H' Hs]]; [auto|].
  right. apply filter_In in H'. destruct H' as [H' Hc].
  apply in_flat_map in H'. destruct H' as [x [_ Hx]].
  split; [eapply decomposition_full; eauto|].
  split; [apply N.eqb_eq; exact Hc | exact Hs].
Qed.

Lemma squeezed_spaced_once s : spaced_once (squeezed s).
Proof.
  unfold squeezed.
  destruct (strip_segment
              (squeeze false (filter starter (flat_map decomposition s))))
    as [p [q E]].
  intros a x y b Ea Hx Hy.
  apply (squeeze_spaced_once (filter starter (flat_map decomposition s))
           (p ++ a) x y (b ++ q)); auto.
  rewrite E, Ea, <- !app_assoc. reflexivity.
Qed.

Lemma squeezed_space_or_not s c :
  In c (squeezed s) -> c = 0x20 \/ isspace c = false.
Proof. intros H. apply squeezed_elements in H. tauto. Qed.

(** The five properties of a normalized text. *)
Lemma normalized_stable s :
  Forall (fun c => decomposition c = [c] /\ combining c = 0) (normalize_text s).
Proof.
  rewrite normalize_text_eq. apply Forall_forall. intros c' H.
  apply in_map_iff in H. destruct H as [c [<- H]].
  apply squeezed_elements in H.
  destruct (standardize_plain c) as [->|[E1 [E2 _]]]; [|auto].
  destruct H as [->|H]; [apply (space_stable P facts) | tauto].
Qed.

Lemma normalized_spaces s :
  Forall (fun c => isspace c = true -> c = 0x20) (normalize_text s).
Proof.
  rewrite normalize_text_eq. apply Forall_forall. intros c' H.
  apply in_map_iff in H. destruct H as [c [<- H]].
  intros Hs. apply standardize_isspace in Hs; [tauto|].
  eapply squeezed_space_or_not; eauto.
Qed.

Lemma normalized_spaced_once s : spaced_once (normalize_text s).
Proof.
  rewrite normalize_text_eq. fold (squeezed s).
  intros a x y b E Hx Hy.
  apply map_eq_app in E. destruct E as [a0 [r0 [Eu [_ E]]]].
  apply map_eq_cons in E. destruct E as [x0 [r1 [-> [Ex E]]]].
  apply map_eq_cons in E. destruct E as [y0 [b0 [-> [Ey _]]]].
  subst x y.
  assert (Hx0 : In x0 (squeezed s))
    by (rewrite Eu; apply in_or_app; right; left; reflexivity).
  assert (Hy0 : In y0 (squeezed s))
    by (rewrite Eu; apply in_or_app; right; right; left; reflexivity).
  apply standardize_isspace in Hx; [|eapply squeezed_space_or_not; eauto].
  apply standardize_isspace in Hy; [|eapply squeezed_space_or_not; eauto].
  apply (squeezed_spaced_once s a0 x0 y0 b0 Eu); tauto.
Qed.

Lemma normalized_trimmed s : trimmed (normalize_text s).
Proof.
  rewrite normalize_text_eq. fold (squeezed s).
  destruct (strip_trimmed
              (squeeze false (filter starter (flat_map decomposition s))))
    as [Hh Hl].
  fold (squeezed s) in Hh, Hl.
  assert (K : forall c, In c (squeezed s) -> isspace c = false ->
                        isspace (standardize c) = false).
  { intros c Hin Hc. destruct (isspace (standardize c)) eqn:E; [|reflexivity].
    apply standardize_isspace in E; [|auto]. destruct E; congruence. }
  split.
  - intros c t E. apply map_eq_cons in E.
    destruct E as [c0 [t0 [Eu [<- _]]]].
    apply K; [rewrite Eu; left; reflexivity | eapply Hh; eauto].
  - intros t c E. apply map_eq_app in E.
    destruct E as [t0 [r0 [Eu [_ E]]]].
    apply map_eq_cons in E. destruct E as [c0 [r1 [-> [<- E]]]].
    apply map_eq_nil in E. subst r1.
    apply K; [rewrite Eu; apply in_or_app; right; left; reflexivity
             | eapply Hl; eauto].
Qed.

Lemma normalized_standard s :
  Forall (fun c => standardize c = c) (normalize_text s).
Proof.
  rewrite normalize_text_eq. apply Forall_forall. intros c' H.
  apply in_map_iff in H. destruct H as [c [<- _]].
  apply standardize_idempotent.
Qed.

(** A text with the five properties is its own normal form. *)
Lemma normalize_text_fixed t :
  Forall (fun c => decomposition c = [c] /\ combining c = 0) t ->
  Forall (fun c => isspace c = true -> c = 0x20) t ->
  spaced_once t -> trimmed t ->
  Forall (fun c => standardize c = c) t ->
  normalize_text t = t.
Proof.
  intros H1 H2 H3 H4 H5. rewrite normalize_text_eq.
  rewrite flat_map_fixed
    by (eapply Forall_impl; [|exact H1]; simpl; tauto).
  rewrite filter_fixed
    by (eapply Forall_impl; [|exact H1]; unfold starter; simpl;
        intros a [_ Ha]; rewrite Ha; reflexivity).
  rewrite squeeze_fixed; auto; [|discriminate].
  rewrite strip_fixed by exact H4.
  rewrite <- (map_id t) at 2. apply map_ext_in.
  rewrite Forall_forall in H5. exact H5.
Qed.

(** What is left of a code point whose decomposition has one starter
    that is no white space. *)
Lemma normalize_text_keeps s1 c s2 e :
  filter starter (decomposition c) = [e] -> isspace e = false ->
  exists a b, normalize_text (s1 ++ c :: s2) = a ++ standardize e :: b.
Proof.
  intros Hd He. rewrite normalize_text_eq.
  rewrite flat_map_app. cbn [flat_map].
  rewrite !filter_app, Hd. cbn [app].
  rewrite squeeze_split by exact He.
  destruct (strip_split e
              (squeeze false (filter starter (flat_map decomposition s1)))
              (squeeze false (filter starter (flat_map decomposition s2))) He)
    as [a [b ->]].
  rewrite map_app. cbn [map]. eauto.
Qed.

Lemma plain_keeps c : plain c -> filter starter (decomposition c) = [c].
Proof.
  intros [Hd [Hc _]]. rewrite Hd. simpl. unfold starter. rewrite Hc.
  reflexivity.
Qed.

End WithFacts.
End NormalFormLemmas.

(** ** The reference platform has the facts *)

Lemma assoc_in {A} k (l : list (cp * A)) v :
  Re.assoc k l = Some v -> In (k, v) l.
Proof.
  induction l as [|[k' v'] l IH]; simpl; [discriminate|].
  destruct (N.eqb_spec k k') as [->|_].
  - intros [= ->]. left. reflexivity.
  - intros H. right. apply IH. exact H.
Qed.

Lemma reference_decomposition_full c d :
  In d (Reference.ref_decomposition c) -> Reference.ref_decomposition d = [d].
Proof.
  unfold Reference.ref_decomposition at 1.
  destruct (Re.assoc c Reference.decomposition_table) as [l|] eqn:E.
  - apply assoc_in in E. revert d.
    assert (H : Forall (fun kv => Forall (fun d =>
                   Reference.ref_decomposition d = [d]) (snd kv))
                  Reference.decomposition_table)
      by (vm_compute; repeat constructor).
    rewrite Forall_forall in H. specialize (H _ E). simpl in H.
    rewrite Forall_forall in H. exact H.
  - intros [<-|[]]. unfold Reference.ref_decomposition. rewrite E. reflexivity.
Qed.

Lemma reference_teh_marbuta : teh_marbuta_caseless Reference.platform.
Proof.
  intros c. change (@lower Reference.platform c) with (Reference.ref_lower c).
  change (chr "ة") with 0x0629. unfold Reference.ref_lower.
  destruct (N.leb_spec 0x41 c), (N.leb_spec c 0x5A); simpl; try lia;
  destruct (N.leb_spec 0xC0 c), (N.leb_spec c 0xDE), (N.eqb_spec c 0xD7);
    simpl; try lia;
  destruct (N.eqb_spec c 0x130), (N.eqb_spec c 0x212A), (N.eqb_spec c 0x212B);
    simpl; lia.
Qed.

Lemma reference_facts : unicode_facts Reference.platform.
Proof.
  constructor.
  - exact reference_decomposition_full.
  - split; reflexivity.
  - apply Forall_forall. intros c Hc. vm_compute in Hc.
    repeat (destruct Hc as [<-|Hc]; [repeat split; vm_compute; reflexivity|]).
    destruct Hc.
  - reflexivity.
  - reflexivity.
  - reflexivity.
  - repeat constructor; vm_compute; discriminate.
Qed.

(** ** [normalize_text] *)

(** C8: [normalize_text] is idempotent. *)
Theorem normalize_text_idempotent (P : Platform) (s : str) :
  unicode_facts P ->
  normalize_text (normalize_text s) = normalize_text s.
Proof.
  intros facts. apply normalize_text_fixed.
  - apply normalized_stable; exact facts.
  - apply normalized_spaces; exact facts.
  - apply normalized_spaced_once; exact facts.
  - apply normalized_trimmed; exact facts.
  - apply normalized_standard.
Qed.

Lemma normalize_text_idempotent_witness :
  unicode_facts Reference.platform
  /\ @normalize_text Reference.platform
       (@normalize_text Reference.platform
          (utf8 "  Né  le ١٢/٠٥/١٩٩٠   بِطَاقَة   أحمد "))
     = @normalize_text Reference.platform
         (utf8 "  Né  le ١٢/٠٥/١٩٩٠   بِطَاقَة   أحمد ").
Proof.
  split; [exact reference_facts|].
  apply (normalize_text_idempotent Reference.platform
           (utf8 "  Né  le ١٢/٠٥/١٩٩٠   بِطَاقَة   أحمد ")).
  exact reference_facts.
Defined.

(** C9, as the code has it: a normalized text holds no code point of a
    non-zero combining class, which is what the code tests, no two white
    space code points in a row, no white space at either end, and none of
    the Arabic-indic digits and legacy letterforms; an Arabic-indic digit
    of the input appears as its Western counterpart, an alef with madda or
    hamza as alef, teh marbuta as heh, alef maksura as yeh.  A mark of
    class 0 is kept. *)
Theorem normalize_text_invariants (P : Platform) (text : str) :
  unicode_facts P ->
  Forall (fun c => combining c = 0) (normalize_text text)
  /\ spaced_once (normalize_text text)
  /\ trimmed (normalize_text text)
  /\ Forall (fun c => ~ In c (utf8 "٠١٢٣٤٥٦٧٨٩" ++ utf8 "أإآةى"))
            (normalize_text text)
  /\ (forall a d b,
        text = a ++ d :: b -> 0x0660 <= d <= 0x0669 ->
        exists a' b', normalize_text text = a' ++ (d - 0x0660 + 0x30) :: b')
  /\ (forall a c b,
        text = a ++ c :: b -> In c (utf8 "أإآ") ->
        exists a' b', normalize_text text = a' ++ chr "ا" :: b')
  /\ (forall a b,
        text = a ++ chr "ة" :: b ->
        exists a' b', normalize_text text = a' ++ chr "ه" :: b')
  /\ (forall a b,
        text = a ++ chr "ى" :: b ->
        exists a' b', normalize_text text = a' ++ chr "ي" :: b').
Proof.
  intros facts.
  split; [|split; [|split; [|split; [|split; [|split; [|split]]]]]].
  - eapply Forall_impl; [|apply normalized_stable; exact facts].
    simpl. tauto.
  - apply normalized_spaced_once; exact facts.
  - apply normalized_trimmed; exact facts.
  - eapply Forall_impl; [|apply normalized_standard].
    intros c Hc Hin. simpl in Hin.
    repeat (destruct Hin as [<-|Hin]; [vm_compute in Hc; discriminate|]).
    destruct Hin.
  - intros a d b -> Hd.
    destruct (digit_range d Hd) as [H1 _].
    assert (Hp : plain d)
      by (apply plain_listed; [exact facts|];
          apply in_or_app; right; right; right; exact H1).
    destruct (normalize_text_keeps a d b d (plain_keeps d Hp)
                (proj2 (proj2 Hp))) as [a' [b' E]].
    exists a', b'. rewrite E.
    destruct (standardize_cases d)
      as [[H _]|[[H _]|[[H _]|[[_ ->]|[H _]]]]]; try reflexivity; exfalso.
    + revert H1 H. clear. vm_compute. intuition (subst; discriminate).
    + revert H1 H. clear. vm_compute. intuition (subst; discriminate).
    + revert H1 H. clear. vm_compute. intuition (subst; discriminate).
    + apply H. revert H1. clear. rewrite arabic_chars_eq. vm_compute.
      intuition (subst; tauto).
  - intros a c b -> Hc.
    assert (Hp : plain (chr "ا"))
      by (apply plain_listed; [exact facts|]; vm_compute; tauto).
    assert (Hk : filter starter (decomposition c) = [chr "ا"]).
    { pose proof (marks_combine P facts) as Hm.
      rewrite Forall_forall in Hm.
      assert (Hs : starter (chr "ا") = true)
        by (unfold starter; rewrite (proj1 (proj2 Hp)); reflexivity).
      assert (Hn : forall m, In m [0x0653; 0x0654; 0x0655] ->
                             starter m = false).
      { intros m Hin. apply Hm in Hin. unfold starter.
        apply N.eqb_neq. exact Hin. }
      pose proof (alef_hamza_above P facts) as Ha.
      pose proof (alef_hamza_below P facts) as Hb.
      pose proof (alef_madda P facts) as Hc'.
      change (chr "أ") with 0x0623 in Ha. change (chr "إ") with 0x0625 in Hb.
      change (chr "آ") with 0x0622 in Hc'.
      simpl in Hc. destruct Hc as [<-|[<-|[<-|[]]]];
        [rewrite Ha | rewrite Hb | rewrite Hc']; cbn [filter];
        rewrite Hs, Hn by (simpl; tauto); reflexivity. }
    destruct (normalize_text_keeps a c b _ Hk (proj2 (proj2 Hp)))
      as [a' [b' E]].
    exists a', b'. rewrite E. reflexivity.
  - intros a b ->.
    assert (Hp : plain (chr "ة"))
      by (apply plain_listed; [exact facts|]; vm_compute; tauto).
    destruct (normalize_text_keeps a _ b _ (plain_keeps _ Hp)
                (proj2 (proj2 Hp))) as [a' [b' E]].
    exists a', b'. rewrite E. reflexivity.
  - intros a b ->.
    assert (Hp : plain (chr "ى"))
      by (apply plain_listed; [exact facts|]; vm_compute; tauto).
    destruct (normalize_text_keeps a _ b _ (plain_keeps _ Hp)
                (proj2 (proj2 Hp))) as [a' [b' E]].
    exists a', b'. rewrite E. reflexivity.
Qed.

(** ** Boilerplate removal after normalization *)

Section DeadPatterns.
Context {P : Platform}.
Import Re ReFacts.

Lemma flat_map_nil {A B} (f : A -> list B) l :
  (forall e, In e l -> f e = []) -> flat_map f l = [].
Proof.
  induction l as [|a l IH]; intros H; simpl; [reflexivity|].
  rewrite (H a) by (left; reflexivity). apply IH.
  intros e He. apply H. right. exact He.
Qed.

(** A pattern that requires a literal finds nothing in a text without
    it. *)
Lemma matches_requires ic x r :
  requires x r = true ->
  forall caps prev s,
    Forall (fun c => set_matches ic [Ch x] c = false) s ->
    matches ic r caps prev s = [].
Proof.
  induction r as [|a|lo hi a| |r1 IH1 r2 IH2|r1 IH1 r2 IH2|n r1 IH1];
    cbn [requires matches]; try discriminate.
  - destruct a as [|[y| | |] [|]]; try discriminate.
    intros Hy caps prev s Hs. apply N.eqb_eq in Hy. subst y.
    destruct s as [|c s]; [reflexivity|].
    inversion_clear Hs as [|? ? Hc _]. rewrite Hc. reflexivity.
  - intros Hr caps prev s Hs. apply orb_true_iff in Hr.
    destruct Hr as [Hr|Hr].
    + rewrite (IH1 Hr). reflexivity. exact Hs.
    + apply flat_map_nil. intros e He. apply IH2; [exact Hr|].
      apply ReLemmas.matches_suffix in He. destruct He as [p Ep].
      rewrite Ep in Hs. apply Forall_app in Hs. tauto.
  - intros Hr caps prev s Hs. apply andb_true_iff in Hr.
    destruct Hr as [H1 H2]. rewrite IH1, IH2; auto.
  - intros Hr caps prev s Hs. rewrite IH1; auto.
Qed.

Lemma sub_nothing_found ic r repl (Q : cp -> Prop) :
  (forall caps prev s, Forall Q s -> matches ic r caps prev s = []) ->
  forall s prev, Forall Q s -> sub_from ic r repl 0 prev s = s.
Proof.
  intros Hr. induction s as [|c s IH]; intros prev Hs; cbn [sub_from].
  - rewrite Hr by exact Hs. reflexivity.
  - rewrite Hr by exact Hs. f_equal. apply IH.
    inversion Hs; assumption.
Qed.

(** Deleting matches keeps code points of the text only. *)
Lemma sub_delete_elements ic r (Q : cp -> Prop) s :
  forall skip prev, Forall Q s -> Forall Q (sub_from ic r [] skip prev s).
Proof.
  induction s as [|c s IH]; intros skip prev Hs; cbn [sub_from].
  - destruct skip; [destruct (matches ic r [] prev [])|]; constructor.
  - inversion_clear Hs as [|? ? Hc Hs'].
    destruct skip as [|k]; [|apply IH; exact Hs'].
    destruct (matches ic r [] prev (c :: s)) as [|[[caps p] rest] l].
    + constructor; [exact Hc | apply IH; exact Hs'].
    + destruct (length (c :: s) - length rest)%nat; cbn [app].
      * constructor; [exact Hc | apply IH; exact Hs'].
      * apply IH; exact Hs'.
Qed.

Hypothesis facts : unicode_facts P.
Hypothesis caseless : teh_marbuta_caseless P.

Lemma teh_marbuta_only c :
  c <> chr "ة" -> set_matches true [Ch (chr "ة")] c = false.
Proof.
  intros Hc. unfold set_matches, item_matches, folded_eq. simpl existsb.
  rewrite orb_false_r.
  rewrite (proj2 (caseless (chr "ة")) eq_refl).
  change (extra_cases (chr "ة")) with (@nil cp). simpl existsb.
  rewrite orb_false_r. apply N.eqb_neq. intros E.
  apply (proj1 (caseless c)) in E. contradiction.
Qed.

Lemma normalized_without_teh_marbuta text :
  Forall (fun c => set_matches true [Ch (chr "ة")] c = false)
         (normalize_text text).
Proof.
  eapply Forall_impl; [|apply normalized_standard].
  intros c Hc. apply teh_marbuta_only. intros ->.
  vm_compute in Hc. discriminate.
Qed.

(** In [extract] only the first pattern of [patterns_to_remove] can find
    anything. *)
Lemma cleaned_eq text :
  cleaned text
  = strip (sub true (nth 0 patterns_to_remove Eps) [] (normalize_text text)).
Proof.
  unfold cleaned, clean_irrelevant_lines, patterns_to_remove.
  cbn [fold_left nth]. f_equal.
  set (Q := fun c => set_matches true [Ch (chr "ة")] c = false).
  assert (H : Forall Q (sub true
     (Group 1 (Alt (lit "ROYAUME DU MAROC") (lit "CARTE NATIONALE D'IDENTITE")))
     [] (normalize_text text))).
  { apply sub_delete_elements, normalized_without_teh_marbuta. }
  unfold sub at 1.
  rewrite (sub_nothing_found true _ [] Q);
    [|intros caps prev s Hs; apply (matches_requires true (chr "ة"));
      [reflexivity | exact Hs]|].
  - unfold sub at 1.
    rewrite (sub_nothing_found true _ [] Q); [reflexivity| |exact H].
    intros caps prev s Hs. apply (matches_requires true (chr "ة"));
      [reflexivity | exact Hs].
  - unfold sub at 1.
    rewrite (sub_nothing_found true _ [] Q); [exact H| |exact H].
    intros caps prev s Hs. apply (matches_requires true (chr "ة"));
      [reflexivity | exact Hs].
Qed.

End DeadPatterns.

(** C5: applied to a text as it is, the removal deletes the header
    phrases of both languages and the corrupted "valid until" fragment,
    whatever the case.  In [extract] the text is normalized first, and no
    normalized text holds a teh marbuta: there only the French headers are
    ever deleted, and the fragment and the Arabic headers stay in the
    cleaned text. *)
Theorem arabic_boilerplate_stays :
  (forall (P : Platform) (text : str),
      unicode_facts P -> teh_marbuta_caseless P ->
      cleaned text
      = strip (Re.sub true (nth 0 patterns_to_remove Eps) []
                      (normalize_text text)))
  /\ @clean_irrelevant_lines Reference.platform (utf8 "الحة إلى غَاية 12.2030") = []
  /\ @cleaned Reference.platform (utf8 "الحة إلى غَاية 12.2030") = utf8 "الحه الي غايه 12.2030"
  /\ @clean_irrelevant_lines Reference.platform (utf8 "المملكة المغربية AB123456")
     = utf8 "AB123456"
  /\ @cleaned Reference.platform (utf8 "المملكة المغربية AB123456")
     = utf8 "المملكه المغربيه AB123456"
  /\ @cleaned Reference.platform (utf8 "Royaume du Maroc AB123456")
     = utf8 "AB123456".
Proof.
  split; [intros P text facts caseless; apply cleaned_eq; assumption|].
  repeat split; vm_compute; reflexivity.
Qed.

Lemma arabic_boilerplate_stays_witness :
  unicode_facts Reference.platform
  /\ teh_marbuta_caseless Reference.platform
  /\ @cleaned Reference.platform (utf8 "الحة إلى غَاية 12.2030")
     = @strip Reference.platform
         (@Re.sub Reference.platform true (nth 0 patterns_to_remove Eps) []
                     (@normalize_text Reference.platform (utf8 "الحة إلى غَاية 12.2030"))).
Proof.
  split; [exact reference_facts|]. split; [exact reference_teh_marbuta|].
  apply (proj1 arabic_boilerplate_stays Reference.platform (utf8 "الحة إلى غَاية 12.2030")).
  - exact reference_facts.
  - exact reference_teh_marbuta.
Defined.

(** ** The ID-number rule *)

Section IdRule.
Context {P : Platform}.
Variables a d : cset.

Lemma rule_match_inside c s pos :
  is_word c = true -> Forall (fun x => is_word x = true) s ->
  match_at true (id_rule_shape a d) pos (Some c) s = None.
Proof.
  intros Hc Hs. unfold match_at, id_rule_shape, cat, exactly.
  cbn [matches fold_right word_before]. rewrite Hc.
  destruct s as [|x s].
  - reflexivity.
  - inversion_clear Hs as [|? ? Hx _]. cbn [word_after]. rewrite Hx.
    reflexivity.
Qed.

Lemma rule_not_inside s :
  forall c pos,
    is_word c = true -> Forall (fun x => is_word x = true) s ->
    search_from true (id_rule_shape a d) pos (Some c) s = None.
Proof.
  induction s as [|x s IH]; intros c pos Hc Hs; cbn [search_from];
    rewrite rule_match_inside by assumption; [reflexivity|].
  inversion_clear Hs as [|? ? Hx Hs']. apply IH; assumption.
Qed.

Lemma rule_at_start token :
  Forall (fun x => is_word x = true) token ->
  match_at true (id_rule_shape a d) 0 None token
  = if id_token (set_matches true a) (set_matches true d) token
    then Some {| m_start := 0; m_whole := token; m_groups := [] |}
    else None.
Proof.
  intros Hw. unfold match_at, id_rule_shape, cat, exactly, id_token.
  destruct token as [|c0 [|c1 [|c2 [|c3 [|c4 [|c5 [|c6 [|c7 [|c8 rest]]]]]]]]].
  all: repeat match goal with
       | H : Forall _ (_ :: _) |- _ => inversion_clear H
       end.
  all: repeat (cbn -[is_word set_matches];
               repeat match goal with
               | H : is_word ?c = true |- context [is_word ?c] => rewrite H
               | H : set_matches true ?x ?c = _
                 |- context [set_matches true ?x ?c] => rewrite H
               end;
               try match goal with
               | |- context [set_matches true ?x ?c] =>
                   destruct (set_matches true x c) eqn:?
               end).
  all: reflexivity.
Qed.

Lemma rule_finds token :
  Forall (fun x => is_word x = true) token ->
  match search true (id_rule_shape a d) token with
  | Some m => str_eqb (m_whole m) token
  | None => false
  end
  = id_token (set_matches true a) (set_matches true d) token.
Proof.
  intros Hw. unfold search.
  destruct token as [|c0 rest]; [reflexivity|].
  cbn [search_from]. rewrite rule_at_start by exact Hw.
  destruct (id_token _ _ (c0 :: rest)).
  - cbn [m_whole]. apply str_eqb_eq. reflexivity.
  - inversion_clear Hw as [|? ? H0 Hr].
    rewrite rule_not_inside by assumption. reflexivity.
Qed.

End IdRule.

Lemma in_code_range lo hi c : lo <= c <= hi -> In c (code_range lo hi).
Proof.
  intros H. unfold code_range. apply in_map_iff.
  exists (N.to_nat c). split; [apply N2Nat.id|].
  apply in_seq. lia.
Qed.

Lemma reference_letters c :
  ascii_isupper c || ascii_islower c = true ->
  @set_matches Reference.platform true [A_Z] c = true.
Proof.
  intros H.
  assert (Hin : In c (code_range 0x41 0x5A ++ code_range 0x61 0x7A)).
  { apply in_or_app. unfold ascii_isupper, ascii_islower in H.
    apply orb_true_iff in H.
    destruct H as [H|H]; apply andb_true_iff in H;
      rewrite !N.leb_le in H; [left|right]; apply in_code_range; lia. }
  clear H. revert c Hin. apply forallb_forall. vm_compute. reflexivity.
Qed.

Lemma folded_eq_cases {P : Platform} lc x :
  folded_eq lc x = true -> In lc (lower x :: extra_cases (lower x)).
Proof.
  unfold folded_eq. intros H. apply orb_true_iff in H.
  destruct H as [H|H].
  - left. symmetry. apply N.eqb_eq. exact H.
  - right. apply existsb_exists in H. destruct H as [y [Hy E]].
    apply N.eqb_eq in E. subst y. exact Hy.
Qed.

Lemma reference_lower_inverse c k :
  Reference.ref_lower c = k ->
  (0x61 <= k <= 0x7A ->
   c = k \/ c = k - 32 \/ (k = 0x69 /\ c = 0x0130) \/ (k = 0x6B /\ c = 0x212A))
  /\ (k = 0x0131 \/ k = 0x017F -> c = k).
Proof.
  unfold Reference.ref_lower.
  destruct (N.leb_spec 0x41 c), (N.leb_spec c 0x5A); simpl; try lia;
  destruct (N.leb_spec 0xC0 c), (N.leb_spec c 0xDE), (N.eqb_spec c 0xD7);
    simpl; try lia;
  destruct (N.eqb_spec c 0x130), (N.eqb_spec c 0x212A), (N.eqb_spec c 0x212B);
    simpl; lia.
Qed.

(** On the reference platform the letters [[A-Z]] matches, case ignored,
    are the Latin letters of either case and the four code points that
    [re] folds to [i], [s] and [k]. *)
Lemma reference_letters_only c :
  @set_matches Reference.platform true [A_Z] c = true ->
  ascii_isupper c || ascii_islower c = true
  \/ In c [0x0130; 0x0131; 0x017F; 0x212A].
Proof.
  unfold set_matches, item_matches. cbn [existsb A_Z]. rewrite orb_false_r.
  intros H. apply existsb_exists in H. destruct H as [x [Hx H]].
  apply folded_eq_cases in H.
  assert (Hl : In (Reference.ref_lower c)
                  (flat_map (fun x => @lower Reference.platform x
                                      :: extra_cases (@lower Reference.platform x))
                            (code_range (chr "A") (chr "Z")))).
  { apply in_flat_map. exists x. split; assumption. }
  clear x Hx H.
  destruct (reference_lower_inverse c _ eq_refl) as [H1 H2].
  assert (Hk : 0x61 <= Reference.ref_lower c <= 0x7A
               \/ Reference.ref_lower c = 0x0131
               \/ Reference.ref_lower c = 0x017F).
  { revert Hl. generalize (Reference.ref_lower c). intros k.
    vm_compute. intuition (subst; auto; left; split; discriminate). }
  unfold ascii_isupper, ascii_islower.
  destruct Hk as [Hk|Hk].
  - destruct (H1 Hk) as [E|[E|[[_ E]|[_ E]]]].
    + left. apply orb_true_iff. right. apply andb_true_iff.
      rewrite !N.leb_le. lia.
    + left. apply orb_true_iff. left. apply andb_true_iff.
      rewrite !N.leb_le. lia.
    + right. rewrite E. simpl. tauto.
    + right. rewrite E. simpl. tauto.
  - right. rewrite (H2 Hk). destruct Hk as [->| ->]; simpl; tauto.
Qed.

Lemma reference_digits c :
  0x30 <= c <= 0x39 -> @set_matches Reference.platform true [Digit] c = true.
Proof.
  intros H. apply (in_code_range 0x30 0x39) in H.
  revert c H. apply forallb_forall. vm_compute. reflexivity.
Qed.

Lemma normalize_text_invariants_witness :
  unicode_facts Reference.platform
  /\ Forall (fun c => @combining Reference.platform c = 0)
            (@normalize_text Reference.platform (utf8 " أحمد  ٤٢ "))
  /\ @normalize_text Reference.platform (utf8 " أحمد  ٤٢ ") = utf8 "احمد 42".
Proof.
  split; [exact reference_facts|]. split; [|vm_compute; reflexivity].
  exact (proj1 (normalize_text_invariants Reference.platform
                  (utf8 " أحمد  ٤٢ ") reference_facts)).
Defined.

(** C9, as the specification words it, fails: the combining grapheme
    joiner U+034F and the enclosing circle U+20DD are combining marks of
    class 0, and [normalize_text] keeps them. *)
Lemma class_zero_marks_are_kept :
  @normalize_text Reference.platform [chr "a"; 0x034F] = [chr "a"; 0x034F]
  /\ in_diacritical_marks_block 0x034F = true
  /\ @combining Reference.platform 0x034F = 0
  /\ @normalize_text Reference.platform [chr "a"; 0x20DD] = [chr "a"; 0x20DD]
  /\ in_diacritical_marks_block 0x20DD = true
  /\ @combining Reference.platform 0x20DD = 0.
Proof. repeat split; vm_compute; reflexivity. Qed.

Lemma extract_returns_every_declared_key_witness :
  exists extracted,
    @extract Reference.platform (utf8 "random unrelated text")
    = Return extracted
    /\ Forall (fun k => exists v : option str, dict_get k extracted = Some v)
              declared_keys
    /\ (forall field declared,
          In (field, declared) (combine patterns declared_keys) ->
          @field_found Reference.platform
            (@cleaned Reference.platform (utf8 "random unrelated text"))
            (snd field) = false ->
          dict_get declared extracted = Some None).
Proof.
  exact (extract_returns_every_declared_key Reference.platform
           (utf8 "random unrelated text")).
Defined.

(** * More properties of the code *)

(** ** What a match consumes *)

Section Consumed.
Context {P : Platform}.
Variable ic : bool.

Lemma consumed_app p r : consumed (p ++ r) r = p.
Proof.
  unfold consumed. rewrite length_app, Nat.add_sub.
  rewrite firstn_app, Nat.sub_diag, firstn_all. simpl. apply app_nil_r.
Qed.

Lemma consumed_all s : consumed s [] = s.
Proof.
  rewrite <- (app_nil_r s) at 1. apply consumed_app.
Qed.

Lemma repeat_greedy_run a s :
  forall lo hi prev e,
    In e (repeat_greedy ic a lo hi prev s) ->
    exists p,
      s = p ++ snd e
      /\ Forall (fun c => set_matches ic a c = true) p
      /\ (lo <= length p)%nat
      /\ (forall h, hi = Some h -> (length p <= h)%nat).
Proof.
  induction s as [|c s IH]; intros lo hi prev e.
  - cbn [repeat_greedy]. destruct lo; [|intros []].
    intros [<-|[]]. exists []. repeat split; auto. intros h _. simpl. lia.
  - cbn [repeat_greedy].
    assert (Hstop : In e (match lo with O => [(prev, c :: s)] | S _ => [] end)
                    -> exists p,
                         c :: s = p ++ snd e
                         /\ Forall (fun c => set_matches ic a c = true) p
                         /\ (lo <= length p)%nat
                         /\ (forall h, hi = Some h -> (length p <= h)%nat)).
    { destruct lo; [|intros []]. intros [<-|[]]. exists [].
      repeat split; auto. intros h _. simpl. lia. }
    destruct (may_repeat hi) eqn:Hm; [|exact Hstop].
    destruct (set_matches ic a c) eqn:Hc; [|exact Hstop].
    cbn [andb]. rewrite in_app_iff. intros [H|H]; [|auto].
    apply IH in H. destruct H as [p [Ep [Fp [Lp Hp]]]].
    exists (c :: p). split; [rewrite Ep; reflexivity|].
    split; [constructor; assumption|]. split; [simpl; lia|].
    intros h ->. destruct h as [|h]; [discriminate|].
    simpl. specialize (Hp h eq_refl). lia.
Qed.

Lemma lookup_in name caps v : lookup name caps = Some v -> In (name, v) caps.
Proof.
  induction caps as [|[n w] caps IH]; simpl; [discriminate|].
  destruct (Nat.eqb_spec n name) as [->|_].
  - intros [= ->]. left. reflexivity.
  - intros H. right. apply IH. exact H.
Qed.

(** A group captured by a match is a piece of the text matched in. *)
Lemma matches_captures r :
  forall caps prev s e name v,
    In e (matches ic r caps prev s) -> In (name, v) (fst (fst e)) ->
    In (name, v) caps \/ piece_of v s.
Proof.
  induction r as [|a|lo hi a| |r1 IH1 r2 IH2|r1 IH1 r2 IH2|n r1 IH1];
    intros caps prev s e name v; cbn [matches].
  - intros [<-|[]]. auto.
  - destruct s as [|c s]; [intros []|].
    destruct (set_matches ic a c); [|intros []].
    intros [<-|[]]. auto.
  - rewrite in_map_iff. intros [e1 [<- _]]. auto.
  - destruct (xorb _ _); [|intros []].
    intros [<-|[]]. auto.
  - rewrite in_flat_map. intros [e1 [H1 H2]] Hv.
    destruct (IH2 _ _ _ _ _ _ H2 Hv) as [Hc|[x [y E]]].
    + apply (IH1 _ _ _ _ _ _ H1 Hc).
    + right. apply ReLemmas.matches_suffix in H1. destruct H1 as [p Ep].
      exists (p ++ x), y. rewrite Ep, E, <- app_assoc. reflexivity.
  - rewrite in_app_iff. intros [H|H]; eauto.
  - rewrite in_map_iff. intros [e1 [<- H]]. cbn [fst snd].
    intros [Hv|Hv].
    + right. injection Hv as _ <-.
      apply ReLemmas.matches_suffix in H. destruct H as [p Ep].
      exists [], (snd e1). rewrite Ep at 2. rewrite consumed_app.
      rewrite Ep at 1. reflexivity.
    + eauto.
Qed.

(** What [search] reports is one of the ways to match at some place of
    the text. *)
Lemma match_at_found r pos prev s m :
  match_at ic r pos prev s = Some m ->
  exists e,
    In e (matches ic r [] prev s)
    /\ m_whole m = consumed s (snd e) /\ m_groups m = fst (fst e).
Proof.
  unfold match_at.
  destruct (matches ic r [] prev s) as [|[[caps p] rest] l]; [discriminate|].
  intros [= <-]. exists (caps, p, rest). cbn. auto.
Qed.

Lemma search_from_found r s :
  forall pre pos prev m,
    search_from ic r pos prev s = Some m ->
    exists pre' s1 prev1 e,
      pre ++ s = pre' ++ s1
      /\ In e (matches ic r [] prev1 s1)
      /\ m_whole m = consumed s1 (snd e) /\ m_groups m = fst (fst e).
Proof.
  induction s as [|c s IH]; intros pre pos prev m; cbn [search_from].
  - destruct (match_at ic r pos prev []) eqn:E; [|discriminate].
    intros [= <-]. apply match_at_found in E. destruct E as [e He].
    exists pre, [], prev, e. auto.
  - destruct (match_at ic r pos prev (c :: s)) eqn:E.
    + intros [= <-]. apply match_at_found in E. destruct E as [e He].
      exists pre, (c :: s), prev, e. auto.
    + intros H. apply (IH (pre ++ [c])) in H.
      destruct H as [pre' [s1 [prev1 [e [E1 He]]]]].
      exists pre', s1, prev1, e. split; [|exact He].
      rewrite <- E1, <- app_assoc. reflexivity.
Qed.

(** The text found and the groups are pieces of the text. *)
Lemma search_pieces r text m :
  search ic r text = Some m ->
  piece_of (m_whole m) text
  /\ (forall name v, group m name = Some v -> piece_of v text).
Proof.
  intros H. apply (search_from_found r text []) in H.
  destruct H as [pre' [s1 [prev1 [e [E [He [Hw Hg]]]]]]]. simpl in E.
  pose proof (ReLemmas.matches_suffix ic r _ _ _ _ He) as [p Ep].
  split.
  - rewrite Hw. exists pre', (snd e).
    rewrite Ep at 1. rewrite consumed_app. rewrite E, Ep at 1. reflexivity.
  - intros name v Hv. unfold group in Hv. rewrite Hg in Hv.
    apply lookup_in in Hv.
    destruct (matches_captures r _ _ _ _ _ _ He Hv) as [[]|[x [y Ex]]].
    exists (pre' ++ x), y. rewrite E, Ex, <- app_assoc. reflexivity.
Qed.

(** A property of whatever a pattern can consume holds of what [search]
    finds. *)
Lemma search_whole r (Q : str -> Prop) text m :
  (forall prev s e, In e (matches ic r [] prev s) -> Q (consumed s (snd e))) ->
  search ic r text = Some m -> Q (m_whole m).
Proof.
  intros HQ H. apply (search_from_found r text []) in H.
  destruct H as [pre' [s1 [prev1 [e [_ [He [-> _]]]]]]]. eapply HQ; eauto.
Qed.

End Consumed.

(** ** Where the values of the result come from *)

Section Provenance.
Context {P : Platform}.

Lemma extract_field_provenance text d entry d' :
  extract_field text d entry = Return d' ->
  d' = d
  \/ exists v,
       d' = dict_set (result_key (fst entry)) v d
       /\ (forall w, v = Some w -> stored_from text entry w).
Proof.
  unfold extract_field, stored_from. destruct entry as [key [r|langs]];
    cbn [fst snd].
  - destruct (search true r text) as [m|]; intros [= <-]; [|auto].
    right. eexists. split; [reflexivity|]. intros w [= <-]. eauto.
  - destruct (first_language text langs) as [m|]; [|intros [= <-]; auto].
    change (str_eqb key (utf8 "birth_date") || str_eqb key (utf8 "expiry_date"))
      with (is_date_key key).
    destruct (is_date_key key).
    + destruct (group m 1) as [s|] eqn:G; cbn [parse_date_group].
      * destruct (parse_date s) as [r|e] eqn:E; cbn [bind]; [|discriminate].
        intros [= <-]. right. exists r. split; [reflexivity|].
        intros w ->. eauto.
      * cbn [bind]. intros [= <-]. right. exists None.
        split; [reflexivity | discriminate].
    + destruct (group m 1) as [s|] eqn:G; cbn [strip_group bind];
        [|discriminate].
      intros [= <-]. right. eexists. split; [reflexivity|].
      intros w [= <-]. eauto.
Qed.

Lemma extract_fields_provenance text entries :
  forall d d',
    extract_fields text d entries = Return d' ->
    forall k w,
      dict_get k d' = Some (Some w) ->
      dict_get k d = Some (Some w)
      \/ exists entry,
           In entry entries /\ result_key (fst entry) = k
           /\ stored_from text entry w.
Proof.
  induction entries as [|entry entries IH]; intros d d'; cbn [extract_fields].
  - intros [= <-]. auto.
  - destruct (extract_field text d entry) as [d1|e] eqn:E1; cbn [bind];
      [|discriminate].
    intros E k w Hk.
    destruct (IH _ _ E k w Hk) as [H1|[entry' [Hin H']]].
    + apply extract_field_provenance in E1.
      destruct E1 as [->|[v [-> Hv]]]; [auto|].
      destruct (list_eq_dec N.eq_dec k (result_key (fst entry))) as [->|Hne].
      * rewrite dict_get_set_same in H1. injection H1 as ->.
        right. exists entry. split; [left; reflexivity|]. auto.
      * rewrite dict_get_set_other in H1 by exact Hne. auto.
    + right. exists entry'. split; [right; exact Hin | exact H'].
Qed.

Lemma extract_provenance text extracted k w :
  extract text = Return extracted ->
  dict_get k extracted = Some (Some w) ->
  exists entry,
    In entry patterns /\ result_key (fst entry) = k
    /\ stored_from (cleaned text) entry w.
Proof.
  unfold extract. intros E Hk.
  destruct (extract_fields_provenance _ _ _ _ E k w Hk) as [H|H]; [|exact H].
  exfalso. revert H. clear. cbn [dict_get].
  repeat match goal with
         | |- context [if ?b then _ else _] => destruct b
         end; discriminate.
Qed.

End Provenance.

(** ** What [extract] stores *)



Lemma piece_of_trans a b c : piece_of a b -> piece_of b c -> piece_of a c.
Proof.
  intros [x [y ->]] [x' [y' ->]]. exists (x' ++ x), (y ++ y').
  rewrite <- !app_assoc. reflexivity.
Qed.

Lemma strip_piece {P : Platform} s : piece_of (strip s) s.
Proof. destruct (strip_segment s) as [p [q E]]. exists p, q. exact E. Qed.

(** X2: a value that [extract] stores under ['Cin Number'], ['Name'] or
    ['Birth Place'] is a piece of the cleaned text, taken as it stands
    there, without white space at either end. *)
Theorem stored_text_is_a_trimmed_piece (P : Platform) (text : str)
    (extracted : dict (option str)) (k w : str) :
  extract text = Return extracted ->
  In k [utf8 "Cin Number"; utf8 "Name"; utf8 "Birth Place"] ->
  dict_get k extracted = Some (Some w) ->
  piece_of w (cleaned text) /\ trimmed w.
Proof.
  intros E Hk Hw.
  destruct (extract_provenance _ _ _ _ E Hw) as [entry [Hin [Hr Hs]]].
  assert (Hd : exists s, piece_of s (cleaned text) /\ w = strip s).
  { unfold patterns in Hin. cbn [In] in Hin. cbn [In] in Hk.
    destruct Hk as [<-|[<-|[<-|[]]]];
    destruct Hin as [<-|[<-|[<-|[<-|[<-|[]]]]]];
      try (vm_compute in Hr; discriminate);
      unfold stored_from in Hs; cbn [fst snd] in Hs.
    - destruct Hs as [m [Hm ->]]. exists (m_whole m). split; [|reflexivity].
      apply (search_pieces true _ _ _ Hm).
    - destruct Hs as [m [s [Hm [Hg Hs']]]]. exists s. split; [|exact Hs'].
      cbn [first_language] in Hm.
      repeat match type of Hm with
             | match search true ?r ?t with _ => _ end = _ =>
                 let F := fresh "F" in
                 destruct (search true r t) as [m'|] eqn:F;
                 [injection Hm as ->;
                  exact (proj2 (search_pieces true _ _ _ F) _ _ Hg)|]
             end.
      discriminate.
    - destruct Hs as [m [s [Hm [Hg Hs']]]]. exists s. split; [|exact Hs'].
      cbn [first_language] in Hm.
      repeat match type of Hm with
             | match search true ?r ?t with _ => _ end = _ =>
                 let F := fresh "F" in
                 destruct (search true r t) as [m'|] eqn:F;
                 [injection Hm as ->;
                  exact (proj2 (search_pieces true _ _ _ F) _ _ Hg)|]
             end.
      discriminate. }
  destruct Hd as [s [Hp ->]]. split.
  - eapply piece_of_trans; [apply strip_piece | exact Hp].
  - apply strip_trimmed.
Qed.

Lemma stored_text_is_a_trimmed_piece_witness :
  piece_of (utf8 "AB123456")
           (@cleaned Reference.platform
              (utf8 "ROYAUME DU MAROC CARTE NATIONALE D'IDENTITE AB123456"))
  /\ @trimmed Reference.platform (utf8 "AB123456").
Proof.
  apply (stored_text_is_a_trimmed_piece Reference.platform
           (utf8 "ROYAUME DU MAROC CARTE NATIONALE D'IDENTITE AB123456")
           [ (utf8 "CIN Number", None); (utf8 "Full Name", None);
             (utf8 "Date of Birth", None); (utf8 "Place of Birth", None);
             (utf8 "Expiry Date", None);
             (utf8 "Cin Number", Some (utf8 "AB123456"));
             (utf8 "Birth Place", Some (utf8 "B")) ]
           (utf8 "Cin Number") (utf8 "AB123456")).
  - vm_compute. reflexivity.
  - left. reflexivity.
  - vm_compute. reflexivity.
Defined.

(** ** The shape of an ID number found *)

Section IdShape.
Context {P : Platform}.
Variable ic : bool.
Variables a d : cset.

(** Whatever the rule consumes is one or two letters and six digits. *)
Lemma id_rule_consumes caps prev s e :
  In e (matches ic (id_rule_shape a d) caps prev s) ->
  exists l dd,
    consumed s (snd e) = l ++ dd
    /\ (1 <= length l <= 2)%nat
    /\ Forall (fun c => set_matches ic a c = true) l
    /\ length dd = 6%nat
    /\ Forall (fun c => set_matches ic d c = true) dd.
Proof.
  unfold id_rule_shape, cat, exactly. cbn [fold_right matches].
  intros H. apply in_flat_map in H. destruct H as [e0 [H0 H]].
  destruct (xorb (word_before prev) (word_after s)); [|destruct H0].
  destruct H0 as [<-|[]]. cbn [fst snd] in H.
  apply in_flat_map in H. destruct H as [e1 [H1 H]].
  apply in_map_iff in H1. destruct H1 as [g1 [<- G1]].
  apply repeat_greedy_run in G1. destruct G1 as [l [El [Fl [L1 L2]]]].
  cbn [fst snd] in H.
  apply in_flat_map in H. destruct H as [e2 [H2 H]].
  apply in_map_iff in H2. destruct H2 as [g2 [<- G2]].
  apply repeat_greedy_run in G2. destruct G2 as [dd [Ed [Fd [D1 D2]]]].
  cbn [fst snd] in H.
  apply in_flat_map in H. destruct H as [e3 [H3 H]].
  destruct (xorb _ _); [|destruct H3].
  destruct H3 as [<-|[]]. cbn [fst snd] in H. destruct H as [<-|[]].
  cbn [snd]. exists l, dd.
  specialize (L2 2%nat eq_refl). specialize (D2 6%nat eq_refl).
  split; [|repeat split; auto; lia].
  rewrite El, Ed, app_assoc. apply consumed_app.
Qed.

Lemma id_token_parts (f g : cp -> bool) l dd :
  (1 <= length l <= 2)%nat -> Forall (fun c => f c = true) l ->
  length dd = 6%nat -> Forall (fun c => g c = true) dd ->
  id_token f g (l ++ dd) = true.
Proof.
  intros Hl Fl Hd Fd. unfold id_token.
  rewrite length_app, Hd, Nat.add_sub.
  rewrite firstn_app, Nat.sub_diag, firstn_all, firstn_O, app_nil_r.
  rewrite skipn_app, Nat.sub_diag, skipn_all. cbn [skipn app].
  rewrite !andb_true_iff. repeat split.
  - apply Nat.leb_le. lia.
  - apply Nat.leb_le. lia.
  - apply forallb_forall. rewrite Forall_forall in Fl. exact Fl.
  - apply forallb_forall. rewrite Forall_forall in Fd. exact Fd.
Qed.

(** Such a token has no white space at its ends when letters and digits
    are no white space. *)
Lemma parts_trimmed l dd :
  (forall c, isspace c = true ->
             set_matches ic a c = false /\ set_matches ic d c = false) ->
  (1 <= length l)%nat -> Forall (fun c => set_matches ic a c = true) l ->
  length dd = 6%nat -> Forall (fun c => set_matches ic d c = true) dd ->
  trimmed (l ++ dd).
Proof.
  intros Hs Hl Fl Hd Fd.
  assert (Ka : forall c, set_matches ic a c = true -> isspace c = false).
  { intros c Hc. destruct (isspace c) eqn:E; [|reflexivity].
    destruct (Hs c E) as [H _]. congruence. }
  assert (Kd : forall c, set_matches ic d c = true -> isspace c = false).
  { intros c Hc. destruct (isspace c) eqn:E; [|reflexivity].
    destruct (Hs c E) as [_ H]. congruence. }
  split.
  - intros c t E. destruct l as [|x l]; [simpl in Hl; lia|].
    injection E as <- _. apply Ka. inversion Fl; assumption.
  - intros t c E.
    destruct (rev dd) as [|y r] eqn:R.
    { apply (f_equal (@length cp)) in R. rewrite length_rev, Hd in R.
      discriminate. }
    apply (f_equal (@rev cp)) in R. rewrite rev_involutive in R.
    cbn [rev] in R. subst dd. rewrite app_assoc in E.
    apply app_inj_tail in E. destruct E as [_ <-].
    apply Kd. rewrite Forall_forall in Fd. apply Fd.
    apply in_or_app. right. left. reflexivity.
Qed.

End IdShape.

(** X3: whatever the text, a value that [extract] stores under
    ['Cin Number'] is a piece of the cleaned text made of one or two
    letters of [A-Z], case ignored, and exactly six decimal digits. *)
Theorem stored_id_has_the_shape (P : Platform) (text : str)
    (extracted : dict (option str)) (w : str) :
  spaces_apart P ->
  extract text = Return extracted ->
  dict_get (utf8 "Cin Number") extracted = Some (Some w) ->
  id_token (set_matches true [A_Z]) (set_matches true [Digit]) w = true
  /\ piece_of w (cleaned text).
Proof.
  intros Hs E Hw.
  destruct (extract_provenance _ _ _ _ E Hw) as [entry [Hin [Hr Hst]]].
  unfold patterns in Hin. cbn [In] in Hin.
  destruct Hin as [<-|[<-|[<-|[<-|[<-|[]]]]]];
    try (vm_compute in Hr; discriminate).
  unfold stored_from in Hst. cbn [fst snd] in Hst.
  destruct Hst as [m [Hm ->]].
  pose proof (proj1 (search_pieces true _ _ _ Hm)) as Hp.
  apply (search_from_found true _ _ []) in Hm.
  destruct Hm as [pre' [s1 [prev1 [e [_ [He [Hwh _]]]]]]].
  change cin_number_pattern with (id_rule_shape [A_Z] [Digit]) in He.
  apply id_rule_consumes in He.
  destruct He as [l [dd [Ec [Hl [Fl [Hd Fd]]]]]].
  rewrite Hwh, Ec in *.
  rewrite strip_fixed.
  - split; [apply id_token_parts; assumption | exact Hp].
  - apply (parts_trimmed true [A_Z] [Digit]); try assumption; [|lia].
    intros c Hc. specialize (Hs c Hc). unfold set_matches in *.
    cbn [existsb] in *. rewrite !orb_false_iff in *. tauto.
Qed.

Lemma reference_spaces_apart : spaces_apart Reference.platform.
Proof.
  intros c Hc.
  change (@isspace Reference.platform c) with (Reference.ref_isspace c) in Hc.
  unfold Reference.ref_isspace in Hc. apply existsb_exists in Hc.
  destruct Hc as [x [Hx E]]. apply N.eqb_eq in E. subst x.
  revert c Hx. apply Forall_forall.
  unfold Reference.space_table.
  repeat (constructor; [vm_compute; reflexivity|]). constructor.
Qed.

Lemma stored_id_has_the_shape_witness :
  spaces_apart Reference.platform
  /\ id_token (@set_matches Reference.platform true [A_Z])
              (@set_matches Reference.platform true [Digit])
              (utf8 "ab123456") = true
  /\ piece_of (utf8 "ab123456")
              (@cleaned Reference.platform (utf8 "n° ab123456, Rabat")).
Proof.
  split; [exact reference_spaces_apart|].
  apply (stored_id_has_the_shape Reference.platform
           (utf8 "n° ab123456, Rabat")
           [ (utf8 "CIN Number", None); (utf8 "Full Name", None);
             (utf8 "Date of Birth", None); (utf8 "Place of Birth", None);
             (utf8 "Expiry Date", None);
             (utf8 "Cin Number", Some (utf8 "ab123456"));
             (utf8 "Birth Place", Some (utf8 "b")) ]
           (utf8 "ab123456")).
  - exact reference_spaces_apart.
  - vm_compute. reflexivity.
  - vm_compute. reflexivity.
Defined.

(** ** Nothing found, nothing stored *)

Section NothingFound.
Context {P : Platform}.

Lemma extract_fields_nothing text entries :
  forall d,
    Forall (fun e => field_found text (snd e) = false) entries ->
    extract_fields text d entries = Return d.
Proof.
  induction entries as [|[key pats] entries IH]; intros d H;
    cbn [extract_fields]; [reflexivity|].
  inversion_clear H as [|? ? Hf Hr]. cbn [snd] in Hf.
  unfold extract_field. cbn [fst snd]. unfold field_found in Hf.
  destruct pats as [r|langs].
  - destruct (search true r text); [discriminate|]. cbn [bind]. auto.
  - destruct (first_language text langs); [discriminate|]. cbn [bind]. auto.
Qed.

Lemma nothing_in_the_empty_text :
  Forall (fun e => field_found [] (snd e) = false) patterns.
Proof. repeat constructor. Qed.

End NothingFound.

(** X4: when no pattern of any field is found in the cleaned text, the
    result of [extract] is exactly the five declared keys, each bound to
    [None]; so it is when the cleaned text is empty. *)
Theorem nothing_found_all_absent (P : Platform) (text : str) :
  cleaned text = []
  \/ Forall (fun e => field_found (cleaned text) (snd e) = false) patterns ->
  extract text = Return all_absent.
Proof.
  intros H. unfold extract. fold (cleaned text).
  apply extract_fields_nothing.
  destruct H as [->|H]; [apply nothing_in_the_empty_text | exact H].
Qed.

Lemma nothing_found_all_absent_witness :
  @extract Reference.platform (utf8 "  ROYAUME DU MAROC ") = Return all_absent
  /\ @extract Reference.platform (utf8 "random unrelated text")
     = Return all_absent.
Proof.
  split.
  - apply (nothing_found_all_absent Reference.platform). left.
    vm_compute. reflexivity.
  - apply (nothing_found_all_absent Reference.platform). right.
    repeat (constructor; [vm_compute; reflexivity|]). constructor.
Defined.

(** ** The Arabic expiry rule *)

Section ExpiryRule.
Context {P : Platform}.
Hypothesis facts : unicode_facts P.
Hypothesis caseless : teh_marbuta_caseless P.

Lemma search_requires ic x r text :
  ReFacts.requires x r = true ->
  Forall (fun c => set_matches ic [Ch x] c = false) text ->
  search ic r text = None.
Proof.
  intros Hr. unfold search. generalize 0%nat, (@None cp).
  induction text as [|c text IH]; intros pos prev Ht; cbn [search_from];
    unfold match_at; rewrite (matches_requires ic x r Hr) by exact Ht.
  - reflexivity.
  - apply IH. inversion Ht; assumption.
Qed.

Lemma cleaned_without_teh_marbuta text :
  Forall (fun c => set_matches true [Ch (chr "ة")] c = false) (cleaned text).
Proof.
  rewrite cleaned_eq by assumption.
  set (u := sub true _ [] _).
  assert (Hu : Forall (fun c => set_matches true [Ch (chr "ة")] c = false) u).
  { apply sub_delete_elements, normalized_without_teh_marbuta; assumption. }
  destruct (strip_segment u) as [p [q E]]. rewrite E in Hu.
  apply Forall_app in Hu. destruct Hu as [_ Hu].
  apply Forall_app in Hu. tauto.
Qed.

End ExpiryRule.

(** X5: in [extract] the Arabic pattern of ['expiry_date'] is never
    found, since it holds a teh marbuta and the cleaned text holds none:
    an expiry date is stored only when the French pattern is found, and
    it is the date of that match. *)
Theorem expiry_date_comes_from_the_french_rule (P : Platform) (text : str) :
  unicode_facts P -> teh_marbuta_caseless P ->
  search true (pattern_of "expiry_date" "ar") (cleaned text) = None
  /\ (forall extracted w,
        extract text = Return extracted ->
        dict_get (utf8 "Expiry Date") extracted = Some (Some w) ->
        exists m s,
          search true (pattern_of "expiry_date" "fr") (cleaned text) = Some m
          /\ group m 1 = Some s
          /\ parse_date s = Return (Some w)).
Proof.
  intros facts caseless.
  assert (Har : search true (pattern_of "expiry_date" "ar") (cleaned text)
                = None).
  { apply (search_requires true (chr "ة")); [reflexivity|].
    apply cleaned_without_teh_marbuta; assumption. }
  split; [exact Har|].
  intros extracted w E Hw.
  destruct (extract_provenance _ _ _ _ E Hw) as [entry [Hin [Hr Hst]]].
  unfold patterns in Hin. cbn [In] in Hin.
  destruct Hin as [<-|[<-|[<-|[<-|[<-|[]]]]]];
    try (vm_compute in Hr; discriminate).
  unfold stored_from in Hst. cbn [fst snd] in Hst.
  destruct Hst as [m [s [Hm [Hg Hs]]]].
  exists m, s. split; [|split; assumption].
  cbn [first_language] in Hm.
  change (pattern_of "expiry_date" "fr")
    with (cat [ lit "Valable"; star [Space]; lit "jusqu'au"; star [Space];
                Group 1 date_token ]).
  destruct (search true (cat [ lit "Valable"; star [Space]; lit "jusqu'au";
                               star [Space]; Group 1 date_token ])
                   (cleaned text)) as [m'|]; [exact Hm|].
  change (search true (pattern_of "expiry_date" "ar") (cleaned text)
          = None) in Har.
  exfalso. revert Hm.
  match goal with
  | |- match ?x with _ => _ end = _ -> _ =>
      change x with (search true (pattern_of "expiry_date" "ar") (cleaned text))
  end.
  rewrite Har. discriminate.
Qed.

Lemma expiry_date_comes_from_the_french_rule_witness :
  unicode_facts Reference.platform /\ teh_marbuta_caseless Reference.platform
  /\ @search Reference.platform true (pattern_of "expiry_date" "ar")
       (@cleaned Reference.platform (utf8 "صالحة إلى غاية 12.05.2030"))
     = None.
Proof.
  split; [exact reference_facts|]. split; [exact reference_teh_marbuta|].
  exact (proj1 (expiry_date_comes_from_the_french_rule Reference.platform
                  (utf8 "صالحة إلى غاية 12.05.2030")
                  reference_facts reference_teh_marbuta)).
Defined.

(** ** Patterns in sequence *)

Section Sequences.
Context {P : Platform}.
Variable ic : bool.

Lemma matches_seq r1 r2 caps prev s :
  matches ic (Seq r1 r2) caps prev s
  = flat_map (fun e => matches ic r2 (fst (fst e)) (snd (fst e)) (snd e))
             (matches ic r1 caps prev s).
Proof. reflexivity. Qed.

Lemma matches_one_hit a K caps prev c s :
  set_matches ic a c = true ->
  matches ic (Seq (One a) K) caps prev (c :: s) = matches ic K caps (Some c) s.
Proof.
  intros H. cbn [matches]. rewrite H. cbn [flat_map fst snd]. apply app_nil_r.
Qed.

Lemma matches_one_miss a K caps prev c s :
  set_matches ic a c = false ->
  matches ic (Seq (One a) K) caps prev (c :: s) = [].
Proof. intros H. cbn [matches]. rewrite H. reflexivity. Qed.

Lemma matches_lit_hit a K caps prev c s :
  set_matches ic a c = true ->
  matches ic (Seq (Seq (One a) Eps) K) caps prev (c :: s)
  = matches ic K caps (Some c) s.
Proof.
  intros H. rewrite matches_seq, (matches_one_hit a Eps) by exact H.
  cbn [matches flat_map fst snd]. apply app_nil_r.
Qed.

End Sequences.

(** What the parts of a pattern consume. *)
Section Parts.
Context {P : Platform}.
Variable ic : bool.

Lemma seq_in r1 r2 caps prev s e :
  In e (matches ic (Seq r1 r2) caps prev s) ->
  exists e1,
    In e1 (matches ic r1 caps prev s)
    /\ In e (matches ic r2 (fst (fst e1)) (snd (fst e1)) (snd e1)).
Proof. cbn [matches]. intros H. apply in_flat_map in H. exact H. Qed.

Lemma times_in lo hi a caps prev s e :
  In e (matches ic (Times lo hi a) caps prev s) ->
  exists p,
    s = p ++ snd e
    /\ Forall (fun c => set_matches ic a c = true) p
    /\ (lo <= length p)%nat
    /\ (forall h, hi = Some h -> (length p <= h)%nat).
Proof.
  cbn [matches]. intros H. apply in_map_iff in H. destruct H as [g [<- G]].
  apply (repeat_greedy_run ic) in G. exact G.
Qed.

Lemma one_in a caps prev s e :
  In e (matches ic (One a) caps prev s) ->
  exists c, s = c :: snd e /\ set_matches ic a c = true.
Proof.
  cbn [matches]. destruct s as [|c s]; [intros []|].
  destruct (set_matches ic a c) eqn:E; [|intros []].
  intros [<-|[]]. exists c. auto.
Qed.

Lemma eps_in caps prev s e : In e (matches ic Eps caps prev s) -> snd e = s.
Proof. cbn [matches]. intros [<-|[]]. reflexivity. Qed.

End Parts.

(** ** Dates in digits

    [parse_date] on the tokens that the date patterns of [extract] hand
    over when their digits are ASCII: two, two and four digits, and on
    its own results, evaluated on the reference platform. *)

Lemma below_cases j n : j < n -> In j (map N.of_nat (seq 0 (N.to_nat n))).
Proof.
  intros H. apply in_map_iff. exists (N.to_nat j). split; [lia|].
  apply in_seq. lia.
Qed.

Lemma below_forallb (f : N -> bool) n :
  forallb f (map N.of_nat (seq 0 (N.to_nat n))) = true ->
  forall k, k < n -> f k = true.
Proof.
  intros H k Hk. rewrite forallb_forall in H. apply H, below_cases, Hk.
Qed.

Section ReferenceDates.
Local Existing Instance Reference.platform.

Lemma digit_cases (Q : cp -> Prop) :
  Forall Q (map (fun j => d0 + N.of_nat j) (seq 0 10)) -> forall k, Q (digit k).
Proof.
  intros H k. rewrite Forall_forall in H. apply H. unfold digit.
  apply in_map_iff. exists (N.to_nat (k mod 10)).
  split; [rewrite N2Nat.id; reflexivity|].
  apply in_seq.
  assert (H10 : k mod 10 < 10) by (apply N.mod_lt; discriminate).
  set (j := k mod 10) in *. clearbody j. lia.
Qed.

Lemma digit_is_digit k : set_matches true [Digit] (digit k) = true.
Proof.
  apply digit_cases. repeat (constructor; [vm_compute; reflexivity|]).
  constructor.
Qed.

Lemma digit_not_slash k : set_matches true [Ch slash] (digit k) = false.
Proof.
  apply digit_cases. repeat (constructor; [vm_compute; reflexivity|]).
  constructor.
Qed.

Lemma digit_as_slash k : as_slash (digit k) = digit k.
Proof.
  apply digit_cases. repeat (constructor; [vm_compute; reflexivity|]).
  constructor.
Qed.

Lemma slash_is_slash : set_matches true [Ch slash] slash = true.
Proof. vm_compute. reflexivity. Qed.

Lemma slash_no_digit : set_matches true [Digit] slash = false.
Proof. vm_compute. reflexivity. Qed.

Lemma int_two_digits a : a < 100 -> int (two_digits a) = Return a.
Proof.
  intros H.
  assert (K : match int (two_digits a) with
              | Return n => n =? a
              | Raise _ => false
              end = true).
  { revert a H. apply (below_forallb _ 100). vm_compute. reflexivity. }
  destruct (int (two_digits a)); [|discriminate].
  apply N.eqb_eq in K. subst. reflexivity.
Qed.

Lemma int_four_digits y : y < 10000 -> int (four_digits y) = Return y.
Proof.
  intros H.
  assert (K : match int (four_digits y) with
              | Return n => n =? y
              | Raise _ => false
              end = true).
  { revert y H. apply (below_forallb _ 10000). vm_compute. reflexivity. }
  destruct (int (four_digits y)); [|discriminate].
  apply N.eqb_eq in K. subst. reflexivity.
Qed.

(** The ways [%d] and [%m] match at two digits: both digits when the
    number is in range, and the first digit alone when it is not [0]. *)
Lemma day_field a caps prev rest :
  a < 100 ->
  matches true (directive_re "d") caps prev (two_digits a ++ rest)
  = field_ways g_d (day_in_range a) a caps rest.
Proof.
  intros H. unfold field_ways.
  rewrite <- (consumed_app (two_digits a) rest) at 2.
  rewrite <- (consumed_app [digit (a / 10)] (digit a :: rest)) at 1.
  apply (below_cases a 100) in H. vm_compute in H.
  repeat (destruct H as [<-|H]; [vm_compute; reflexivity|]). destruct H.
Qed.

Lemma month_field a caps prev rest :
  a < 100 ->
  matches true (directive_re "m") caps prev (two_digits a ++ rest)
  = field_ways g_m (month_in_range a) a caps rest.
Proof.
  intros H. unfold field_ways.
  rewrite <- (consumed_app (two_digits a) rest) at 2.
  rewrite <- (consumed_app [digit (a / 10)] (digit a :: rest)) at 1.
  apply (below_cases a 100) in H. vm_compute in H.
  repeat (destruct H as [<-|H]; [vm_compute; reflexivity|]). destruct H.
Qed.

Lemma year_field y caps prev rest :
  matches true (directive_re "Y") caps prev (four_digits y ++ rest)
  = [((g_Y, four_digits y) :: caps, Some (digit y), rest)].
Proof.
  rewrite <- (consumed_app (four_digits y) rest) at 2.
  change (directive_re "Y")
    with (Group g_Y (Seq (One [Digit]) (Seq (One [Digit])
                      (Seq (One [Digit]) (Seq (One [Digit]) Eps))))).
  cbn [matches]. unfold four_digits. cbn [app].
  rewrite !digit_is_digit. cbn [flat_map map app fst snd].
  rewrite !digit_is_digit. cbn [flat_map map app fst snd].
  rewrite !digit_is_digit. cbn [flat_map map app fst snd].
  rewrite !digit_is_digit. cbn [flat_map map app fst snd].
  reflexivity.
Qed.

Lemma year_then K y caps prev rest :
  matches true (Seq (directive_re "Y") K) caps prev (four_digits y ++ rest)
  = matches true K ((g_Y, four_digits y) :: caps) (Some (digit y)) rest.
Proof.
  rewrite matches_seq, year_field. cbn [flat_map fst snd]. apply app_nil_r.
Qed.

(** [%Y] does not match where one of the first four code points is [/]. *)
Lemma year_misses K c1 c2 caps prev rest :
  matches true (Seq (directive_re "Y") K) caps prev (c1 :: c2 :: slash :: rest)
  = [].
Proof.
  rewrite matches_seq.
  change (directive_re "Y")
    with (Group g_Y (Seq (One [Digit]) (Seq (One [Digit])
                      (Seq (One [Digit]) (Seq (One [Digit]) Eps))))).
  cbn [matches].
  destruct (set_matches true [Digit] c1); [|reflexivity].
  cbn [flat_map map app fst snd].
  destruct (set_matches true [Digit] c2); [|reflexivity].
  cbn [flat_map map app fst snd].
  rewrite slash_no_digit. reflexivity.
Qed.

Section Field.
Variables (r : regex) (name : nat) (in_range : N -> bool).
Hypothesis ways :
  forall a caps prev rest,
    a < 100 ->
    matches true r caps prev (two_digits a ++ rest)
    = field_ways name (in_range a) a caps rest.

Lemma field_then_slash K a caps prev rest :
  a < 100 ->
  matches true (Seq r (Seq (One [Ch slash]) K)) caps prev
          (two_digits a ++ slash :: rest)
  = if in_range a
    then matches true K ((name, two_digits a) :: caps) (Some slash) rest
    else [].
Proof.
  intros H. rewrite (matches_seq true r), ways by exact H. unfold field_ways.
  destruct (in_range a), (10 <=? a); cbn [app flat_map fst snd];
    rewrite ?(matches_one_hit true [Ch slash]) by apply slash_is_slash;
    rewrite ?(matches_one_miss true [Ch slash]) by apply digit_not_slash;
    rewrite ?app_nil_r; reflexivity.
Qed.

Lemma field_then_digit K a x caps prev rest :
  a < 100 ->
  matches true (Seq r (Seq (One [Ch slash]) K)) caps prev
          (two_digits a ++ digit x :: rest)
  = [].
Proof.
  intros H. rewrite (matches_seq true r), ways by exact H. unfold field_ways.
  destruct (in_range a), (10 <=? a); cbn [app flat_map fst snd];
    rewrite ?(matches_one_miss true [Ch slash]) by apply digit_not_slash;
    reflexivity.
Qed.

Lemma field_at_end a caps prev :
  a < 100 ->
  matches true (Seq r Eps) caps prev (two_digits a)
  = field_ways name (in_range a) a caps [].
Proof.
  intros H. rewrite <- (app_nil_r (two_digits a)) at 1.
  rewrite (matches_seq true r), ways by exact H. unfold field_ways.
  destruct (in_range a), (10 <=? a); reflexivity.
Qed.

End Field.

Lemma format_dmy :
  format_regex (utf8 "%d/%m/%Y")
  = Some (Seq (directive_re "d") (Seq (One [Ch slash])
       (Seq (directive_re "m") (Seq (One [Ch slash])
          (Seq (directive_re "Y") Eps))))).
Proof. reflexivity. Qed.

Lemma format_ymd :
  format_regex (utf8 "%Y/%m/%d")
  = Some (Seq (directive_re "Y") (Seq (One [Ch slash])
       (Seq (directive_re "m") (Seq (One [Ch slash])
          (Seq (directive_re "d") Eps))))).
Proof. reflexivity. Qed.

Lemma format_mdy :
  format_regex (utf8 "%m/%d/%Y")
  = Some (Seq (directive_re "m") (Seq (One [Ch slash])
       (Seq (directive_re "d") (Seq (One [Ch slash])
          (Seq (directive_re "Y") Eps))))).
Proof. reflexivity. Qed.

Lemma valid_date_ranges y m d :
  valid_date y m d = true ->
  month_in_range m = true /\ day_in_range d = true /\ 1 <= y <= 9999.
Proof.
  unfold valid_date, month_in_range, day_in_range, days_in_month.
  rewrite !andb_true_iff, !N.leb_le.
  destruct (m =? 2); [destruct (is_leap y)|destruct (_ || _)]; lia.
Qed.

Lemma out_of_range_day y m d :
  day_in_range d = false -> valid_date y m d = false.
Proof.
  intros H. destruct (valid_date y m d) eqn:V; [|reflexivity].
  apply valid_date_ranges in V. destruct V as [_ [V _]]. congruence.
Qed.

Lemma out_of_range_month y m d :
  month_in_range m = false -> valid_date y m d = false.
Proof.
  intros H. destruct (valid_date y m d) eqn:V; [|reflexivity].
  apply valid_date_ranges in V. destruct V as [V _]. congruence.
Qed.

(** [strptime] on day/month/year digits *)
Lemma strptime_dmy a b y :
  a < 100 -> b < 100 -> y < 10000 ->
  strptime (token_2_2_4 a b y slash slash) (utf8 "%d/%m/%Y")
  = if valid_date y b a
    then Return {| year := y; month := b; day := a |}
    else Raise ValueError.
Proof.
  intros Ha Hb Hy. unfold strptime. rewrite format_dmy.
  unfold match_, match_at, token_2_2_4.
  rewrite (field_then_slash _ _ _ day_field) by exact Ha.
  destruct (day_in_range a) eqn:Da;
    [|rewrite out_of_range_day by exact Da; reflexivity].
  rewrite (field_then_slash _ _ _ month_field) by exact Hb.
  destruct (month_in_range b) eqn:Mb;
    [|rewrite out_of_range_month by exact Mb; reflexivity].
  rewrite <- (app_nil_r (four_digits y)) at 1.
  rewrite year_then. cbn [matches m_whole].
  rewrite consumed_all, Nat.eqb_refl. cbn [negb].
  unfold field, group. cbn [m_groups lookup Nat.eqb g_Y g_m g_d].
  rewrite int_four_digits, !int_two_digits by assumption.
  reflexivity.
Qed.

Lemma strptime_mdy a b y :
  a < 100 -> b < 100 -> y < 10000 ->
  strptime (token_2_2_4 a b y slash slash) (utf8 "%m/%d/%Y")
  = if valid_date y a b
    then Return {| year := y; month := a; day := b |}
    else Raise ValueError.
Proof.
  intros Ha Hb Hy. unfold strptime. rewrite format_mdy.
  unfold match_, match_at, token_2_2_4.
  rewrite (field_then_slash _ _ _ month_field) by exact Ha.
  destruct (month_in_range a) eqn:Ma;
    [|rewrite out_of_range_month by exact Ma; reflexivity].
  rewrite (field_then_slash _ _ _ day_field) by exact Hb.
  destruct (day_in_range b) eqn:Db;
    [|rewrite out_of_range_day by exact Db; reflexivity].
  rewrite <- (app_nil_r (four_digits y)) at 1.
  rewrite year_then. cbn [matches m_whole].
  rewrite consumed_all, Nat.eqb_refl. cbn [negb].
  unfold field, group. cbn [m_groups lookup Nat.eqb g_Y g_m g_d].
  rewrite int_four_digits, !int_two_digits by assumption.
  reflexivity.
Qed.

Lemma strptime_ymd_misses a b y :
  strptime (token_2_2_4 a b y slash slash) (utf8 "%Y/%m/%d")
  = Raise ValueError.
Proof.
  unfold strptime. rewrite format_ymd.
  unfold match_, match_at, token_2_2_4, two_digits. cbn [app].
  rewrite year_misses. reflexivity.
Qed.

Lemma as_slash_separator c : is_separator c -> as_slash c = slash.
Proof. intros [->|[->| ->]]; reflexivity. Qed.

Lemma token_2_2_4_slashes a b y sep1 sep2 :
  is_separator sep1 -> is_separator sep2 ->
  map as_slash (token_2_2_4 a b y sep1 sep2) = token_2_2_4 a b y slash slash.
Proof.
  intros H1 H2. unfold token_2_2_4, two_digits, four_digits.
  cbn [map app]. rewrite !digit_as_slash, !as_slash_separator by assumption.
  reflexivity.
Qed.

(** X6: on a token of two, two and four digits with [.], [/] or [-]
    between them, [parse_date] gives the date with the first number as the
    day and the second as the month when that is a date of the calendar,
    else the date with the first number as the month and the second as
    the day when that is one, else [None]; the layout with the year first
    never applies. *)
Theorem parse_date_two_two_four a b y sep1 sep2 :
  a < 100 -> b < 100 -> y < 10000 ->
  is_separator sep1 -> is_separator sep2 ->
  parse_date (token_2_2_4 a b y sep1 sep2)
  = Return (if valid_date y b a then Some (iso_date y b a)
            else if valid_date y a b then Some (iso_date y a b)
            else None).
Proof.
  intros Ha Hb Hy H1 H2. rewrite parse_date_eq.
  rewrite token_2_2_4_slashes by assumption.
  unfold first_layout.
  rewrite strptime_dmy, strptime_ymd_misses, strptime_mdy by assumption.
  unfold token_2_2_4 at 1, two_digits at 1. cbn [app].
  destruct (valid_date y b a); [reflexivity|].
  destruct (valid_date y a b); reflexivity.
Qed.

Lemma four_digits_split y :
  four_digits y = two_digits (y / 100) ++ [digit (y / 10); digit y].
Proof.
  unfold four_digits, two_digits. rewrite N.Div0.div_div. reflexivity.
Qed.

Lemma hundreds_below y : y < 10000 -> y / 100 < 100.
Proof. intros H. apply N.Div0.div_lt_upper_bound. lia. Qed.

Lemma strptime_dmy_misses y a b :
  y < 10000 ->
  strptime (token_4_2_2 y a b slash slash) (utf8 "%d/%m/%Y")
  = Raise ValueError.
Proof.
  intros Hy. unfold strptime. rewrite format_dmy.
  unfold match_, match_at, token_4_2_2.
  rewrite four_digits_split, <- app_assoc. cbn [app].
  rewrite (field_then_digit _ _ _ day_field) by apply hundreds_below, Hy.
  reflexivity.
Qed.

Lemma strptime_mdy_misses y a b :
  y < 10000 ->
  strptime (token_4_2_2 y a b slash slash) (utf8 "%m/%d/%Y")
  = Raise ValueError.
Proof.
  intros Hy. unfold strptime. rewrite format_mdy.
  unfold match_, match_at, token_4_2_2.
  rewrite four_digits_split, <- app_assoc. cbn [app].
  rewrite (field_then_digit _ _ _ month_field) by apply hundreds_below, Hy.
  reflexivity.
Qed.

Lemma strptime_ymd y a b :
  y < 10000 -> a < 100 -> b < 100 ->
  strptime (token_4_2_2 y a b slash slash) (utf8 "%Y/%m/%d")
  = if valid_date y a b
    then Return {| year := y; month := a; day := b |}
    else Raise ValueError.
Proof.
  intros Hy Ha Hb. unfold strptime. rewrite format_ymd.
  unfold match_, match_at, token_4_2_2.
  rewrite year_then.
  rewrite (matches_one_hit true [Ch slash]) by apply slash_is_slash.
  rewrite (field_then_slash _ _ _ month_field) by exact Ha.
  destruct (month_in_range a) eqn:Ma;
    [|rewrite out_of_range_month by exact Ma; reflexivity].
  rewrite (field_at_end _ _ _ day_field) by exact Hb. unfold field_ways.
  destruct (day_in_range b) eqn:Db.
  - cbn [app m_whole]. rewrite consumed_all, Nat.eqb_refl. cbn [negb].
    unfold field, group. cbn [m_groups lookup Nat.eqb g_Y g_m g_d].
    rewrite int_four_digits, !int_two_digits by assumption.
    reflexivity.
  - rewrite out_of_range_day by exact Db.
    destruct (10 <=? b); [|reflexivity].
    cbn [app m_whole]. unfold consumed, four_digits, two_digits.
    cbn [app length Nat.sub firstn Nat.eqb negb]. reflexivity.
Qed.

Lemma token_4_2_2_slashes y a b sep1 sep2 :
  is_separator sep1 -> is_separator sep2 ->
  map as_slash (token_4_2_2 y a b sep1 sep2) = token_4_2_2 y a b slash slash.
Proof.
  intros H1 H2. unfold token_4_2_2, two_digits, four_digits.
  cbn [map app]. rewrite !digit_as_slash, !as_slash_separator by assumption.
  reflexivity.
Qed.

(** X7: on a token of four, two and two digits with [.], [/] or [-]
    between them, [parse_date] gives the date with the year first when
    that is a date of the calendar, else [None]. *)
Theorem parse_date_four_two_two y a b sep1 sep2 :
  y < 10000 -> a < 100 -> b < 100 ->
  is_separator sep1 -> is_separator sep2 ->
  parse_date (token_4_2_2 y a b sep1 sep2)
  = Return (if valid_date y a b then Some (iso_date y a b) else None).
Proof.
  intros Hy Ha Hb H1 H2. rewrite parse_date_eq.
  rewrite token_4_2_2_slashes by assumption.
  unfold first_layout.
  rewrite strptime_dmy_misses, strptime_ymd, strptime_mdy_misses by assumption.
  unfold token_4_2_2 at 1, four_digits at 1. cbn [app].
  destruct (valid_date y a b); reflexivity.
Qed.

(** X8: [parse_date] leaves its own results as they are: a date it has
    returned is a token it reads as the same date (where [%Y] gives the
    year in four digits, as on the reference platform). *)
Theorem parse_date_keeps_its_results s v :
  parse_date s = Return (Some v) -> parse_date v = Return (Some v).
Proof.
  rewrite parse_date_eq. destruct s as [|c s]; [discriminate|].
  intros [= H].
  apply (first_layout_shape _ _ reference_year_as_documented) in H.
  destruct H as [y [m [d [V ->]]]].
  pose proof (valid_date_ranges _ _ _ V) as [Hm [Hd Hy]].
  unfold month_in_range, day_in_range in Hm, Hd.
  rewrite andb_true_iff, !N.leb_le in Hm, Hd.
  change (four_digits y ++ utf8 "-" ++ two_digits m ++ utf8 "-" ++ two_digits d)
    with (token_4_2_2 y m d (chr "-") (chr "-")).
  rewrite parse_date_eq, token_4_2_2_slashes by (unfold is_separator; auto).
  unfold first_layout.
  rewrite strptime_dmy_misses, strptime_ymd, strptime_mdy_misses by lia.
  rewrite V. reflexivity.
Qed.

End ReferenceDates.

Lemma parse_date_two_two_four_witness :
  @parse_date Reference.platform (utf8 "12-31.2020")
  = Return (Some (utf8 "2020-12-31")).
Proof.
  apply (parse_date_two_two_four 12 31 2020 (chr "-") (chr ".")).
  - reflexivity.
  - reflexivity.
  - reflexivity.
  - right. right. reflexivity.
  - left. reflexivity.
Defined.

Lemma parse_date_four_two_two_witness :
  @parse_date Reference.platform (utf8 "2020.02-29")
  = Return (Some (utf8 "2020-02-29")).
Proof.
  apply (parse_date_four_two_two 2020 2 29 (chr ".") (chr "-")).
  - reflexivity.
  - reflexivity.
  - reflexivity.
  - left. reflexivity.
  - right. right. reflexivity.
Defined.

Lemma parse_date_keeps_its_results_witness :
  @parse_date Reference.platform (utf8 "2021-05-12")
  = Return (Some (utf8 "2021-05-12")).
Proof.
  apply (parse_date_keeps_its_results (utf8 "12/05/2021")).
  vm_compute. reflexivity.
Defined.

(** ** Cleaning only deletes *)

Section OnlyDeletes.
Context {P : Platform}.

Lemma thinned_refl s : thinned s s.
Proof. induction s; constructor; assumption. Qed.

Lemma thinned_trans a b c : thinned a b -> thinned b c -> thinned a c.
Proof.
  intros Hab Hbc. revert a Hab.
  induction Hbc as [|x b c Hbc IH|x b c Hbc IH]; intros a Hab.
  - exact Hab.
  - inversion Hab; subst.
    + apply thinned_keep. auto.
    + apply thinned_drop. auto.
  - apply thinned_drop. auto.
Qed.

Lemma thinned_segment p s q : thinned s (p ++ s ++ q).
Proof.
  induction p as [|c p IH]; cbn [app]; [|apply thinned_drop, IH].
  induction s as [|c s IH]; cbn [app].
  - induction q; constructor; assumption.
  - apply thinned_keep, IH.
Qed.

Lemma strip_thinned s : thinned (strip s) s.
Proof.
  destruct (strip_segment s) as [p [q E]]. rewrite E at 2.
  apply thinned_segment.
Qed.

Lemma sub_thinned ic r s :
  forall skip prev, thinned (sub_from ic r [] skip prev s) s.
Proof.
  induction s as [|c s IH]; intros skip prev; cbn [sub_from].
  - destruct skip; [destruct (matches ic r [] prev [])|]; constructor.
  - destruct skip as [|k]; [|apply thinned_drop, IH].
    destruct (matches ic r [] prev (c :: s)) as [|[[caps p] rest] l].
    + apply thinned_keep, IH.
    + destruct (length (c :: s) - length rest)%nat; cbn [app].
      * apply thinned_keep, IH.
      * apply thinned_drop, IH.
Qed.

Lemma removals_thinned ic pats :
  forall text,
    thinned (fold_left (fun text pattern => sub ic pattern [] text) pats text)
            text.
Proof.
  induction pats as [|r pats IH]; intros text; cbn [fold_left].
  - apply thinned_refl.
  - eapply thinned_trans; [apply IH|]. apply sub_thinned.
Qed.

End OnlyDeletes.

(** X9: [clean_irrelevant_lines] only deletes: its result is the text with
    code points left out, none added, changed or moved, and it has no
    white space at its ends. *)
Theorem clean_irrelevant_lines_only_deletes (P : Platform) (text : str) :
  thinned (clean_irrelevant_lines text) text
  /\ trimmed (clean_irrelevant_lines text).
Proof.
  unfold clean_irrelevant_lines. split; [|apply strip_trimmed].
  eapply thinned_trans; [apply strip_thinned|]. apply removals_thinned.
Qed.

(** ** The texts that are normalized already *)

(** X10: [normalize_text] leaves a text as it is exactly when the text is
    decomposed and without marks, has U+0020 as its only white space,
    never twice in a row and not at its ends, and holds none of the code
    points that [arabic_chars] replaces. *)
Theorem normalize_text_fixed_points (P : Platform) (t : str) :
  unicode_facts P ->
  normalize_text t = t
  <-> (Forall (fun c => decomposition c = [c] /\ combining c = 0) t
       /\ Forall (fun c => isspace c = true -> c = 0x20) t
       /\ spaced_once t /\ trimmed t
       /\ Forall (fun c => ~ In c (utf8 "٠١٢٣٤٥٦٧٨٩" ++ utf8 "أإآةى")) t).
Proof.
  intros facts.
  assert (K : forall c,
             standardize c = c
             <-> ~ In c (utf8 "٠١٢٣٤٥٦٧٨٩" ++ utf8 "أإآةى")).
  { intros c. split.
    - intros E Hin. vm_compute in Hin.
      repeat (destruct Hin as [<-|Hin]; [vm_compute in E; discriminate|]).
      destruct Hin.
    - intros Hn.
      destruct (standardize_cases c)
        as [[Hc _]|[[Hc _]|[[Hc _]|[[Hc _]|[_ E]]]]]; [| | | |exact E];
        exfalso; apply Hn; apply in_or_app.
      + right. apply in_or_app with (l := utf8 "أإآ") (m := utf8 "ةى").
        left. exact Hc.
      + right. subst c. vm_compute. do 3 right. left. reflexivity.
      + right. subst c. vm_compute. do 4 right. left. reflexivity.
      + left. apply digit_range, Hc. }
  split.
  - intros E. rewrite <- E.
    split; [apply normalized_stable, facts|].
    split; [apply normalized_spaces, facts|].
    split; [apply normalized_spaced_once, facts|].
    split; [apply normalized_trimmed, facts|].
    eapply Forall_impl; [|apply normalized_standard].
    intros c. exact (proj1 (K c)).
  - intros [H1 [H2 [H3 [H4 H5]]]].
    apply normalize_text_fixed; try assumption.
    eapply Forall_impl; [|exact H5]. intros c. exact (proj2 (K c)).
Qed.

Lemma normalize_text_fixed_points_witness :
  unicode_facts Reference.platform
  /\ @normalize_text Reference.platform (utf8 "احمد 42") = utf8 "احمد 42".
Proof.
  split; [exact reference_facts|].
  apply (normalize_text_fixed_points Reference.platform (utf8 "احمد 42")
           reference_facts).
  split; [|split; [|split; [|split]]].
  - apply Forall_forall. intros c Hc. vm_compute in Hc.
    repeat (destruct Hc as [<-|Hc]; [vm_compute; auto|]). destruct Hc.
  - apply Forall_forall. intros c Hc. vm_compute in Hc.
    repeat (destruct Hc as [<-|Hc];
            [vm_compute; intros H; first [reflexivity | discriminate H]|]).
    destruct Hc.
  - apply no_space_pair_spaced_once. vm_compute.
    repeat split; intros; discriminate.
  - split.
    + intros c t [= <- _]. vm_compute. reflexivity.
    + intros t c H.
      change (utf8 "احمد 42") with (utf8 "احمد 4" ++ [chr "2"]) in H.
      apply app_inj_tail in H. destruct H as [_ <-]. vm_compute. reflexivity.
  - apply Forall_forall. intros c Hc. vm_compute in Hc.
    repeat (destruct Hc as [<-|Hc];
            [vm_compute; intros H;
             repeat (destruct H as [H|H]; [discriminate|]); destruct H|]).
    destruct Hc.
Defined.

(** ** [app.py]: what [parse_extracted_data] finds *)

Section AppFields.
Context {P : Platform}.

Lemma parse_extracted_data_eq text :
  App.parse_extracted_data text
  = {| App.names_of :=
         {| App.arabic :=
              option_map m_whole
                (search false (app_pattern "arabic_name") text);
            App.latin :=
              option_map m_whole
                (search false (app_pattern "latin_name") text) |};
       App.cin_number :=
         option_map m_whole (search false (app_pattern "cin_number") text);
       App.date_of_birth :=
         option_map m_whole (search false (app_pattern "date_of_birth") text);
       App.place_of_birth := None;
       App.expiry_date := None |}.
Proof.
  unfold App.parse_extracted_data.
  change App.patterns
    with [ (utf8 "cin_number", app_pattern "cin_number");
           (utf8 "date_of_birth", app_pattern "date_of_birth");
           (utf8 "latin_name", app_pattern "latin_name");
           (utf8 "arabic_name", app_pattern "arabic_name") ].
  cbn [fold_left fst snd].
  destruct (search false (app_pattern "cin_number") text);
    destruct (search false (app_pattern "date_of_birth") text);
    destruct (search false (app_pattern "latin_name") text);
    destruct (search false (app_pattern "arabic_name") text); reflexivity.
Qed.

Lemma upper_set c : set_matches false [A_Z] c = ascii_isupper c.
Proof.
  unfold set_matches. cbn [existsb item_matches A_Z]. apply orb_false_r.
Qed.

Lemma lower_set c : set_matches false [App.a_z] c = ascii_islower c.
Proof.
  unfold set_matches. cbn [existsb item_matches App.a_z]. apply orb_false_r.
Qed.

Lemma literal_set x c : set_matches false [Ch x] c = true -> c = x.
Proof.
  unfold set_matches. cbn [existsb item_matches]. rewrite orb_false_r.
  apply N.eqb_eq.
Qed.

Lemma arabic_or_space_set c :
  set_matches false [arabic_block; Space] c = in_arabic_block c || isspace c.
Proof.
  unfold set_matches. cbn [existsb item_matches arabic_block].
  rewrite orb_false_r. reflexivity.
Qed.

(** *** A run: [a+] *)

Lemma take_drop (f : cp -> bool) s : take_while f s ++ drop_while f s = s.
Proof.
  induction s as [|c s IH]; cbn [take_while drop_while]; [reflexivity|].
  destruct (f c); [cbn [app]; rewrite IH|]; reflexivity.
Qed.

Lemma greedy_longest ic a s :
  forall prev, exists p l,
    repeat_greedy ic a 0 None prev s
    = (p, drop_while (set_matches ic a) s) :: l.
Proof.
  induction s as [|c s IH]; intros prev; cbn [repeat_greedy drop_while].
  - eauto.
  - cbn [may_repeat andb]. destruct (set_matches ic a c); [|eauto].
    destruct (IH (Some c)) as [p [l E]]. cbn [pred option_map].
    rewrite E. cbn [app]. eauto.
Qed.

Lemma run_match_at ic a pos prev c s :
  match_at ic (plus a) pos prev (c :: s)
  = if set_matches ic a c
    then Some {| m_start := pos;
                 m_whole := c :: take_while (set_matches ic a) s;
                 m_groups := [] |}
    else None.
Proof.
  unfold match_at, plus. cbn [matches repeat_greedy may_repeat andb].
  destruct (set_matches ic a c); [|reflexivity].
  cbn [pred option_map].
  destruct (greedy_longest ic a s (Some c)) as [p [l E]].
  rewrite E. cbn [app map fst snd]. f_equal. f_equal.
  rewrite <- (take_drop (set_matches ic a) s) at 1.
  apply (consumed_app (c :: take_while (set_matches ic a) s)).
Qed.

Lemma run_search ic a s :
  forall pos prev,
    option_map m_whole (search_from ic (plus a) pos prev s)
    = first_run (set_matches ic a) s.
Proof.
  induction s as [|c s IH]; intros pos prev; cbn [search_from first_run].
  - reflexivity.
  - rewrite run_match_at. destruct (set_matches ic a c); [reflexivity|].
    apply IH.
Qed.

End AppFields.

Section Shapes.
Context {P : Platform}.

Lemma date_rule_consumes caps prev s e :
  In e (matches false (app_pattern "date_of_birth") caps prev s) ->
  exists d1 d2 d3 d4 d5 d6 d7 d8,
    consumed s (snd e) = [d1; d2; slash; d3; d4; slash; d5; d6; d7; d8]
    /\ Forall (fun c => set_matches false [Digit] c = true)
              [d1; d2; d3; d4; d5; d6; d7; d8].
Proof.
  change (app_pattern "date_of_birth")
    with (Seq (Times 2 (Some 2%nat) [Digit])
           (Seq (Seq (One [Ch slash]) Eps)
              (Seq (Times 2 (Some 2%nat) [Digit])
                 (Seq (Seq (One [Ch slash]) Eps)
                    (Seq (Times 4 (Some 4%nat) [Digit]) Eps))))).
  intros H.
  apply seq_in in H. destruct H as [e1 [H1 H]].
  apply times_in in H1. destruct H1 as [p1 [E1 [F1 [L1 U1]]]].
  apply seq_in in H. destruct H as [e2 [H2 H]].
  apply seq_in in H2. destruct H2 as [e2' [H2 H2']].
  apply one_in in H2. destruct H2 as [c1 [E2 C1]].
  apply eps_in in H2'.
  apply seq_in in H. destruct H as [e3 [H3 H]].
  apply times_in in H3. destruct H3 as [p2 [E3 [F2 [L2 U2]]]].
  apply seq_in in H. destruct H as [e4 [H4 H]].
  apply seq_in in H4. destruct H4 as [e4' [H4 H4']].
  apply one_in in H4. destruct H4 as [c2 [E4 C2]].
  apply eps_in in H4'.
  apply seq_in in H. destruct H as [e5 [H5 H]].
  apply times_in in H5. destruct H5 as [p3 [E5 [F3 [L3 U3]]]].
  apply eps_in in H.
  apply literal_set in C1, C2. subst c1 c2.
  specialize (U1 _ eq_refl). specialize (U2 _ eq_refl).
  specialize (U3 _ eq_refl).
  assert (Es : s = (p1 ++ slash :: p2 ++ slash :: p3) ++ snd e).
  { rewrite E1, E2, <- H2', E3, E4, <- H4', E5, H, <- !app_assoc.
    cbn [app]. rewrite <- !app_assoc. reflexivity. }
  rewrite Es, consumed_app.
  destruct p1 as [|d1 [|d2 [|? ?]]]; cbn [length] in L1, U1; try lia.
  destruct p2 as [|d3 [|d4 [|? ?]]]; cbn [length] in L2, U2; try lia.
  destruct p3 as [|d5 [|d6 [|d7 [|d8 [|? ?]]]]]; cbn [length] in L3, U3;
    try lia.
  exists d1, d2, d3, d4, d5, d6, d7, d8. split; [reflexivity|].
  inversion_clear F1 as [|? ? A1 F1']. inversion_clear F1' as [|? ? A2 _].
  inversion_clear F2 as [|? ? A3 F2']. inversion_clear F2' as [|? ? A4 _].
  inversion_clear F3 as [|? ? A5 F3']. inversion_clear F3' as [|? ? A6 F3].
  inversion_clear F3 as [|? ? A7 F3']. inversion_clear F3' as [|? ? A8 _].
  repeat constructor; assumption.
Qed.

Lemma latin_rule_consumes caps prev s e :
  In e (matches false (app_pattern "latin_name") caps prev s) ->
  exists u1 l1 u2 l2,
    consumed s (snd e) = u1 :: l1 ++ chr " " :: u2 :: l2
    /\ ascii_isupper u1 = true /\ l1 <> []
    /\ Forall (fun c => ascii_islower c = true) l1
    /\ ascii_isupper u2 = true /\ l2 <> []
    /\ Forall (fun c => ascii_islower c = true) l2.
Proof.
  change (app_pattern "latin_name")
    with (Seq (One [A_Z])
           (Seq (Times 1 None [App.a_z])
              (Seq (Seq (One [Ch (chr " ")]) Eps)
                 (Seq (One [A_Z]) (Seq (Times 1 None [App.a_z]) Eps))))).
  intros H.
  apply seq_in in H. destruct H as [e1 [H1 H]].
  apply one_in in H1. destruct H1 as [u1 [E1 U1]].
  apply seq_in in H. destruct H as [e2 [H2 H]].
  apply times_in in H2. destruct H2 as [l1 [E2 [F1 [L1 _]]]].
  apply seq_in in H. destruct H as [e3 [H3 H]].
  apply seq_in in H3. destruct H3 as [e3' [H3 H3']].
  apply one_in in H3. destruct H3 as [c [E3 C]].
  apply eps_in in H3'.
  apply seq_in in H. destruct H as [e4 [H4 H]].
  apply one_in in H4. destruct H4 as [u2 [E4 U2]].
  apply seq_in in H. destruct H as [e5 [H5 H]].
  apply times_in in H5. destruct H5 as [l2 [E5 [F2 [L2 _]]]].
  apply eps_in in H.
  apply literal_set in C. subst c.
  assert (Es : s = (u1 :: l1 ++ chr " " :: u2 :: l2) ++ snd e).
  { rewrite E1, E2, E3, <- H3', E4, E5, H. cbn [app].
    rewrite <- !app_assoc. reflexivity. }
  rewrite Es, consumed_app.
  exists u1, l1, u2, l2. rewrite upper_set in U1, U2.
  repeat split; try assumption.
  - intros ->. cbn [length] in L1. lia.
  - eapply Forall_impl; [|exact F1]. intros x Hx. rewrite <- lower_set.
    exact Hx.
  - intros ->. cbn [length] in L2. lia.
  - eapply Forall_impl; [|exact F2]. intros x Hx. rewrite <- lower_set.
    exact Hx.
Qed.

Lemma exactly_run ic a p :
  forall prev rest,
    Forall (fun c => set_matches ic a c = true) p ->
    repeat_greedy ic a (length p) (Some (length p)) prev (p ++ rest)
    = [(fold_left (fun _ c => Some c) p prev, rest)].
Proof.
  induction p as [|c p IH]; intros prev rest F; cbn [length app fold_left].
  - destruct rest; reflexivity.
  - inversion_clear F as [|? ? Hc F'].
    cbn [repeat_greedy may_repeat andb pred option_map]. rewrite Hc.
    rewrite IH by exact F'. reflexivity.
Qed.

Lemma exactly_then ic a K p caps prev rest :
  Forall (fun c => set_matches ic a c = true) p ->
  matches ic (Seq (exactly (length p) a) K) caps prev (p ++ rest)
  = matches ic K caps (fold_left (fun _ c => Some c) p prev) rest.
Proof.
  intros F. unfold exactly. cbn [matches]. rewrite exactly_run by exact F.
  cbn [map flat_map fst snd]. apply app_nil_r.
Qed.

End Shapes.

Section Found.
Context {P : Platform}.

Lemma search_consumes ic r (Q : str -> Prop) text m :
  (forall caps prev s e,
     In e (matches ic r caps prev s) -> Q (consumed s (snd e))) ->
  search ic r text = Some m -> Q (m_whole m) /\ piece_of (m_whole m) text.
Proof.
  intros HQ Hm. split; [|apply (search_pieces ic _ _ _ Hm)].
  apply (search_whole ic r Q text m); [|exact Hm].
  intros prev s e. apply HQ.
Qed.

Lemma date_rule_matches d1 d2 d3 d4 d5 d6 d7 d8 :
  Forall (fun c => set_matches false [Digit] c = true)
         [d1; d2; d3; d4; d5; d6; d7; d8] ->
  match_at false (app_pattern "date_of_birth") 0 None
           [d1; d2; slash; d3; d4; slash; d5; d6; d7; d8]
  = Some {| m_start := 0;
            m_whole := [d1; d2; slash; d3; d4; slash; d5; d6; d7; d8];
            m_groups := [] |}.
Proof.
  intros F.
  inversion_clear F as [|? ? A1 F1]. inversion_clear F1 as [|? ? A2 F].
  inversion_clear F as [|? ? A3 F1]. inversion_clear F1 as [|? ? A4 F].
  inversion_clear F as [|? ? A5 F1]. inversion_clear F1 as [|? ? A6 F].
  inversion_clear F as [|? ? A7 F1]. inversion_clear F1 as [|? ? A8 _].
  unfold match_at.
  change (app_pattern "date_of_birth")
    with (Seq (exactly (length [d1; d2]) [Digit])
           (Seq (Seq (One [Ch slash]) Eps)
              (Seq (exactly (length [d3; d4]) [Digit])
                 (Seq (Seq (One [Ch slash]) Eps)
                    (Seq (exactly (length [d5; d6; d7; d8]) [Digit]) Eps))))).
  assert (S : set_matches false [Ch slash] slash = true).
  { unfold set_matches. cbn [existsb item_matches].
    rewrite N.eqb_refl. reflexivity. }
  rewrite (exactly_then false [Digit] _ [d1; d2] [] None
             (slash :: d3 :: d4 :: slash :: [d5; d6; d7; d8]))
    by (repeat constructor; assumption).
  rewrite (matches_lit_hit false [Ch slash]) by exact S.
  rewrite (exactly_then false [Digit] _ [d3; d4] [] _
             (slash :: [d5; d6; d7; d8]))
    by (repeat constructor; assumption).
  rewrite (matches_lit_hit false [Ch slash]) by exact S.
  rewrite <- (app_nil_r [d5; d6; d7; d8]) at 1.
  rewrite (exactly_then false [Digit] Eps [d5; d6; d7; d8] [] _ [])
    by (repeat constructor; assumption).
  cbn [matches]. rewrite consumed_all. reflexivity.
Qed.

End Found.

(** X11: the ID number of [parse_extracted_data] is a piece of the text
    made of one or two capitals of [A-Z] and exactly six decimal digits:
    here the case counts. *)
Theorem app_id_number_is_uppercase (P : Platform) (text w : str) :
  App.cin_number (App.parse_extracted_data text) = Some w ->
  id_token ascii_isupper (set_matches false [Digit]) w = true
  /\ piece_of w text.
Proof.
  rewrite parse_extracted_data_eq. cbn [App.cin_number].
  destruct (search false (app_pattern "cin_number") text) as [m|] eqn:Hm;
    [|discriminate].
  intros [= <-].
  pose proof (proj1 (search_pieces false _ _ _ Hm)) as Hp.
  apply (search_from_found false _ _ []) in Hm.
  destruct Hm as [pre' [s1 [prev1 [e [_ [He [Hwh _]]]]]]].
  change (app_pattern "cin_number") with (id_rule_shape [A_Z] [Digit]) in He.
  apply id_rule_consumes in He.
  destruct He as [l [dd [Ec [Hl [Fl [Hd Fd]]]]]].
  rewrite Hwh, Ec in *. split; [|exact Hp].
  apply id_token_parts; try assumption.
  eapply Forall_impl; [|exact Fl]. intros c Hc. rewrite <- upper_set.
  exact Hc.
Qed.

Lemma app_id_number_is_uppercase_witness :
  id_token ascii_isupper (@set_matches Reference.platform false [Digit])
           (utf8 "AB123456") = true
  /\ piece_of (utf8 "AB123456") (utf8 "cin ab123456 AB123456").
Proof.
  apply (app_id_number_is_uppercase Reference.platform
           (utf8 "cin ab123456 AB123456") (utf8 "AB123456")).
  vm_compute. reflexivity.
Defined.

(** X12: the Arabic name of [parse_extracted_data] is the first stretch of
    the text made of code points of the Arabic block and of white space:
    it starts at the first such code point, a white space as well as a
    letter, and goes as far as such code points follow. *)
Theorem app_arabic_name_is_the_first_run (P : Platform) (text : str) :
  App.arabic (App.names_of (App.parse_extracted_data text))
  = first_run (fun c => in_arabic_block c || isspace c) text.
Proof.
  rewrite parse_extracted_data_eq. cbn [App.arabic App.names_of].
  change (app_pattern "arabic_name") with (plus [arabic_block; Space]).
  unfold search. rewrite run_search.
  generalize text. intros s. induction s as [|c s IH]; cbn [first_run].
  - reflexivity.
  - rewrite arabic_or_space_set. destruct (_ || _); [|exact IH].
    f_equal. f_equal. clear. induction s as [|x s IH]; cbn [take_while].
    + reflexivity.
    + rewrite arabic_or_space_set. destruct (_ || _); [|reflexivity].
      f_equal. exact IH.
Qed.

(** X13: the date of birth of [parse_extracted_data] is a piece of the
    text of the shape [DD/DD/DDDD] in decimal digits, and every text of
    that shape is stored as it is: no calendar is consulted, so
    ["99/99/9999"] is a date of birth. *)
Theorem app_date_is_a_shape_only (P : Platform) :
  (forall text w,
      App.date_of_birth (App.parse_extracted_data text) = Some w ->
      piece_of w text
      /\ exists d1 d2 d3 d4 d5 d6 d7 d8,
           w = [d1; d2; slash; d3; d4; slash; d5; d6; d7; d8]
           /\ Forall (fun c => set_matches false [Digit] c = true)
                     [d1; d2; d3; d4; d5; d6; d7; d8])
  /\ (forall d1 d2 d3 d4 d5 d6 d7 d8,
        Forall (fun c => set_matches false [Digit] c = true)
               [d1; d2; d3; d4; d5; d6; d7; d8] ->
        App.date_of_birth
          (App.parse_extracted_data
             [d1; d2; slash; d3; d4; slash; d5; d6; d7; d8])
        = Some [d1; d2; slash; d3; d4; slash; d5; d6; d7; d8]).
Proof.
  split.
  - intros text w. rewrite parse_extracted_data_eq. cbn [App.date_of_birth].
    destruct (search false (app_pattern "date_of_birth") text) as [m|] eqn:Hm;
      [|discriminate].
    intros [= <-].
    apply (search_consumes false _
             (fun v => exists d1 d2 d3 d4 d5 d6 d7 d8,
                  v = [d1; d2; slash; d3; d4; slash; d5; d6; d7; d8]
                  /\ Forall (fun c => set_matches false [Digit] c = true)
                            [d1; d2; d3; d4; d5; d6; d7; d8])) in Hm.
    + tauto.
    + intros caps prev s e. apply date_rule_consumes.
  - intros d1 d2 d3 d4 d5 d6 d7 d8 F.
    rewrite parse_extracted_data_eq. cbn [App.date_of_birth].
    unfold search. cbn [search_from].
    rewrite date_rule_matches by exact F. reflexivity.
Qed.

Lemma app_date_is_a_shape_only_witness :
  App.date_of_birth
    (@App.parse_extracted_data Reference.platform (utf8 "99/99/9999"))
  = Some (utf8 "99/99/9999").
Proof.
  apply (proj2 (app_date_is_a_shape_only Reference.platform)
           (chr "9") (chr "9") (chr "9") (chr "9")
           (chr "9") (chr "9") (chr "9") (chr "9")).
  repeat constructor.
Defined.

(** X14: [parse_extracted_data] never fills the place of birth nor the
    expiry date. *)
Theorem app_place_and_expiry_never_filled (P : Platform) (text : str) :
  App.place_of_birth (App.parse_extracted_data text) = None
  /\ App.expiry_date (App.parse_extracted_data text) = None.
Proof. rewrite parse_extracted_data_eq. split; reflexivity. Qed.

(** X15: the Latin name of [parse_extracted_data] is a piece of the text
    made of two words, each one capital of [A-Z] and one or more letters
    of [a-z], with one space between them; a name in capitals is not
    found. *)
Theorem app_latin_name_shape :
  (forall (P : Platform) (text w : str),
      App.latin (App.names_of (App.parse_extracted_data text)) = Some w ->
      piece_of w text
      /\ exists u1 l1 u2 l2,
           w = u1 :: l1 ++ chr " " :: u2 :: l2
           /\ ascii_isupper u1 = true /\ l1 <> []
           /\ Forall (fun c => ascii_islower c = true) l1
           /\ ascii_isupper u2 = true /\ l2 <> []
           /\ Forall (fun c => ascii_islower c = true) l2)
  /\ App.latin (App.names_of
       (@App.parse_extracted_data Reference.platform (utf8 "AHMED ALAMI")))
     = None
  /\ App.latin (App.names_of
       (@App.parse_extracted_data Reference.platform (utf8 "Nom: Ahmed Alami")))
     = Some (utf8 "Ahmed Alami").
Proof.
  split; [|split; vm_compute; reflexivity].
  intros P text w. rewrite parse_extracted_data_eq.
  cbn [App.latin App.names_of].
  destruct (search false (app_pattern "latin_name") text) as [m|] eqn:Hm;
    [|discriminate].
  intros [= <-].
  apply (search_consumes false _
           (fun v => exists u1 l1 u2 l2,
                v = u1 :: l1 ++ chr " " :: u2 :: l2
                /\ ascii_isupper u1 = true /\ l1 <> []
                /\ Forall (fun c => ascii_islower c = true) l1
                /\ ascii_isupper u2 = true /\ l2 <> []
                /\ Forall (fun c => ascii_islower c = true) l2)) in Hm.
  - tauto.
  - intros caps prev s e. apply latin_rule_consumes.
Qed.

Lemma app_latin_name_shape_witness :
  piece_of (utf8 "Ahmed Alami") (utf8 "Nom: Ahmed Alami").
Proof.
  apply (proj1 app_latin_name_shape Reference.platform
           (utf8 "Nom: Ahmed Alami") (utf8 "Ahmed Alami")).
  vm_compute. reflexivity.
Defined.

(** ** The code points of a stored name *)

Section GroupAlphabet.
Context {P : Platform}.
Variable ic : bool.
Variable name : nat.
Variable Q : str -> Prop.

Lemma matches_group_runs r :
  Forall (runs_in ic Q) (group_sets name r) ->
  forall caps prev s e v,
    In e (matches ic r caps prev s) -> In (name, v) (fst (fst e)) ->
    In (name, v) caps \/ Q v.
Proof.
  induction r as [|a|lo hi a| |r1 IH1 r2 IH2|r1 IH1 r2 IH2|n r1 IH1];
    intros G caps prev s e v; cbn [group_sets] in G.
  - cbn [matches]. intros [<-|[]]. auto.
  - cbn [matches]. destruct s as [|c s]; [intros []|].
    destruct (set_matches ic a c); [|intros []]. intros [<-|[]]. auto.
  - cbn [matches]. rewrite in_map_iff. intros [e1 [<- _]]. auto.
  - cbn [matches]. destruct (xorb _ _); [|intros []]. intros [<-|[]]. auto.
  - apply Forall_app in G. destruct G as [G1 G2].
    intros H Hv. apply (seq_in ic) in H. destruct H as [e1 [H1 H2]].
    destruct (IH2 G2 _ _ _ _ _ H2 Hv) as [Hc|Hq]; [|auto].
    apply (IH1 G1 _ _ _ _ _ H1 Hc).
  - apply Forall_app in G. destruct G as [G1 G2].
    cbn [matches]. rewrite in_app_iff. intros [H|H] Hv; eauto.
  - apply Forall_app in G. destruct G as [G0 G1].
    cbn [matches]. rewrite in_map_iff. intros [e1 [<- H]]. cbn [fst snd].
    intros [Hv|Hv]; [|eauto].
    injection Hv as -> <-. rewrite Nat.eqb_refl in G0.
    inversion_clear G0 as [|? ? R _]. right.
    destruct r1; try destruct R.
    apply (times_in ic) in H. destruct H as [p [Ep [Fp _]]].
    rewrite Ep at 1. rewrite consumed_app. apply R, Fp.
Qed.

End GroupAlphabet.

Section Names.
Context {P : Platform}.

Lemma first_language_in text langs m :
  first_language text langs = Some m ->
  exists lr, In lr langs /\ search true (snd lr) text = Some m.
Proof.
  induction langs as [|[lang r] langs IH]; cbn [first_language];
    [discriminate|].
  destruct (search true r text) as [m'|] eqn:E.
  - intros [= <-]. exists (lang, r). split; [left; reflexivity | exact E].
  - intros H. destruct (IH H) as [lr [Hin Hs]]. exists lr. split; [right|];
      assumption.
Qed.

Lemma search_group_runs r (Q : str -> Prop) text m v :
  Forall (runs_in true Q) (group_sets 1 r) ->
  search true r text = Some m -> group m 1 = Some v -> Q v.
Proof.
  intros G Hm Hv. apply (search_from_found true _ _ []) in Hm.
  destruct Hm as [pre' [s1 [prev1 [e [_ [He [_ Hg]]]]]]].
  unfold group in Hv. rewrite Hg in Hv. apply lookup_in in Hv.
  destruct (matches_group_runs true 1 Q r G _ _ _ _ _ He Hv) as [[]|H].
  exact H.
Qed.

Lemma strip_made_of a s : made_of a s -> made_of a (strip s).
Proof.
  unfold made_of. intros H. destruct (strip_segment s) as [p [q E]].
  rewrite E in H. apply Forall_app in H. destruct H as [_ H].
  apply Forall_app in H. tauto.
Qed.

End Names.

(** X16: a value that [extract] stores under ['Name'] or ['Birth Place']
    is made only of letters of [A-Z], case ignored, white space and [-],
    or only of code points of the Arabic block and white space. *)
Theorem stored_names_alphabet (P : Platform) (text : str)
    (extracted : dict (option str)) (k w : str) :
  extract text = Return extracted ->
  In k [utf8 "Name"; utf8 "Birth Place"] ->
  dict_get k extracted = Some (Some w) ->
  made_of [A_Z; Space; Ch (chr "-")] w \/ made_of [arabic_block; Space] w.
Proof.
  intros E Hk Hw.
  destruct (extract_provenance _ _ _ _ E Hw) as [entry [Hin [Hr Hst]]].
  set (Q := fun v => made_of [A_Z; Space; Ch (chr "-")] v
                     \/ made_of [arabic_block; Space] v).
  assert (HQ : forall s, Q s -> Q (strip s)).
  { intros s [H|H]; [left|right]; apply strip_made_of, H. }
  assert (Hfr : forall p, made_of [A_Z; Space; Ch (chr "-")] p -> Q p)
    by (intros p Hp; left; exact Hp).
  assert (Har : forall p, made_of [arabic_block; Space] p -> Q p)
    by (intros p Hp; right; exact Hp).
  unfold patterns in Hin. cbn [In] in Hin.
  destruct Hin as [<-|[<-|[<-|[<-|[<-|[]]]]]];
    cbn [In] in Hk; destruct Hk as [<-|[<-|[]]];
    try (vm_compute in Hr; discriminate);
    unfold stored_from in Hst; cbn [fst snd] in Hst;
    destruct Hst as [m [s [Hm [Hg Hs]]]].
  all: change (is_date_key _) with false in Hs; cbv iota in Hs; subst w;
    apply HQ;
    apply first_language_in in Hm; destruct Hm as [lr [Hl Hm]];
    cbn [In] in Hl; destruct Hl as [<-|[<-|[]]]; cbn [snd] in Hm.
  all: eapply (search_group_runs _ Q); [|exact Hm|exact Hg];
    first [ exact (@Forall_cons _ (runs_in true Q)
                     (Some [A_Z; Space; Ch (chr "-")]) [] Hfr (Forall_nil _))
          | exact (@Forall_cons _ (runs_in true Q)
                     (Some [arabic_block; Space]) [] Har (Forall_nil _)) ].
Qed.

Lemma stored_names_alphabet_witness :
  @made_of Reference.platform [A_Z; Space; Ch (chr "-")] (utf8 "AHMED ALAMI")
  \/ @made_of Reference.platform [arabic_block; Space] (utf8 "AHMED ALAMI").
Proof.
  apply (stored_names_alphabet Reference.platform
           (utf8 "NOM ET PRENOM: AHMED ALAMI")
           [ (utf8 "CIN Number", None); (utf8 "Full Name", None);
             (utf8 "Date of Birth", None); (utf8 "Place of Birth", None);
             (utf8 "Expiry Date", None);
             (utf8 "Name", Some (utf8 "AHMED ALAMI"));
             (utf8 "Birth Place", Some (utf8 "HMED ALAMI")) ]
           (utf8 "Name") (utf8 "AHMED ALAMI")).
  - vm_compute. reflexivity.
  - left. reflexivity.
  - vm_compute. reflexivity.
Defined.

(** ** The ID-number rule, in any text *)

Section Positions.
Context {P : Platform}.
Variable ic : bool.

Lemma last_of_app prev p q : last_of prev (p ++ q) = last_of (last_of prev p) q.
Proof. apply fold_left_app. Qed.

Lemma last_of_cons prev c p :
  exists x, last_of prev (c :: p) = Some x /\ In x (c :: p).
Proof.
  revert prev c. induction p as [|y p IH]; intros prev c.
  - exists c. split; [reflexivity | left; reflexivity].
  - destruct (IH (Some c) y) as [x [E Hx]]. exists x. split; [exact E|].
    right. exact Hx.
Qed.

Lemma match_at_start r pos prev s m :
  match_at ic r pos prev s = Some m -> m_start m = pos.
Proof.
  unfold match_at. destruct (matches ic r [] prev s) as [|[[caps p] rest] l];
    [discriminate|]. intros [= <-]. reflexivity.
Qed.

Lemma match_at_position r pos pos' prev s :
  match_at ic r pos prev s = None -> match_at ic r pos' prev s = None.
Proof.
  unfold match_at. destruct (matches ic r [] prev s) as [|[[caps p] rest] l];
    [reflexivity | discriminate].
Qed.

(** [search] reports the match at the first place where there is one. *)
Lemma search_from_first r s :
  forall pos prev m,
    search_from ic r pos prev s = Some m ->
    exists pre s1,
      s = pre ++ s1
      /\ match_at ic r (pos + length pre) (last_of prev pre) s1 = Some m
      /\ (forall pre' s',
            s = pre' ++ s' -> (length pre' < length pre)%nat ->
            match_at ic r pos (last_of prev pre') s' = None).
Proof.
  induction s as [|c s IH]; intros pos prev m; cbn [search_from].
  - destruct (match_at ic r pos prev []) eqn:E; [|discriminate].
    intros [= <-]. exists [], []. cbn [length]. rewrite Nat.add_0_r.
    split; [reflexivity|]. split; [exact E|].
    intros pre' s' _ H. cbn [length] in H. lia.
  - destruct (match_at ic r pos prev (c :: s)) eqn:E.
    + intros [= <-]. exists [], (c :: s). cbn [length]. rewrite Nat.add_0_r.
      split; [reflexivity|]. split; [exact E|].
      intros pre' s' _ H. cbn [length] in H. lia.
    + intros H. apply IH in H. destruct H as [pre [s1 [Es [Hm Hf]]]].
      exists (c :: pre), s1. split; [rewrite Es; reflexivity|].
      split.
      * cbn [length]. rewrite Nat.add_succ_r. exact Hm.
      * intros pre' s' Es' Hl. destruct pre' as [|x pre'].
        -- cbn [app] in Es'. subst s'. exact E.
        -- injection Es' as <- Es'. cbn [length] in Hl.
           apply (match_at_position r (S pos)). apply Hf; [exact Es'|lia].
Qed.

Lemma search_from_finds r pre :
  forall pos prev s1,
    match_at ic r pos (last_of prev pre) s1 <> None ->
    exists m,
      search_from ic r pos prev (pre ++ s1) = Some m
      /\ (m_start m <= pos + length pre)%nat.
Proof.
  induction pre as [|c pre IH]; intros pos prev s1 H.
  - cbn [app last_of fold_left] in *.
    destruct (match_at ic r pos prev s1) as [m|] eqn:E; [|congruence].
    exists m. split.
    + destruct s1; cbn [search_from]; rewrite E; reflexivity.
    + apply match_at_start in E. cbn [length]. lia.
  - cbn [app search_from].
    destruct (match_at ic r pos prev (c :: pre ++ s1)) as [m|] eqn:E.
    + exists m. split; [reflexivity|]. apply match_at_start in E. lia.
    + assert (H' : match_at ic r (S pos) (last_of (Some c) pre) s1 <> None).
      { intros K. apply H. apply (match_at_position r (S pos)). exact K. }
      destruct (IH _ _ _ H') as [m [Hm Hs]].
      exists m. split; [exact Hm|]. cbn [length]. lia.
Qed.

(** Every way a repetition stops: what it consumed, and the code point
    before the place it stops at. *)
Lemma repeat_greedy_stops a s :
  forall lo hi prev e,
    In e (repeat_greedy ic a lo hi prev s) ->
    exists p,
      s = p ++ snd e /\ fst e = last_of prev p
      /\ Forall (fun c => set_matches ic a c = true) p
      /\ (lo <= length p)%nat
      /\ (forall h, hi = Some h -> (length p <= h)%nat).
Proof.
  induction s as [|c s IH]; intros lo hi prev e.
  - cbn [repeat_greedy]. destruct lo; [|intros []].
    intros [<-|[]]. exists []. repeat split; auto. intros h _. simpl. lia.
  - cbn [repeat_greedy].
    assert (Hstop : In e (match lo with O => [(prev, c :: s)] | S _ => [] end)
                    -> exists p,
                         c :: s = p ++ snd e /\ fst e = last_of prev p
                         /\ Forall (fun c => set_matches ic a c = true) p
                         /\ (lo <= length p)%nat
                         /\ (forall h, hi = Some h -> (length p <= h)%nat)).
    { destruct lo; [|intros []]. intros [<-|[]]. exists [].
      repeat split; auto. intros h _. simpl. lia. }
    destruct (may_repeat hi) eqn:Hm; [|exact Hstop].
    destruct (set_matches ic a c) eqn:Hc; [|exact Hstop].
    cbn [andb]. rewrite in_app_iff. intros [H|H]; [|auto].
    apply IH in H. destruct H as [p [Ep [Eq [Fp [Lp Hp]]]]].
    exists (c :: p). split; [rewrite Ep; reflexivity|].
    split; [exact Eq|].
    split; [constructor; assumption|]. split; [simpl; lia|].
    intros h ->. destruct h as [|h]; [discriminate|].
    simpl. specialize (Hp h eq_refl). lia.
Qed.

(** And every such stop is one of the ways. *)
Lemma repeat_greedy_reaches a p :
  forall lo hi prev rest,
    Forall (fun c => set_matches ic a c = true) p ->
    (lo <= length p)%nat ->
    (forall h, hi = Some h -> (length p <= h)%nat) ->
    In (last_of prev p, rest) (repeat_greedy ic a lo hi prev (p ++ rest)).
Proof.
  induction p as [|c p IH]; intros lo hi prev rest F Hlo Hhi.
  - cbn [length] in Hlo. assert (lo = 0%nat) by lia. subst lo.
    cbn [app last_of fold_left].
    destruct rest as [|x rest]; cbn [repeat_greedy]; [left; reflexivity|].
    destruct (may_repeat hi && set_matches ic a x);
      [apply in_or_app; right|]; left; reflexivity.
  - inversion_clear F as [|? ? Hc F']. cbn [app repeat_greedy].
    assert (Hm : may_repeat hi = true).
    { destruct hi as [[|h]|]; try reflexivity.
      specialize (Hhi _ eq_refl). cbn [length] in Hhi. lia. }
    rewrite Hm, Hc. cbn [andb]. apply in_or_app. left.
    apply (IH (pred lo) (option_map pred hi) (Some c) rest F').
    + cbn [length] in Hlo. lia.
    + intros h Eh. destruct hi as [k|]; [|discriminate].
      injection Eh as <-. specialize (Hhi _ eq_refl). cbn [length] in Hhi.
      lia.
Qed.

End Positions.

Section BoundedRule.
Context {P : Platform}.
Variables a d : cset.
Hypothesis a_word : forall c, set_matches true a c = true -> is_word c = true.
Hypothesis d_word : forall c, set_matches true d c = true -> is_word c = true.

Lemma word_before_last prev c p :
  Forall (fun x => is_word x = true) (c :: p) ->
  word_before (last_of prev (c :: p)) = true.
Proof.
  intros F. destruct (last_of_cons prev c p) as [x [E Hx]]. rewrite E.
  rewrite Forall_forall in F. apply F, Hx.
Qed.

(** Whatever the rule consumes is one or two letters and six digits, with
    no word code point before or after. *)
Lemma id_rule_bounded caps prev s e :
  In e (matches true (id_rule_shape a d) caps prev s) ->
  exists l dd,
    s = (l ++ dd) ++ snd e
    /\ (1 <= length l <= 2)%nat
    /\ Forall (fun c => set_matches true a c = true) l
    /\ length dd = 6%nat
    /\ Forall (fun c => set_matches true d c = true) dd
    /\ word_before prev = false
    /\ word_after (snd e) = false.
Proof.
  unfold id_rule_shape, cat, exactly. cbn [fold_right].
  intros H.
  apply seq_in in H. destruct H as [e0 [H0 H]].
  cbn [matches] in H0.
  destruct (xorb (word_before prev) (word_after s)) eqn:X0; [|destruct H0].
  destruct H0 as [<-|[]]. cbn [fst snd] in H.
  apply seq_in in H. destruct H as [e1 [H1 H]].
  cbn [matches] in H1. apply in_map_iff in H1. destruct H1 as [g1 [<- G1]].
  apply repeat_greedy_stops in G1. destruct G1 as [l [El [Ql [Fl [L1 L2]]]]].
  cbn [fst snd] in H.
  apply seq_in in H. destruct H as [e2 [H2 H]].
  cbn [matches] in H2. apply in_map_iff in H2. destruct H2 as [g2 [<- G2]].
  apply repeat_greedy_stops in G2. destruct G2 as [dd [Ed [Qd [Fd [D1 D2]]]]].
  cbn [fst snd] in H.
  apply seq_in in H. destruct H as [e3 [H3 H]].
  cbn [matches] in H3.
  destruct (xorb (word_before (fst g2)) (word_after (snd g2))) eqn:X1;
    [|destruct H3].
  destruct H3 as [<-|[]]. cbn [fst snd] in H. apply eps_in in H.
  cbn [snd] in H.
  specialize (L2 2%nat eq_refl). specialize (D2 6%nat eq_refl).
  exists l, dd. rewrite H.
  split; [rewrite El, Ed, app_assoc; reflexivity|].
  split; [lia|]. split; [exact Fl|]. split; [lia|]. split; [exact Fd|].
  destruct l as [|x l]; [cbn [length] in L1; lia|].
  destruct dd as [|y dd]; [cbn [length] in D1; lia|].
  split.
  - rewrite El in X0. cbn [app word_after] in X0.
    inversion_clear Fl as [|? ? Hx _]. rewrite (a_word _ Hx) in X0.
    destruct (word_before prev); [discriminate | reflexivity].
  - rewrite Qd, word_before_last in X1.
    + destruct (word_after (snd g2)); [discriminate | reflexivity].
    + eapply Forall_impl; [|exact Fd]. exact d_word.
Qed.

(** A token with no word code point before or after is matched where it
    stands. *)
Lemma id_rule_reaches prev l dd post :
  (1 <= length l <= 2)%nat ->
  Forall (fun c => set_matches true a c = true) l ->
  length dd = 6%nat ->
  Forall (fun c => set_matches true d c = true) dd ->
  word_before prev = false -> word_after post = false ->
  In ([], last_of (last_of prev l) dd, post)
     (matches true (id_rule_shape a d) [] prev ((l ++ dd) ++ post)).
Proof.
  intros Hl Fl Hd Fd Hb Ha.
  unfold id_rule_shape, cat, exactly. cbn [fold_right].
  destruct l as [|x l]; [cbn [length] in Hl; lia|].
  destruct dd as [|y dd]; [discriminate|].
  rewrite matches_seq. apply in_flat_map.
  exists ([], prev, ((x :: l) ++ y :: dd) ++ post). split.
  { cbn [matches app word_after]. rewrite Hb.
    inversion_clear Fl as [|? ? Hx _]. rewrite (a_word _ Hx).
    left. reflexivity. }
  cbn [fst snd]. rewrite matches_seq. apply in_flat_map.
  exists ([], last_of prev (x :: l), (y :: dd) ++ post). split.
  { cbn [matches]. apply in_map_iff.
    exists (last_of prev (x :: l), (y :: dd) ++ post).
    split; [reflexivity|]. rewrite <- app_assoc.
    apply repeat_greedy_reaches; [exact Fl|lia|].
    intros h [= <-]. lia. }
  cbn [fst snd]. rewrite matches_seq. apply in_flat_map.
  exists ([], last_of (last_of prev (x :: l)) (y :: dd), post). split.
  { cbn [matches]. apply in_map_iff.
    exists (last_of (last_of prev (x :: l)) (y :: dd), post).
    split; [reflexivity|].
    apply repeat_greedy_reaches; [exact Fd|lia|].
    intros h [= <-]. lia. }
  cbn [fst snd]. rewrite matches_seq. apply in_flat_map.
  exists ([], last_of (last_of prev (x :: l)) (y :: dd), post). split.
  { cbn [matches]. rewrite word_before_last, Ha.
    - left. reflexivity.
    - eapply Forall_impl; [|exact Fd]. exact d_word. }
  left. reflexivity.
Qed.

End BoundedRule.

Lemma id_token_split (f g : cp -> bool) t :
  id_token f g t = true ->
  exists l dd,
    t = l ++ dd /\ (1 <= length l <= 2)%nat
    /\ Forall (fun c => f c = true) l
    /\ length dd = 6%nat /\ Forall (fun c => g c = true) dd.
Proof.
  unfold id_token. rewrite !andb_true_iff, !Nat.leb_le, !forallb_forall.
  intros [[[H1 H2] Hf] Hg].
  exists (firstn (length t - 6) t), (skipn (length t - 6) t).
  split; [symmetry; apply firstn_skipn|].
  rewrite length_firstn, length_skipn.
  split; [lia|]. split; [apply Forall_forall, Hf|].
  split; [lia|]. apply Forall_forall, Hg.
Qed.

Section RuleInText.
Context {P : Platform}.
Hypothesis words : id_code_points_are_word P.

Lemma letters_are_word c :
  set_matches true [A_Z] c = true -> is_word c = true.
Proof.
  intros H. apply words. unfold set_matches in *. cbn [existsb] in *.
  rewrite orb_false_r in H. rewrite H. reflexivity.
Qed.

Lemma digits_are_word c :
  set_matches true [Digit] c = true -> is_word c = true.
Proof.
  intros H. apply words. unfold set_matches in *. cbn [existsb] in *.
  rewrite orb_false_r in H. rewrite H. apply orb_true_r.
Qed.

Lemma bounded_id_matches prev pre token post pos :
  word_bounded_id pre token post ->
  word_before prev = word_before (char_before pre) ->
  match_at true cin_number_pattern pos prev (token ++ post) <> None.
Proof.
  intros [Ht [Hb Ha]] Hp. rewrite <- Hp in Hb.
  apply id_token_split in Ht.
  destruct Ht as [l [dd [-> [Hl [Fl [Hd Fd]]]]]].
  pose proof (id_rule_reaches [A_Z] [Digit] letters_are_word digits_are_word
                prev l dd post Hl Fl Hd Fd Hb Ha) as Hin.
  unfold match_at. change cin_number_pattern with (id_rule_shape [A_Z] [Digit]).
  destruct (matches true (id_rule_shape [A_Z] [Digit]) [] prev
                    ((l ++ dd) ++ post)) as [|[[caps q] rest] ms];
    [destruct Hin | discriminate].
Qed.

Lemma rule_search_sound text m :
  search true cin_number_pattern text = Some m ->
  exists pre post,
    text = pre ++ m_whole m ++ post
    /\ m_start m = length pre
    /\ word_bounded_id pre (m_whole m) post
    /\ (forall pre' token' post',
          text = pre' ++ token' ++ post' ->
          word_bounded_id pre' token' post' ->
          (length pre <= length pre')%nat).
Proof.
  intros H. apply search_from_first in H.
  destruct H as [pre [s1 [Et [Hm Hf]]]]. cbn [Nat.add] in Hm.
  pose proof (match_at_start _ _ _ _ _ _ Hm) as Hs.
  apply match_at_found in Hm. destruct Hm as [e [He [Hw _]]].
  change cin_number_pattern with (id_rule_shape [A_Z] [Digit]) in He.
  apply (id_rule_bounded [A_Z] [Digit] letters_are_word digits_are_word) in He.
  destruct He as [l [dd [Es [Hl [Fl [Hd [Fd [Hb Ha]]]]]]]].
  rewrite Es, consumed_app in Hw.
  exists pre, (snd e). rewrite Hw.
  split; [rewrite Et, Es; reflexivity|]. split; [exact Hs|].
  split.
  - split; [apply id_token_parts; assumption|]. split; assumption.
  - intros pre' token' post' Et' Hb'.
    destruct (Nat.le_gt_cases (length pre) (length pre')) as [Hle|Hlt];
      [exact Hle|].
    exfalso.
    apply (bounded_id_matches (char_before pre') pre' token' post' 0%nat
             Hb' eq_refl).
    apply Hf; assumption.
Qed.

Lemma rule_search_complete pre token post :
  word_bounded_id pre token post ->
  exists m,
    search true cin_number_pattern (pre ++ token ++ post) = Some m
    /\ (m_start m <= length pre)%nat.
Proof.
  intros Hb. unfold search.
  apply (search_from_finds true cin_number_pattern pre 0%nat None).
  apply (bounded_id_matches _ pre); [exact Hb | reflexivity].
Qed.

End RuleInText.

Lemma reference_id_code_points_are_word :
  id_code_points_are_word Reference.platform.
Proof.
  intros c H. unfold set_matches in H. cbn [existsb] in H.
  rewrite orb_false_r in H. apply orb_true_iff in H.
  unfold is_word.
  change (@isalnum Reference.platform c) with (Reference.ref_isalnum c).
  unfold Reference.ref_isalnum.
  destruct H as [H|H].
  - assert (K : @set_matches Reference.platform true [A_Z] c = true).
    { unfold set_matches. cbn [existsb]. rewrite H. reflexivity. }
    apply reference_letters_only in K. destruct K as [K|K].
    + assert (Hin : In c (code_range 0x41 0x5A ++ code_range 0x61 0x7A)).
      { apply in_or_app. unfold ascii_isupper, ascii_islower in K.
        apply orb_true_iff in K.
        destruct K as [K|K]; apply andb_true_iff in K;
          rewrite !N.leb_le in K; [left|right]; apply in_code_range; lia. }
      clear H K. revert c Hin. apply Forall_forall.
      apply Forall_forall. intros c Hc.
      apply (proj1 (forallb_forall
               (fun c => existsb (fun r => (fst r <=? c) && (c <=? snd r))
                                 Reference.alnum_table)
               (code_range 0x41 0x5A ++ code_range 0x61 0x7A))) in Hc;
        [rewrite Hc; reflexivity | vm_compute; reflexivity].
    + cbn [In] in K.
      repeat (destruct K as [<-|K]; [vm_compute; reflexivity|]). destruct K.
  - cbn [item_matches] in H.
    change (@decimal Reference.platform c) with (Reference.ref_decimal c) in H.
    rewrite H. rewrite orb_true_r. reflexivity.
Qed.

(** C10, as the code has it: the rule is searched ignoring case.  In a
    text made of one word it finds the word as a whole exactly when the
    word is one or two letters of [A-Z], case ignored, followed by exactly
    six decimal digits; those letters are the Latin letters of either case
    and U+0130, U+0131, U+017F, U+212A, which fold to [i], [s] and [k].
    In any text, what the search finds is such a token with no word code
    point before it or after it, and no such token starts earlier in the
    text; and in a text that holds such a token the search finds one.
    ["AB123456"] and ["ab123456"] are found, and neither ["AB12345"],
    ["ABC123456"] nor ["AB1234567"] holds a token to find. *)
Theorem id_rule_ignores_case :
  (forall (P : Platform) (token : str),
      Forall (fun c => is_word c = true) token ->
      id_rule_finds token
      = id_token (set_matches true [A_Z]) (set_matches true [Digit]) token)
  /\ (forall c,
        @set_matches Reference.platform true [A_Z] c = true
        <-> (ascii_isupper c || ascii_islower c = true
             \/ In c [0x0130; 0x0131; 0x017F; 0x212A]))
  /\ (forall c,
        0x30 <= c <= 0x39 ->
        @set_matches Reference.platform true [Digit] c = true)
  /\ @id_rule_finds Reference.platform (utf8 "AB123456") = true
  /\ @id_rule_finds Reference.platform (utf8 "ab123456") = true
  /\ @id_rule_finds Reference.platform (utf8 "A123456") = true
  /\ @id_rule_finds Reference.platform (utf8 "AB12345") = false
  /\ @id_rule_finds Reference.platform (utf8 "ABC123456") = false
  /\ @id_rule_finds Reference.platform (utf8 "AB1234567") = false
  /\ option_map m_whole
       (@search Reference.platform true cin_number_pattern
          (utf8 "CIN: AB123456."))
     = Some (utf8 "AB123456")
  /\ @search Reference.platform true cin_number_pattern (utf8 "XAB123456_")
     = None
  /\ (forall (P : Platform) (text : str) (m : match_object),
        id_code_points_are_word P ->
        search true cin_number_pattern text = Some m ->
        exists pre post,
          text = pre ++ m_whole m ++ post
          /\ m_start m = length pre
          /\ word_bounded_id pre (m_whole m) post
          /\ (forall pre' token' post',
                text = pre' ++ token' ++ post' ->
                word_bounded_id pre' token' post' ->
                (length pre <= length pre')%nat))
  /\ (forall (P : Platform) (pre token post : str),
        id_code_points_are_word P ->
        word_bounded_id pre token post ->
        exists m,
          search true cin_number_pattern (pre ++ token ++ post) = Some m
          /\ (m_start m <= length pre)%nat)
  /\ id_code_points_are_word Reference.platform
  /\ @search Reference.platform true cin_number_pattern (utf8 "ABC123456")
     = None
  /\ @search Reference.platform true cin_number_pattern (utf8 "AB1234567")
     = None
  /\ @search Reference.platform true cin_number_pattern (utf8 "AB12345")
     = None
  /\ @search Reference.platform true cin_number_pattern (utf8 "1AB123456")
     = None
  /\ option_map m_whole
       (@search Reference.platform true cin_number_pattern
          (utf8 "ABC123456 ab123456, AB123456"))
     = Some (utf8 "ab123456").
Proof.
  split.
  { intros P token Hw. unfold id_rule_finds.
    change cin_number_pattern with (id_rule_shape [A_Z] [Digit]).
    apply rule_finds. exact Hw. }
  split.
  { intros c. split; [apply reference_letters_only|].
    intros [H|H]; [apply reference_letters; exact H|].
    simpl in H.
    repeat (destruct H as [<-|H]; [vm_compute; reflexivity|]). destruct H. }
  split; [exact reference_digits|].
  do 8 (split; [vm_compute; reflexivity|]).
  split.
  { intros P text m Hw H. exact (rule_search_sound Hw text m H). }
  split.
  { intros P pre token post Hw Hb.
    exact (rule_search_complete Hw pre token post Hb). }
  split; [exact reference_id_code_points_are_word|].
  repeat split; vm_compute; reflexivity.
Qed.

Lemma id_rule_ignores_case_witness :
  Forall (fun c => @is_word Reference.platform c = true) (utf8 "ab123456")
  /\ @id_rule_finds Reference.platform (utf8 "ab123456")
     = id_token (@set_matches Reference.platform true [A_Z])
                (@set_matches Reference.platform true [Digit])
                (utf8 "ab123456")
  /\ id_code_points_are_word Reference.platform
  /\ @word_bounded_id Reference.platform
       (utf8 "CIN: ") (utf8 "ab123456") (utf8 ".")
  /\ exists m,
       @search Reference.platform true cin_number_pattern
         (utf8 "CIN: " ++ utf8 "ab123456" ++ utf8 ".") = Some m
       /\ (m_start m <= length (utf8 "CIN: "))%nat.
Proof.
  assert (H : Forall (fun c => @is_word Reference.platform c = true)
                     (utf8 "ab123456")).
  { apply Forall_forall. intros c Hc. vm_compute in Hc.
    repeat (destruct Hc as [<-|Hc]; [vm_compute; reflexivity|]).
    destruct Hc. }
  assert (B : @word_bounded_id Reference.platform
                (utf8 "CIN: ") (utf8 "ab123456") (utf8 "."))
    by (repeat split; vm_compute; reflexivity).
  split; [exact H|].
  split.
  { exact (proj1 id_rule_ignores_case Reference.platform (utf8 "ab123456")
             H). }
  split; [exact reference_id_code_points_are_word|].
  split; [exact B|].
  pose proof id_rule_ignores_case as T.
  do 12 (apply proj2 in T). apply proj1 in T.
  exact (T Reference.platform (utf8 "CIN: ") (utf8 "ab123456") (utf8 ".")
           reference_id_code_points_are_word B).
Defined.

(** C10, as the specification words it, fails: ["ab123456"] has no
    uppercase letter, and the rule finds it. *)
Lemma lowercase_id_is_found :
  @id_rule_finds Reference.platform (utf8 "ab123456") = true
  /\ @spec_id_token Reference.platform (utf8 "ab123456") = false.
Proof. split; vm_compute; reflexivity. Qed.
